(** * A shallow embedding of the PIQP solver driver ([include/piqp/solver.hpp])

    The scalar type [T] of the C++ template is modelled by the rationals [Q]
    (exact arithmetic); Eigen vectors are lists of rationals, Eigen matrices are
    functions with their dimensions.  The KKT operator and the Ruiz
    preconditioner are external collaborators of the driver (dense/sparse
    back-ends): they are modelled as type classes whose methods are left
    abstract, exactly as [SolverBase] is parametric in them.
    [eigen_assert] is modelled as in a release build (no effect); printing
    and timing are omitted, except that the verbose branch writes [rx]. *)

From Stdlib Require Import QArith Qabs Qminmax List Lia Lqa ZArith Bool Arith.
Import ListNotations.

Open Scope Q_scope.

(** ** Scalars, vectors and matrices *)

Definition vec := list Q.

Definition Qltb (a b : Q) : bool :=
  match (a ?= b) with Lt => true | _ => false end.

(** [std::max] / [std::min] as the STL defines them. *)
Definition std_max (a b : Q) : Q := if Qltb a b then b else a.
Definition std_min (a b : Q) : Q := if Qltb b a then b else a.

(** [PIQP_INF] *)
Definition PIQP_INF : Q := inject_Z (10 ^ 30).

(** The literals [1e-4], [1e10], [1e-13] of [solve_impl]. *)
Definition Q_1em4 : Q := 1 # 10000.
Definition Q_1e10 : Q := inject_Z (10 ^ 10).
Definition Q_1em13 : Q := 1 # (10 ^ 13).

Definition vget (v : vec) (i : nat) : Q := nth i v 0.
Definition vinit (k : nat) (f : nat -> Q) : vec := map f (seq 0 k).

(** [v.setConstant(a)] *)
Definition vconst (v : vec) (a : Q) : vec := map (fun _ => a) v.
Definition vadd (a b : vec) : vec := vinit (length a) (fun i => vget a i + vget b i).
Definition vsub (a b : vec) : vec := vinit (length a) (fun i => vget a i - vget b i).
Definition vscale (t : Q) (a : vec) : vec := map (Qmult t) a.
Definition vopp (a : vec) : vec := map Qopp a.
(** [v.array() += a] *)
Definition vshift (v : vec) (a : Q) : vec := map (fun u => u + a) v.
(** [v.head(k)] read as a vector of its own *)
Definition vhead (k : nat) (v : vec) : vec := firstn k v.
(** [v.head(k) = w]: the first [k] entries are overwritten, the rest kept *)
Definition vset_head (k : nat) (v w : vec) : vec :=
  vinit (length v) (fun i => if (i <? k)%nat then vget w i else vget v i).
(** [v.tail(length v - k) = a] *)
Definition vfill_tail {A} (k : nat) (a : A) (v : list A) : list A :=
  firstn k v ++ map (fun _ => a) (skipn k v).
Definition vsum (a : vec) : Q := fold_right Qplus 0 a.
Definition vdot (a b : vec) : Q :=
  vsum (map (fun i => vget a i * vget b i) (seq 0 (length a))).
(** [lpNorm<Eigen::Infinity>()]; [0] on an empty vector as in Eigen *)
Definition inf_norm (v : vec) : Q := fold_left (fun acc a => std_max acc (Qabs a)) v 0.
(** [minCoeff()] (only called on non-empty vectors) *)
Definition min_coeff (v : vec) : Q :=
  match v with [] => 0 | a :: r => fold_left (fun acc u => if Qltb u acc then u else acc) r a end.

(** [v(i) = a]; out of range leaves [v] unchanged *)
Fixpoint vset {A} (v : list A) (i : nat) (a : A) : list A :=
  match v, i with
  | [], _ => []
  | _ :: r, O => a :: r
  | u :: r, S i' => u :: vset r i' a
  end.

(** [std::swap(v(i), v(j))] *)
Definition vswap {A} (d : A) (v : list A) (i j : nat) : list A :=
  let vi := nth i v d in
  let vj := nth j v d in
  vset (vset v i vj) j vi.

Record Mat := mkMat { mrows : nat; mcols : nat; mentry : nat -> nat -> Q }.

Definition mat_vec (M : Mat) (v : vec) : vec :=
  vinit (mrows M) (fun i =>
    vsum (map (fun j => mentry M i j * vget v j) (seq 0 (mcols M)))).
Definition mtranspose (M : Mat) : Mat :=
  mkMat (mcols M) (mrows M) (fun i j => mentry M j i).
(** [triangularView<Eigen::Upper>()] *)
Definition mupper (M : Mat) : Mat :=
  mkMat (mrows M) (mcols M) (fun i j => if (i <=? j)%nat then mentry M i j else 0).
(** [triangularView<Eigen::StrictlyLower>()] *)
Definition mstrict_lower (M : Mat) : Mat :=
  mkMat (mrows M) (mcols M) (fun i j => if (j <? i)%nat then mentry M i j else 0).

(** ** The data model *)

Inductive Status :=
| PIQP_SOLVED
| PIQP_MAX_ITER_REACHED
| PIQP_PRIMAL_INFEASIBLE
| PIQP_DUAL_INFEASIBLE
| PIQP_NUMERICS
| PIQP_UNSOLVED
| PIQP_INVALID_SETTINGS.

Definition Status_eq_dec (a b : Status) : {a = b} + {a <> b}.
Proof. decide equality. Defined.

Module Settings.
Record t := mk {
    rho_init : Q; delta_init : Q;
    feas_tol_abs : Q; feas_tol_rel : Q; dual_tol : Q;
    reg_lower_limit : Q;
    max_iter : Z; max_factor_retires : Z; preconditioner_iter : Z;
    tau : Q; verbose : bool; compute_timings : bool }.
End Settings.

(** [Result<T>::info] (timing fields omitted). *)
Module Info.
Record t := mk {
    status : Status; iter : Z; rho : Q; delta : Q; mu : Q; sigma : Q;
    primal_step : Q; dual_step : Q; primal_inf : Q; dual_inf : Q;
    reg_limit : Q; factor_retires : Z; no_primal_update : Z; no_dual_update : Z }.
Definition set_status v i := mk v (iter i) (rho i) (delta i) (mu i) (sigma i) (primal_step i) (dual_step i) (primal_inf i) (dual_inf i) (reg_limit i) (factor_retires i) (no_primal_update i) (no_dual_update i).
Definition set_iter v i := mk (status i) v (rho i) (delta i) (mu i) (sigma i) (primal_step i) (dual_step i) (primal_inf i) (dual_inf i) (reg_limit i) (factor_retires i) (no_primal_update i) (no_dual_update i).
Definition set_rho v i := mk (status i) (iter i) v (delta i) (mu i) (sigma i) (primal_step i) (dual_step i) (primal_inf i) (dual_inf i) (reg_limit i) (factor_retires i) (no_primal_update i) (no_dual_update i).
Definition set_delta v i := mk (status i) (iter i) (rho i) v (mu i) (sigma i) (primal_step i) (dual_step i) (primal_inf i) (dual_inf i) (reg_limit i) (factor_retires i) (no_primal_update i) (no_dual_update i).
Definition set_mu v i := mk (status i) (iter i) (rho i) (delta i) v (sigma i) (primal_step i) (dual_step i) (primal_inf i) (dual_inf i) (reg_limit i) (factor_retires i) (no_primal_update i) (no_dual_update i).
Definition set_sigma v i := mk (status i) (iter i) (rho i) (delta i) (mu i) v (primal_step i) (dual_step i) (primal_inf i) (dual_inf i) (reg_limit i) (factor_retires i) (no_primal_update i) (no_dual_update i).
Definition set_primal_step v i := mk (status i) (iter i) (rho i) (delta i) (mu i) (sigma i) v (dual_step i) (primal_inf i) (dual_inf i) (reg_limit i) (factor_retires i) (no_primal_update i) (no_dual_update i).
Definition set_dual_step v i := mk (status i) (iter i) (rho i) (delta i) (mu i) (sigma i) (primal_step i) v (primal_inf i) (dual_inf i) (reg_limit i) (factor_retires i) (no_primal_update i) (no_dual_update i).
Definition set_primal_inf v i := mk (status i) (iter i) (rho i) (delta i) (mu i) (sigma i) (primal_step i) (dual_step i) v (dual_inf i) (reg_limit i) (factor_retires i) (no_primal_update i) (no_dual_update i).
Definition set_dual_inf v i := mk (status i) (iter i) (rho i) (delta i) (mu i) (sigma i) (primal_step i) (dual_step i) (primal_inf i) v (reg_limit i) (factor_retires i) (no_primal_update i) (no_dual_update i).
Definition set_reg_limit v i := mk (status i) (iter i) (rho i) (delta i) (mu i) (sigma i) (primal_step i) (dual_step i) (primal_inf i) (dual_inf i) v (factor_retires i) (no_primal_update i) (no_dual_update i).
Definition set_factor_retires v i := mk (status i) (iter i) (rho i) (delta i) (mu i) (sigma i) (primal_step i) (dual_step i) (primal_inf i) (dual_inf i) (reg_limit i) v (no_primal_update i) (no_dual_update i).
Definition set_no_primal_update v i := mk (status i) (iter i) (rho i) (delta i) (mu i) (sigma i) (primal_step i) (dual_step i) (primal_inf i) (dual_inf i) (reg_limit i) (factor_retires i) v (no_dual_update i).
Definition set_no_dual_update v i := mk (status i) (iter i) (rho i) (delta i) (mu i) (sigma i) (primal_step i) (dual_step i) (primal_inf i) (dual_inf i) (reg_limit i) (factor_retires i) (no_primal_update i) v.
End Info.

(** [Result<T>]: the iterate, the proximal centres and the info block. *)
Module Result.
Record t := mk {
    x : vec; y : vec; z : vec; z_lb : vec; z_ub : vec;
    s : vec; s_lb : vec; s_ub : vec;
    zeta : vec; lambda : vec; nu : vec; nu_lb : vec; nu_ub : vec;
    info : Info.t }.
Definition set_x v r := mk v (y r) (z r) (z_lb r) (z_ub r) (s r) (s_lb r) (s_ub r) (zeta r) (lambda r) (nu r) (nu_lb r) (nu_ub r) (info r).
Definition set_y v r := mk (x r) v (z r) (z_lb r) (z_ub r) (s r) (s_lb r) (s_ub r) (zeta r) (lambda r) (nu r) (nu_lb r) (nu_ub r) (info r).
Definition set_z v r := mk (x r) (y r) v (z_lb r) (z_ub r) (s r) (s_lb r) (s_ub r) (zeta r) (lambda r) (nu r) (nu_lb r) (nu_ub r) (info r).
Definition set_z_lb v r := mk (x r) (y r) (z r) v (z_ub r) (s r) (s_lb r) (s_ub r) (zeta r) (lambda r) (nu r) (nu_lb r) (nu_ub r) (info r).
Definition set_z_ub v r := mk (x r) (y r) (z r) (z_lb r) v (s r) (s_lb r) (s_ub r) (zeta r) (lambda r) (nu r) (nu_lb r) (nu_ub r) (info r).
Definition set_s v r := mk (x r) (y r) (z r) (z_lb r) (z_ub r) v (s_lb r) (s_ub r) (zeta r) (lambda r) (nu r) (nu_lb r) (nu_ub r) (info r).
Definition set_s_lb v r := mk (x r) (y r) (z r) (z_lb r) (z_ub r) (s r) v (s_ub r) (zeta r) (lambda r) (nu r) (nu_lb r) (nu_ub r) (info r).
Definition set_s_ub v r := mk (x r) (y r) (z r) (z_lb r) (z_ub r) (s r) (s_lb r) v (zeta r) (lambda r) (nu r) (nu_lb r) (nu_ub r) (info r).
Definition set_zeta v r := mk (x r) (y r) (z r) (z_lb r) (z_ub r) (s r) (s_lb r) (s_ub r) v (lambda r) (nu r) (nu_lb r) (nu_ub r) (info r).
Definition set_lambda v r := mk (x r) (y r) (z r) (z_lb r) (z_ub r) (s r) (s_lb r) (s_ub r) (zeta r) v (nu r) (nu_lb r) (nu_ub r) (info r).
Definition set_nu v r := mk (x r) (y r) (z r) (z_lb r) (z_ub r) (s r) (s_lb r) (s_ub r) (zeta r) (lambda r) v (nu_lb r) (nu_ub r) (info r).
Definition set_nu_lb v r := mk (x r) (y r) (z r) (z_lb r) (z_ub r) (s r) (s_lb r) (s_ub r) (zeta r) (lambda r) (nu r) v (nu_ub r) (info r).
Definition set_nu_ub v r := mk (x r) (y r) (z r) (z_lb r) (z_ub r) (s r) (s_lb r) (s_ub r) (zeta r) (lambda r) (nu r) (nu_lb r) v (info r).
Definition set_info v r := mk (x r) (y r) (z r) (z_lb r) (z_ub r) (s r) (s_lb r) (s_ub r) (zeta r) (lambda r) (nu r) (nu_lb r) (nu_ub r) v.
Definition upd_info f r := set_info (f (info r)) r.
End Result.

(** [dense::Data<T>] / [sparse::Data<T, I>]: the stored (scaled) problem
    with the compressed box bounds. *)
Module Data.
Record t := mk {
    n : nat; p : nat; m : nat;
    P_utri : Mat; AT : Mat; GT : Mat;
    c : vec; b : vec; h : vec;
    n_lb : nat; n_ub : nat;
    x_lb_n : vec; x_ub : vec;
    x_lb_idx : list nat; x_ub_idx : list nat }.
End Data.

(** The residual and step vectors of [SolverBase]. *)
Module Work.
Record t := mk {
    rx : vec; ry : vec; rz : vec; rz_lb : vec; rz_ub : vec;
    rs : vec; rs_lb : vec; rs_ub : vec;
    rx_nr : vec; ry_nr : vec; rz_nr : vec; rz_lb_nr : vec; rz_ub_nr : vec;
    dx : vec; dy : vec; dz : vec; dz_lb : vec; dz_ub : vec;
    ds : vec; ds_lb : vec; ds_ub : vec;
    primal_rel_inf : Q; dual_rel_inf : Q }.
Definition set_rx v w := mk v (ry w) (rz w) (rz_lb w) (rz_ub w) (rs w) (rs_lb w) (rs_ub w) (rx_nr w) (ry_nr w) (rz_nr w) (rz_lb_nr w) (rz_ub_nr w) (dx w) (dy w) (dz w) (dz_lb w) (dz_ub w) (ds w) (ds_lb w) (ds_ub w) (primal_rel_inf w) (dual_rel_inf w).
Definition set_reg a b c d e w := mk a b c d e (rs w) (rs_lb w) (rs_ub w) (rx_nr w) (ry_nr w) (rz_nr w) (rz_lb_nr w) (rz_ub_nr w) (dx w) (dy w) (dz w) (dz_lb w) (dz_ub w) (ds w) (ds_lb w) (ds_ub w) (primal_rel_inf w) (dual_rel_inf w).
Definition set_rs a b c w := mk (rx w) (ry w) (rz w) (rz_lb w) (rz_ub w) a b c (rx_nr w) (ry_nr w) (rz_nr w) (rz_lb_nr w) (rz_ub_nr w) (dx w) (dy w) (dz w) (dz_lb w) (dz_ub w) (ds w) (ds_lb w) (ds_ub w) (primal_rel_inf w) (dual_rel_inf w).
Definition set_dirs a b c d e f g h w := mk (rx w) (ry w) (rz w) (rz_lb w) (rz_ub w) (rs w) (rs_lb w) (rs_ub w) (rx_nr w) (ry_nr w) (rz_nr w) (rz_lb_nr w) (rz_ub_nr w) a b c d e f g h (primal_rel_inf w) (dual_rel_inf w).
End Work.

Module Solver.
Record t (K : Type) := mk {
    settings : Settings.t; data : Data.t; result : Result.t; work : Work.t;
    kkt : K; kkt_init_state : bool; setup_done : bool }.
  Arguments mk {K}.
  Arguments settings {K}. Arguments data {K}. Arguments result {K}.
  Arguments work {K}. Arguments kkt {K}. Arguments kkt_init_state {K}.
  Arguments setup_done {K}.
Definition set_settings {K} v (st : t K) := mk v (data st) (result st) (work st) (kkt st) (kkt_init_state st) (setup_done st).
Definition set_data {K} v (st : t K) := mk (settings st) v (result st) (work st) (kkt st) (kkt_init_state st) (setup_done st).
Definition set_result {K} v (st : t K) := mk (settings st) (data st) v (work st) (kkt st) (kkt_init_state st) (setup_done st).
Definition set_work {K} v (st : t K) := mk (settings st) (data st) (result st) v (kkt st) (kkt_init_state st) (setup_done st).
Definition set_kkt {K} (v : K) (st : t K) := mk (settings st) (data st) (result st) (work st) v (kkt_init_state st) (setup_done st).
Definition set_kkt_init_state {K} v (st : t K) := mk (settings st) (data st) (result st) (work st) (kkt st) v (setup_done st).
Definition upd_result {K} f (st : t K) := set_result (f (result st)) st.
Definition upd_info {K} f (st : t K) := upd_result (Result.upd_info f) st.
Definition upd_work {K} f (st : t K) := set_work (f (work st)) st.
Definition info {K} (st : t K) := Result.info (result st).
End Solver.

(** The eight blocks of a KKT right-hand side or solution. *)
Record KKTVecs := mkKKTVecs {
  kx : vec; ky : vec; kz : vec; kz_lb : vec; kz_ub : vec;
  ks : vec; ks_lb : vec; ks_ub : vec }.

(** The preconditioner interface used by the driver ([RuizEquilibration]). *)
Class Preconditioner := {
  scale_data : Data.t -> Data.t;
  unscale_primal : vec -> vec;
  unscale_dual_eq : vec -> vec;
  unscale_dual_ineq : vec -> vec;
  unscale_dual_lb : vec -> vec;
  unscale_dual_ub : vec -> vec;
  unscale_slack_ineq : vec -> vec;
  unscale_slack_lb : vec -> vec;
  unscale_slack_ub : vec -> vec;
  unscale_primal_res_eq : vec -> vec;
  unscale_primal_res_ineq : vec -> vec;
  unscale_primal_res_lb : vec -> vec;
  unscale_primal_res_ub : vec -> vec;
  unscale_dual_res : vec -> vec;
  unscale_cost : Q -> Q }.

(** The KKT operator interface ([dense::KKT] / [sparse::KKT]); it holds a
    reference to the data, passed explicitly here. *)
Class KKT (K : Type) := {
  kkt_init : Data.t -> Q -> Q -> K;
  kkt_update_scalings : Q -> Q -> vec -> vec -> vec -> vec -> vec -> vec -> K -> K;
  kkt_factorize : Data.t -> K -> K * bool;
  kkt_solve : Data.t -> K -> KKTVecs -> KKTVecs }.

(** ** Setup of the compressed box bounds *)

Definition lb_finite (v : Q) : bool := Qltb (- PIQP_INF) v.
Definition ub_finite (v : Q) : bool := Qltb v PIQP_INF.

(** The loop of [setup_lb_data] / [setup_ub_data]: the state is
    [(n_lb, i_lb, x_lb_n, x_lb_idx)]; [neg] tells whether the bound is
    stored negated. *)
Definition setup_box_loop (fin : Q -> bool) (neg : bool) (xb : vec) (n : nat)
    (vals : vec) (idx : list nat) : nat * nat * vec * list nat :=
  fold_left (fun '(cnt, i_b, vals, idx) i =>
      if fin (vget xb i)
      then (S cnt, S i_b,
            vset vals i_b (if neg then - vget xb i else vget xb i),
            vset idx i_b i)
      else (cnt, i_b, vals, idx))
    (seq 0 n) (0%nat, 0%nat, vals, idx).

Definition setup_lb_data (x_lb : option vec) (d : Data.t) : Data.t :=
  let '(n_lb, _, vals, idx) :=
    match x_lb with
    | Some xl => setup_box_loop lb_finite true xl (Data.n d) (Data.x_lb_n d) (Data.x_lb_idx d)
    | None => (0%nat, 0%nat, Data.x_lb_n d, Data.x_lb_idx d)
    end in
  Data.mk (Data.n d) (Data.p d) (Data.m d) (Data.P_utri d) (Data.AT d) (Data.GT d)
    (Data.c d) (Data.b d) (Data.h d) n_lb (Data.n_ub d) vals (Data.x_ub d)
    idx (Data.x_ub_idx d).

Definition setup_ub_data (x_ub : option vec) (d : Data.t) : Data.t :=
  let '(n_ub, _, vals, idx) :=
    match x_ub with
    | Some xu => setup_box_loop ub_finite false xu (Data.n d) (Data.x_ub d) (Data.x_ub_idx d)
    | None => (0%nat, 0%nat, Data.x_ub d, Data.x_ub_idx d)
    end in
  Data.mk (Data.n d) (Data.p d) (Data.m d) (Data.P_utri d) (Data.AT d) (Data.GT d)
    (Data.c d) (Data.b d) (Data.h d) (Data.n_lb d) n_ub (Data.x_lb_n d) vals
    (Data.x_lb_idx d) idx.

Section Precond.
Context `{PC : Preconditioner}.

(** ** [update_nr_residuals] *)

(** [dx.setZero(); for (i < k) dx(idx(i)) = f(i);] *)
Definition scatter (k : nat) (idx : list nat) (f : nat -> Q) (v : vec) : vec :=
  fold_left (fun acc i => vset acc (nth i idx 0%nat) (f i)) (seq 0 k) (vconst v 0).

(** [for (i < k) v(i) = f(i);] *)
Definition fill_head (k : nat) (f : nat -> Q) (v : vec) : vec :=
  fold_left (fun acc i => vset acc i (f i)) (seq 0 k) v.

Definition update_nr_residuals (d : Data.t) (r : Result.t) (w : Work.t) : Work.t :=
  let x := Result.x r in
  let U := Data.P_utri d in
  let rx_nr1 := vopp (mat_vec U x) in
  let rx_nr2 := vsub rx_nr1 (mat_vec (mstrict_lower (mtranspose U)) x) in
  let dri1 := inf_norm (unscale_dual_res rx_nr2) in
  let rx_nr3 := vsub rx_nr2 (Data.c d) in
  let dx1 := mat_vec (Data.AT d) (Result.y r) in
  let dri2 := std_max dri1 (inf_norm (unscale_dual_res dx1)) in
  let rx_nr4 := vsub rx_nr3 dx1 in
  let dx2 := mat_vec (Data.GT d) (Result.z r) in
  let dri3 := std_max dri2 (inf_norm (unscale_dual_res dx2)) in
  let rx_nr5 := vsub rx_nr4 dx2 in
  let dx3 := scatter (Data.n_lb d) (Data.x_lb_idx d) (fun i => - vget (Result.z_lb r) i) dx2 in
  let dri4 := std_max dri3 (inf_norm (unscale_dual_res dx3)) in
  let rx_nr6 := vsub rx_nr5 dx3 in
  let dx4 := scatter (Data.n_ub d) (Data.x_ub_idx d) (fun i => vget (Result.z_ub r) i) dx3 in
  let dri5 := std_max dri4 (inf_norm (unscale_dual_res dx4)) in
  let rx_nr7 := vsub rx_nr6 dx4 in
  let ry_nr1 := vopp (mat_vec (mtranspose (Data.AT d)) x) in
  let pri1 := inf_norm (unscale_primal_res_eq ry_nr1) in
  let ry_nr2 := vadd ry_nr1 (Data.b d) in
  let pri2 := std_max pri1 (inf_norm (unscale_primal_res_eq (Data.b d))) in
  let rz_nr1 := vopp (mat_vec (mtranspose (Data.GT d)) x) in
  let pri3 := std_max pri2 (inf_norm (unscale_primal_res_ineq rz_nr1)) in
  let rz_nr2 := vadd rz_nr1 (vsub (Data.h d) (Result.s r)) in
  let pri4 := std_max pri3 (inf_norm (unscale_primal_res_ineq (Data.h d))) in
  let rz_lb_nr' := fill_head (Data.n_lb d)
      (fun i => vget x (nth i (Data.x_lb_idx d) 0%nat) + vget (Data.x_lb_n d) i
                - vget (Result.s_lb r) i) (Work.rz_lb_nr w) in
  let pri5 := std_max pri4 (inf_norm (unscale_primal_res_lb (vhead (Data.n_lb d) rz_lb_nr'))) in
  let pri6 := std_max pri5 (inf_norm (unscale_primal_res_lb (vhead (Data.n_lb d) (Data.x_lb_n d)))) in
  let rz_ub_nr' := fill_head (Data.n_ub d)
      (fun i => - vget x (nth i (Data.x_ub_idx d) 0%nat) + vget (Data.x_ub d) i
                - vget (Result.s_ub r) i) (Work.rz_ub_nr w) in
  let pri7 := std_max pri6 (inf_norm (unscale_primal_res_ub (vhead (Data.n_ub d) rz_ub_nr'))) in
  let pri8 := std_max pri7 (inf_norm (unscale_primal_res_ub (vhead (Data.n_ub d) (Data.x_ub d)))) in
  Work.mk (Work.rx w) (Work.ry w) (Work.rz w) (Work.rz_lb w) (Work.rz_ub w)
    (Work.rs w) (Work.rs_lb w) (Work.rs_ub w)
    rx_nr7 ry_nr2 rz_nr2 rz_lb_nr' rz_ub_nr'
    dx4 (Work.dy w) (Work.dz w) (Work.dz_lb w) (Work.dz_ub w)
    (Work.ds w) (Work.ds_lb w) (Work.ds_ub w)
    pri8 dri5.

(** ** [unscale_results] and [restore_box_dual] *)

Definition unscale_results (d : Data.t) (r : Result.t) : Result.t :=
  let n_lb := Data.n_lb d in
  let n_ub := Data.n_ub d in
  Result.mk
    (unscale_primal (Result.x r))
    (unscale_dual_eq (Result.y r))
    (unscale_dual_ineq (Result.z r))
    (vset_head n_lb (Result.z_lb r) (unscale_dual_lb (vhead n_lb (Result.z_lb r))))
    (vset_head n_ub (Result.z_ub r) (unscale_dual_ub (vhead n_ub (Result.z_ub r))))
    (unscale_slack_ineq (Result.s r))
    (vset_head n_lb (Result.s_lb r) (unscale_slack_lb (vhead n_lb (Result.s_lb r))))
    (vset_head n_ub (Result.s_ub r) (unscale_slack_ub (vhead n_ub (Result.s_ub r))))
    (unscale_primal (Result.zeta r))
    (unscale_dual_eq (Result.lambda r))
    (unscale_dual_ineq (Result.nu r))
    (vset_head n_lb (Result.nu_lb r) (unscale_dual_lb (vhead n_lb (Result.nu_lb r))))
    (vset_head n_ub (Result.nu_ub r) (unscale_dual_ub (vhead n_ub (Result.nu_ub r))))
    (Result.info r).

End Precond.

(** [for (i = k - 1; i >= 0; i--) std::swap(v(i), v(idx(i)));] *)
Definition swap_back {A} (dflt : A) (k : nat) (idx : list nat) (v : list A) : list A :=
  fold_left (fun acc i => vswap dflt acc i (nth i idx 0%nat)) (rev (seq 0 k)) v.

(** [restore_box_dual]; [t_infinity] stands for
    [std::numeric_limits<T>::infinity()], which is only copied, never
    computed with.  The C++ loops swap the three (disjoint) vectors of one
    side in the same loop; doing them one after the other is the same. *)
Definition restore_box_dual (t_infinity : Q) (d : Data.t) (r : Result.t) : Result.t :=
  let n_lb := Data.n_lb d in
  let n_ub := Data.n_ub d in
  Result.mk (Result.x r) (Result.y r) (Result.z r)
    (swap_back 0 n_lb (Data.x_lb_idx d) (vfill_tail n_lb 0 (Result.z_lb r)))
    (swap_back 0 n_ub (Data.x_ub_idx d) (vfill_tail n_ub 0 (Result.z_ub r)))
    (Result.s r)
    (swap_back 0 n_lb (Data.x_lb_idx d) (vfill_tail n_lb t_infinity (Result.s_lb r)))
    (swap_back 0 n_ub (Data.x_ub_idx d) (vfill_tail n_ub t_infinity (Result.s_ub r)))
    (Result.zeta r) (Result.lambda r) (Result.nu r)
    (swap_back 0 n_lb (Data.x_lb_idx d) (vfill_tail n_lb 0 (Result.nu_lb r)))
    (swap_back 0 n_ub (Data.x_ub_idx d) (vfill_tail n_ub 0 (Result.nu_ub r)))
    (Result.info r).

(** The outcome of a block of the driver: [return status] or fall through. *)
Inductive Outcome (K : Type) :=
| Ret : Status -> Solver.t K -> Outcome K
| Cont : Solver.t K -> Outcome K.
Arguments Ret {K}. Arguments Cont {K}.

(** [v.head(k)] updated entrywise by [f]. *)
Definition vupd_head (k : nat) (v : vec) (f : nat -> Q) : vec :=
  vinit (length v) (fun i => if (i <? k)%nat then f i else vget v i).

(** [m + n_lb + n_ub] *)
Definition n_ineq (d : Data.t) : nat := (Data.m d + Data.n_lb d + Data.n_ub d)%nat.

Section Driver.
Context {K : Type} `{KK : KKT K} `{PC : Preconditioner}.
(** [Settings::verify_settings()] (settings.hpp, not part of the driver). *)
Variable verify_settings : Settings.t -> bool.
Variable t_infinity : Q.


(** ** Setup ([setup_impl], [init_workspace]) *)

(** [v.resize(k)]: nothing changes when [v] already has [k] entries;
    otherwise the entries are uninitialised, modelled as [dflt]. *)
Definition vresize {A} (dflt : A) (k : nat) (v : list A) : list A :=
  if Nat.eqb (length v) k then v else repeat dflt k.

(** [init_workspace] (lines 252-301) on the result [r] and the work
    vectors [w] the solver holds: every vector is resized, [rho] and
    [delta] are set from the settings, the rest of the info block is kept
    (the four timing fields it zeroes are not modelled). *)
Definition init_workspace (set : Settings.t) (d : Data.t) (r : Result.t) (w : Work.t) : Result.t * Work.t :=
  let n := Data.n d in let p := Data.p d in let m := Data.m d in
  (Result.mk (vresize 0 n (Result.x r)) (vresize 0 p (Result.y r)) (vresize 0 m (Result.z r))
     (vresize 0 n (Result.z_lb r)) (vresize 0 n (Result.z_ub r)) (vresize 0 m (Result.s r))
     (vresize 0 n (Result.s_lb r)) (vresize 0 n (Result.s_ub r))
     (vresize 0 n (Result.zeta r)) (vresize 0 p (Result.lambda r)) (vresize 0 m (Result.nu r))
     (vresize 0 n (Result.nu_lb r)) (vresize 0 n (Result.nu_ub r))
     (Info.set_delta (Settings.delta_init set) (Info.set_rho (Settings.rho_init set) (Result.info r))),
   Work.mk (vresize 0 n (Work.rx w)) (vresize 0 p (Work.ry w)) (vresize 0 m (Work.rz w))
     (vresize 0 n (Work.rz_lb w)) (vresize 0 n (Work.rz_ub w)) (vresize 0 m (Work.rs w))
     (vresize 0 n (Work.rs_lb w)) (vresize 0 n (Work.rs_ub w)) (vresize 0 n (Work.rx_nr w))
     (vresize 0 p (Work.ry_nr w)) (vresize 0 m (Work.rz_nr w)) (vresize 0 n (Work.rz_lb_nr w))
     (vresize 0 n (Work.rz_ub_nr w)) (vresize 0 n (Work.dx w)) (vresize 0 p (Work.dy w))
     (vresize 0 m (Work.dz w)) (vresize 0 n (Work.dz_lb w)) (vresize 0 n (Work.dz_ub w))
     (vresize 0 m (Work.ds w)) (vresize 0 n (Work.ds_lb w)) (vresize 0 n (Work.ds_ub w))
     (Work.primal_rel_inf w) (Work.dual_rel_inf w)).

(** [setup_impl] (lines 152-210) on the solver [st]: the data are replaced,
    the bound vectors resized and refilled by [setup_lb_data] /
    [setup_ub_data], the workspace resized by [init_workspace], the data
    scaled and the KKT system initialised with [rho] and [delta]. *)
Definition setup_impl (st : Solver.t K) (P : Mat) (c : vec) (A : Mat) (b : vec)
    (G : Mat) (h : vec) (x_lb x_ub : option vec) : Solver.t K :=
  let set := Solver.settings st in
  let dp := Solver.data st in
  let n := mrows P in
  let d0 := Data.mk n (mrows A) (mrows G) (mupper P) (mtranspose A) (mtranspose G)
              c b h (Data.n_lb dp) (Data.n_ub dp)
              (vresize 0 n (Data.x_lb_n dp)) (vresize 0 n (Data.x_ub dp))
              (vresize 0%nat n (Data.x_lb_idx dp)) (vresize 0%nat n (Data.x_ub_idx dp)) in
  let d1 := setup_ub_data x_ub (setup_lb_data x_lb d0) in
  let '(r, w) := init_workspace set d1 (Solver.result st) (Solver.work st) in
  let d2 := scale_data d1 in
  Solver.mk set d2 r w (kkt_init d2 (Info.rho (Result.info r)) (Info.delta (Result.info r))) true true.

(** ** The first part of [solve_impl] (lines 312-429) *)

Definition reset_info (set : Settings.t) (i : Info.t) : Info.t :=
  Info.mk PIQP_UNSOLVED 0 (Info.rho i) (Info.delta i) 0 (Info.sigma i) 0 0
    (Info.primal_inf i) (Info.dual_inf i) (Settings.reg_lower_limit set) 0 0 0.

(** [v.head(k).setConstant(a)] *)
Definition vconst_head (k : nat) (v : vec) (a : Q) : vec := vupd_head k v (fun _ => a).

Definition init_scalings (st : Solver.t K) : Solver.t K :=
  if Solver.kkt_init_state st then st else
  let set := Solver.settings st in
  let d := Solver.data st in
  let r := Solver.result st in
  let i := Info.set_delta (Settings.delta_init set) (Info.set_rho (Settings.rho_init set) (Result.info r)) in
  let r1 := Result.mk (Result.x r) (Result.y r)
              (vconst (Result.z r) 1) (vconst_head (Data.n_lb d) (Result.z_lb r) 1)
              (vconst_head (Data.n_ub d) (Result.z_ub r) 1)
              (vconst (Result.s r) 1) (vconst_head (Data.n_lb d) (Result.s_lb r) 1)
              (vconst_head (Data.n_ub d) (Result.s_ub r) 1)
              (Result.zeta r) (Result.lambda r) (Result.nu r) (Result.nu_lb r) (Result.nu_ub r) i in
  let k := kkt_update_scalings (Info.rho i) (Info.delta i)
             (Result.s r1) (Result.s_lb r1) (Result.s_ub r1)
             (Result.z r1) (Result.z_lb r1) (Result.z_ub r1) (Solver.kkt st) in
  Solver.set_kkt k (Solver.set_result r1 st).

(** The body of a factorisation retry; [in_main_loop] adds [iter--]. *)
Definition retry_info (in_main_loop : bool) (set : Settings.t) (i : Info.t) : Info.t :=
  let i1 := Info.set_rho (Info.rho i * 100) (Info.set_delta (Info.delta i * 100) i) in
  let i2 := if in_main_loop then Info.set_iter (Info.iter i1 - 1)%Z i1 else i1 in
  let i3 := Info.set_factor_retires (Info.factor_retires i2 + 1)%Z i2 in
  Info.set_reg_limit (std_min (10 * Info.reg_limit i3) (Settings.feas_tol_abs set)) i3.

(** [while (!m_kkt.factorize()) { ... }] (lines 351-365) *)
Fixpoint init_factorize (fuel : nat) (st : Solver.t K) : option (Outcome K) :=
  match fuel with
  | O => None
  | S f =>
      let '(k, ok) := kkt_factorize (Solver.data st) (Solver.kkt st) in
      let st1 := Solver.set_kkt k st in
      if ok then Some (Cont st1)
      else if (Info.factor_retires (Solver.info st1) <? Settings.max_factor_retires (Solver.settings st1))%Z
      then init_factorize f (Solver.upd_info (retry_info false (Solver.settings st1)) st1)
      else Some (Ret PIQP_NUMERICS (Solver.upd_info (Info.set_status PIQP_NUMERICS) st1))
  end.

(** Lines 368-382: the initial Newton solve. *)
Definition init_newton (st : Solver.t K) : Solver.t K :=
  let d := Solver.data st in
  let w := Solver.work st in
  let r := Solver.result st in
  let rx := vopp (Data.c d) in
  let rs := vconst (Work.rs w) 0 in
  let rs_lb := vconst (Work.rs_lb w) 0 in
  let rs_ub := vconst (Work.rs_ub w) 0 in
  let o := kkt_solve d (Solver.kkt st)
             (mkKKTVecs rx (Data.b d) (Data.h d) (Data.x_lb_n d) (Data.x_ub d) rs rs_lb rs_ub) in
  let r1 := Result.mk (kx o) (ky o) (kz o) (kz_lb o) (kz_ub o) (ks o) (ks_lb o) (ks_ub o)
              (Result.zeta r) (Result.lambda r) (Result.nu r) (Result.nu_lb r) (Result.nu_ub r)
              (Result.info r) in
  Solver.set_result r1 (Solver.set_work (Work.set_rs rs rs_lb rs_ub (Work.set_rx rx w)) st).

Definition slack_norm (d : Data.t) (r : Result.t) : Q :=
  std_max (std_max (std_max 0 (inf_norm (Result.s r)))
                   (inf_norm (vhead (Data.n_lb d) (Result.s_lb r))))
          (inf_norm (vhead (Data.n_ub d) (Result.s_ub r))).

(** Lines 386-399. *)
Definition init_reset (st : Solver.t K) : Solver.t K :=
  let d := Solver.data st in
  let r := Solver.result st in
  if Qle_bool (slack_norm d r) Q_1em4 then
    let a := 1 # 10 in
    Solver.set_result
      (Result.mk (Result.x r) (Result.y r)
         (vconst (Result.z r) a) (vconst_head (Data.n_lb d) (Result.z_lb r) a)
         (vconst_head (Data.n_ub d) (Result.z_ub r) a)
         (vconst (Result.s r) a) (vconst_head (Data.n_lb d) (Result.s_lb r) a)
         (vconst_head (Data.n_ub d) (Result.s_ub r) a)
         (Result.zeta r) (Result.lambda r) (Result.nu r) (Result.nu_lb r) (Result.nu_ub r)
         (Result.info r)) st
  else st.

(** [(s.dot(z) + s_lb.dot(z_lb) + s_ub.dot(z_ub)) / (m + n_lb + n_ub)] *)
Definition complementarity (d : Data.t) (r : Result.t) : Q :=
  (vdot (Result.s r) (Result.z r)
   + vdot (vhead (Data.n_lb d) (Result.s_lb r)) (vhead (Data.n_lb d) (Result.z_lb r))
   + vdot (vhead (Data.n_ub d) (Result.s_ub r)) (vhead (Data.n_ub d) (Result.z_ub r)))
  / inject_Z (Z.of_nat (n_ineq d)).

(** Lines 401-422: the Mehrotra shift of the initial slacks and duals. *)
Definition init_bias (st : Solver.t K) : Solver.t K :=
  let d := Solver.data st in
  let r := Solver.result st in
  let m := Data.m d in let n_lb := Data.n_lb d in let n_ub := Data.n_ub d in
  let s := Result.s r in let z := Result.z r in
  let s_lb := vhead n_lb (Result.s_lb r) in let s_ub := vhead n_ub (Result.s_ub r) in
  let z_lb := vhead n_lb (Result.z_lb r) in let z_ub := vhead n_ub (Result.z_ub r) in
  let ds0 := 0 in
  let ds1 := if (0 <? m)%nat then std_max ds0 (- (3 # 2) * min_coeff s) else ds0 in
  let ds2 := if (0 <? n_lb)%nat then std_max ds1 (- (3 # 2) * min_coeff s_lb) else ds1 in
  let delta_s := if (0 <? n_ub)%nat then std_max ds2 (- (3 # 2) * min_coeff s_ub) else ds2 in
  let dz0 := 0 in
  let dz1 := if (0 <? m)%nat then std_max dz0 (- (3 # 2) * min_coeff z) else dz0 in
  let dz2 := if (0 <? n_lb)%nat then std_max dz1 (- (3 # 2) * min_coeff z_lb) else dz1 in
  let delta_z := if (0 <? n_ub)%nat then std_max dz2 (- (3 # 2) * min_coeff z_ub) else dz2 in
  let tmp_prod := vdot (vshift s delta_s) (vshift z delta_z)
                  + vdot (vshift s_lb delta_s) (vshift z_lb delta_z)
                  + vdot (vshift s_ub delta_s) (vshift z_ub delta_z) in
  let N := inject_Z (Z.of_nat (n_ineq d)) in
  let delta_s_bar := delta_s + ((1 # 2) * tmp_prod) / (vsum z + vsum z_lb + vsum z_ub + N * delta_z) in
  let delta_z_bar := delta_z + ((1 # 2) * tmp_prod) / (vsum s + vsum s_lb + vsum s_ub + N * delta_s) in
  let r1 := Result.mk (Result.x r) (Result.y r)
              (vshift z delta_z_bar)
              (vupd_head n_lb (Result.z_lb r) (fun i => vget (Result.z_lb r) i + delta_z_bar))
              (vupd_head n_ub (Result.z_ub r) (fun i => vget (Result.z_ub r) i + delta_z_bar))
              (vshift s delta_s_bar)
              (vupd_head n_lb (Result.s_lb r) (fun i => vget (Result.s_lb r) i + delta_s_bar))
              (vupd_head n_ub (Result.s_ub r) (fun i => vget (Result.s_ub r) i + delta_s_bar))
              (Result.zeta r) (Result.lambda r) (Result.nu r) (Result.nu_lb r) (Result.nu_ub r)
              (Result.info r) in
  Solver.set_result (Result.upd_info (Info.set_mu (complementarity d r1)) r1) st.

(** Lines 425-429. *)
Definition init_prox (st : Solver.t K) : Solver.t K :=
  let d := Solver.data st in
  let r := Solver.result st in
  Solver.set_result
    (Result.set_nu_ub (vupd_head (Data.n_ub d) (Result.nu_ub r) (vget (Result.z_ub r)))
    (Result.set_nu_lb (vupd_head (Data.n_lb d) (Result.nu_lb r) (vget (Result.z_lb r)))
    (Result.set_nu (Result.z r) (Result.set_lambda (Result.y r) (Result.set_zeta (Result.x r) r))))) st.

(** Everything of [solve_impl] before the [while] loop. *)
Definition solve_init (fuel : nat) (st : Solver.t K) : option (Outcome K) :=
  if negb (Solver.setup_done st) then
    Some (Ret PIQP_UNSOLVED (Solver.upd_info (Info.set_status PIQP_UNSOLVED) st))
  else if negb (verify_settings (Solver.settings st)) then
    Some (Ret PIQP_INVALID_SETTINGS (Solver.upd_info (Info.set_status PIQP_INVALID_SETTINGS) st))
  else
    let st1 := init_scalings (Solver.upd_info (reset_info (Solver.settings st)) st) in
    match init_factorize fuel st1 with
    | None => None
    | Some (Ret s st2) => Some (Ret s st2)
    | Some (Cont st2) =>
        let st3 := init_newton (Solver.upd_info (Info.set_factor_retires 0) st2) in
        let st4 := if (0 <? n_ineq (Solver.data st3))%nat then init_bias (init_reset st3) else st3 in
        Some (Cont (init_prox st4))
    end.

(** ** One pass of the outer [while] loop (lines 433-730) *)

(** The full [P x] from its stored upper triangle (lines 447-448, 739-740). *)
Definition P_times (d : Data.t) (x : vec) : vec :=
  vadd (mat_vec (Data.P_utri d) x) (mat_vec (mstrict_lower (mtranspose (Data.P_utri d))) x).

Definition primal_inf_of (d : Data.t) (w : Work.t) : Q :=
  std_max (std_max (std_max
    (inf_norm (unscale_primal_res_eq (Work.ry_nr w)))
    (inf_norm (unscale_primal_res_ineq (Work.rz_nr w))))
    (inf_norm (unscale_primal_res_lb (vhead (Data.n_lb d) (Work.rz_lb_nr w)))))
    (inf_norm (unscale_primal_res_ub (vhead (Data.n_ub d) (Work.rz_ub_nr w)))).

Definition dual_inf_of (w : Work.t) : Q := inf_norm (unscale_dual_res (Work.rx_nr w)).

(** Lines 433-470. *)
Definition pass_top (st : Solver.t K) : Solver.t K :=
  let st1 := if (Info.iter (Solver.info st) =? 0)%Z
             then Solver.upd_work (update_nr_residuals (Solver.data st) (Solver.result st)) st
             else st in
  let d := Solver.data st1 in
  let st2 := Solver.upd_info (fun i => Info.set_dual_inf (dual_inf_of (Solver.work st1))
                                        (Info.set_primal_inf (primal_inf_of d (Solver.work st1)) i)) st1 in
  if Settings.verbose (Solver.settings st2)
  then Solver.upd_work (Work.set_rx (P_times d (Result.x (Solver.result st2)))) st2
  else st2.

(** The test of lines 472-474. *)
Definition converged (st : Solver.t K) : bool :=
  let i := Solver.info st in
  let set := Solver.settings st in
  let w := Solver.work st in
  Qltb (Info.primal_inf i) (Settings.feas_tol_abs set + Settings.feas_tol_rel set * Work.primal_rel_inf w)
  && Qltb (Info.dual_inf i) (Settings.feas_tol_abs set + Settings.feas_tol_rel set * Work.dual_rel_inf w)
  && Qltb (Info.mu i) (Settings.dual_tol set).

(** Lines 480-484: the regularised residuals. *)
Definition regularize (st : Solver.t K) : Solver.t K :=
  let d := Solver.data st in let r := Solver.result st in let w := Solver.work st in
  let i := Result.info r in
  let n_lb := Data.n_lb d in let n_ub := Data.n_ub d in
  Solver.set_work
    (Work.set_reg
       (vsub (Work.rx_nr w) (vscale (Info.rho i) (vsub (Result.x r) (Result.zeta r))))
       (vsub (Work.ry_nr w) (vscale (Info.delta i) (vsub (Result.lambda r) (Result.y r))))
       (vsub (Work.rz_nr w) (vscale (Info.delta i) (vsub (Result.nu r) (Result.z r))))
       (vset_head n_lb (Work.rz_lb w)
          (vsub (vhead n_lb (Work.rz_lb_nr w))
                (vscale (Info.delta i) (vsub (vhead n_lb (Result.nu_lb r)) (vhead n_lb (Result.z_lb r))))))
       (vset_head n_ub (Work.rz_ub w)
          (vsub (vhead n_ub (Work.rz_ub_nr w))
                (vscale (Info.delta i) (vsub (vhead n_ub (Result.nu_ub r)) (vhead n_ub (Result.z_ub r))))))
       w) st.

(** [dual_prox_inf_norm] (lines 486-489). *)
Definition dual_prox_inf_norm (d : Data.t) (r : Result.t) : Q :=
  let n_lb := Data.n_lb d in let n_ub := Data.n_ub d in
  std_max (std_max (std_max
    (inf_norm (unscale_dual_eq (vsub (Result.lambda r) (Result.y r))))
    (inf_norm (unscale_dual_ineq (vsub (Result.nu r) (Result.z r)))))
    (inf_norm (unscale_dual_lb (vsub (vhead n_lb (Result.nu_lb r)) (vhead n_lb (Result.z_lb r))))))
    (inf_norm (unscale_dual_ub (vsub (vhead n_ub (Result.nu_ub r)) (vhead n_ub (Result.z_ub r))))).

(** [dual_inf_norm] (lines 491-494). *)
Definition dual_inf_norm (d : Data.t) (w : Work.t) : Q :=
  std_max (std_max (std_max
    (inf_norm (unscale_primal_res_eq (Work.ry w)))
    (inf_norm (unscale_primal_res_ineq (Work.rz w))))
    (inf_norm (unscale_primal_res_lb (vhead (Data.n_lb d) (Work.rz_lb w)))))
    (inf_norm (unscale_primal_res_ub (vhead (Data.n_ub d) (Work.rz_ub w)))).

Definition primal_infeasible (st : Solver.t K) : bool :=
  (5 <? Info.no_dual_update (Solver.info st))%Z
  && Qltb Q_1e10 (dual_prox_inf_norm (Solver.data st) (Solver.result st))
  && Qltb (dual_inf_norm (Solver.data st) (Solver.work st)) (Settings.feas_tol_abs (Solver.settings st)).

Definition dual_infeasible (st : Solver.t K) : bool :=
  let r := Solver.result st in
  (5 <? Info.no_primal_update (Solver.info st))%Z
  && Qltb Q_1e10 (inf_norm (unscale_primal (vsub (Result.x r) (Result.zeta r))))
  && Qltb (inf_norm (unscale_dual_res (Work.rx (Solver.work st)))) (Settings.feas_tol_abs (Solver.settings st)).

(** Lines 510-519. *)
Definition bump_iter (i : Info.t) : Info.t :=
  let i1 := Info.set_iter (Info.iter i + 1)%Z i in
  if ((5 <? Info.no_primal_update i1)%Z && Qeq_bool (Info.rho i1) (Info.reg_limit i1)
        && negb (Qeq_bool (Info.reg_limit i1) Q_1em13))
     || ((5 <? Info.no_dual_update i1)%Z && Qeq_bool (Info.delta i1) (Info.reg_limit i1)
        && negb (Qeq_bool (Info.reg_limit i1) Q_1em13))
  then Info.set_no_dual_update 0 (Info.set_no_primal_update 0 (Info.set_reg_limit Q_1em13 i1))
  else i1.

(** Lines 521-524. *)
Definition stage_scalings (st : Solver.t K) : Solver.t K :=
  let r := Solver.result st in
  let i := Result.info r in
  Solver.set_kkt_init_state false
    (Solver.set_kkt (kkt_update_scalings (Info.rho i) (Info.delta i)
                       (Result.s r) (Result.s_lb r) (Result.s_ub r)
                       (Result.z r) (Result.z_lb r) (Result.z_ub r) (Solver.kkt st)) st).

(** Everything of a pass up to the factorisation (lines 433-524). *)
Definition pass_head (st : Solver.t K) : Outcome K :=
  let st1 := pass_top st in
  if converged st1 then Ret PIQP_SOLVED (Solver.upd_info (Info.set_status PIQP_SOLVED) st1) else
  let st2 := regularize st1 in
  if primal_infeasible st2
  then Ret PIQP_PRIMAL_INFEASIBLE (Solver.upd_info (Info.set_status PIQP_PRIMAL_INFEASIBLE) st2) else
  if dual_infeasible st2
  then Ret PIQP_DUAL_INFEASIBLE (Solver.upd_info (Info.set_status PIQP_DUAL_INFEASIBLE) st2) else
  Cont (stage_scalings (Solver.upd_info bump_iter st2)).

(** The step-to-boundary loops over one block (lines 558-590 / 612-644):
    the state is [(alpha_s, alpha_z)]. *)
Definition alpha_loop (k : nat) (s ds z dz : vec) (a : Q * Q) : Q * Q :=
  fold_left (fun '(a_s, a_z) i =>
      (if Qltb (vget ds i) 0 then std_min a_s (- vget s i / vget ds i) else a_s,
       if Qltb (vget dz i) 0 then std_min a_z (- vget z i / vget dz i) else a_z))
    (seq 0 k) a.

Definition step_lengths (d : Data.t) (r : Result.t) (o : KKTVecs) : Q * Q :=
  alpha_loop (Data.n_ub d) (Result.s_ub r) (ks_ub o) (Result.z_ub r) (kz_ub o)
    (alpha_loop (Data.n_lb d) (Result.s_lb r) (ks_lb o) (Result.z_lb r) (kz_lb o)
      (alpha_loop (Data.m d) (Result.s r) (ks o) (Result.z r) (kz o) (1, 1))).

Definition work_dirs (o : KKTVecs) (w : Work.t) : Work.t :=
  Work.set_dirs (kx o) (ky o) (kz o) (kz_lb o) (kz_ub o) (ks o) (ks_lb o) (ks_ub o) w.

Definition work_rhs (w : Work.t) : KKTVecs :=
  mkKKTVecs (Work.rx w) (Work.ry w) (Work.rz w) (Work.rz_lb w) (Work.rz_ub w)
    (Work.rs w) (Work.rs_lb w) (Work.rs_ub w).

(** Lines 648-657: the iterate update. *)
Definition update_iterate (d : Data.t) (ps dst : Q) (o : KKTVecs) (r : Result.t) : Result.t :=
  let n_lb := Data.n_lb d in let n_ub := Data.n_ub d in
  Result.mk
    (vadd (Result.x r) (vscale ps (kx o)))
    (vadd (Result.y r) (vscale dst (ky o)))
    (vadd (Result.z r) (vscale dst (kz o)))
    (vupd_head n_lb (Result.z_lb r) (fun i => vget (Result.z_lb r) i + dst * vget (kz_lb o) i))
    (vupd_head n_ub (Result.z_ub r) (fun i => vget (Result.z_ub r) i + dst * vget (kz_ub o) i))
    (vadd (Result.s r) (vscale ps (ks o)))
    (vupd_head n_lb (Result.s_lb r) (fun i => vget (Result.s_lb r) i + ps * vget (ks_lb o) i))
    (vupd_head n_ub (Result.s_ub r) (fun i => vget (Result.s_ub r) i + ps * vget (ks_ub o) i))
    (Result.zeta r) (Result.lambda r) (Result.nu r) (Result.nu_lb r) (Result.nu_ub r)
    (Result.info r).

(** [lambda = y; nu = z; nu_lb = z_lb; nu_ub = z_ub;] *)
Definition move_dual_centre (d : Data.t) (r : Result.t) : Result.t :=
  Result.set_nu_ub (vupd_head (Data.n_ub d) (Result.nu_ub r) (vget (Result.z_ub r)))
    (Result.set_nu_lb (vupd_head (Data.n_lb d) (Result.nu_lb r) (vget (Result.z_lb r)))
       (Result.set_nu (Result.z r) (Result.set_lambda (Result.y r) r))).

(** Lines 545-694: predictor, corrector, update, regularisation update. *)
Definition ipm_step (st : Solver.t K) : Solver.t K :=
  let set := Solver.settings st in
  let d := Solver.data st in let r := Solver.result st in let w := Solver.work st in
  let n_lb := Data.n_lb d in let n_ub := Data.n_ub d in
  let N := inject_Z (Z.of_nat (n_ineq d)) in
  let i0 := Result.info r in
  (* predictor *)
  let rs1 := vinit (length (Result.s r)) (fun i => - vget (Result.s r) i * vget (Result.z r) i) in
  let rs_lb1 := vupd_head n_lb (Work.rs_lb w) (fun i => - vget (Result.s_lb r) i * vget (Result.z_lb r) i) in
  let rs_ub1 := vupd_head n_ub (Work.rs_ub w) (fun i => - vget (Result.s_ub r) i * vget (Result.z_ub r) i) in
  let w1 := Work.set_rs rs1 rs_lb1 rs_ub1 w in
  let o1 := kkt_solve d (Solver.kkt st) (work_rhs w1) in
  let '(a_s0, a_z0) := step_lengths d r o1 in
  let a_s := a_s0 * Settings.tau set in
  let a_z := a_z0 * Settings.tau set in
  let sg0 := vdot (vadd (Result.s r) (vscale a_s (ks o1))) (vadd (Result.z r) (vscale a_z (kz o1)))
    + vdot (vadd (vhead n_lb (Result.s_lb r)) (vscale a_s (vhead n_lb (ks_lb o1))))
           (vadd (vhead n_lb (Result.z_lb r)) (vscale a_z (vhead n_lb (kz_lb o1))))
    + vdot (vadd (vhead n_ub (Result.s_ub r)) (vscale a_s (vhead n_ub (ks_ub o1))))
           (vadd (vhead n_ub (Result.z_ub r)) (vscale a_z (vhead n_ub (kz_ub o1)))) in
  let sg1 := sg0 / (Info.mu i0 * N) in
  let sigma := sg1 * sg1 * sg1 in
  let smu := sigma * Info.mu i0 in
  (* corrector *)
  let rs2 := vinit (length rs1) (fun i => vget rs1 i + (- vget (ks o1) i * vget (kz o1) i + smu)) in
  let rs_lb2 := vupd_head n_lb rs_lb1 (fun i => vget rs_lb1 i + (- vget (ks_lb o1) i * vget (kz_lb o1) i + smu)) in
  let rs_ub2 := vupd_head n_ub rs_ub1 (fun i => vget rs_ub1 i + (- vget (ks_ub o1) i * vget (kz_ub o1) i + smu)) in
  let w2 := Work.set_rs rs2 rs_lb2 rs_ub2 (work_dirs o1 w1) in
  let o2 := kkt_solve d (Solver.kkt st) (work_rhs w2) in
  let w3 := work_dirs o2 w2 in
  let '(b_s, b_z) := step_lengths d r o2 in
  let ps := b_s * Settings.tau set in
  let dst := b_z * Settings.tau set in
  (* update *)
  let r1 := update_iterate d ps dst o2 r in
  let mu_prev := Info.mu i0 in
  let mu := complementarity d r1 in
  let mu_rate := Qabs (mu_prev - mu) / mu_prev in
  let i1 := Info.set_mu mu (Info.set_dual_step dst (Info.set_primal_step ps (Info.set_sigma sigma i0))) in
  (* regularisation update *)
  let w4 := update_nr_residuals d r1 w3 in
  let '(r2, i2) :=
    if Qltb (inf_norm (unscale_dual_res (Work.rx_nr w4))) ((95 # 100) * Info.dual_inf i1)
    then (Result.set_zeta (Result.x r1) r1,
          Info.set_rho (std_max (Info.reg_limit i1) ((1 - mu_rate) * Info.rho i1)) i1)
    else (r1, Info.set_rho (std_max (Info.reg_limit i1) ((1 - (666 # 1000) * mu_rate) * Info.rho i1))
                (Info.set_no_primal_update (Info.no_primal_update i1 + 1)%Z i1)) in
  let '(r3, i3) :=
    if Qltb (primal_inf_of d w4) ((95 # 100) * Info.primal_inf i2)
    then (move_dual_centre d r2,
          Info.set_delta (std_max (Info.reg_limit i2) ((1 - mu_rate) * Info.delta i2)) i2)
    else (r2, Info.set_delta (std_max (Info.reg_limit i2) ((1 - (666 # 1000) * mu_rate) * Info.delta i2))
                (Info.set_no_dual_update (Info.no_dual_update i2 + 1)%Z i2)) in
  Solver.set_work w4 (Solver.set_result (Result.set_info i3 r3) st).

(** Lines 695-730: no inequalities, full Newton steps. *)
Definition eq_step (st : Solver.t K) : Solver.t K :=
  let d := Solver.data st in let r := Solver.result st in let w := Solver.work st in
  let o := kkt_solve d (Solver.kkt st) (work_rhs w) in
  let w1 := work_dirs o w in
  let i0 := Info.set_dual_step 1 (Info.set_primal_step 1 (Result.info r)) in
  let r1 := Result.set_y (vadd (Result.y r) (vscale 1 (ky o)))
              (Result.set_x (vadd (Result.x r) (vscale 1 (kx o))) (Result.set_info i0 r)) in
  let w2 := update_nr_residuals d r1 w1 in
  let '(r2, i2) :=
    if Qltb (inf_norm (unscale_dual_res (Work.rx_nr w2))) ((95 # 100) * Info.dual_inf i0)
    then (Result.set_zeta (Result.x r1) r1,
          Info.set_rho (std_max (Info.reg_limit i0) ((1 # 10) * Info.rho i0)) i0)
    else (r1, Info.set_rho (std_max (Info.reg_limit i0) ((1 # 2) * Info.rho i0))
                (Info.set_no_primal_update (Info.no_primal_update i0 + 1)%Z i0)) in
  let '(r3, i3) :=
    if Qltb (inf_norm (unscale_primal_res_eq (Work.ry_nr w2))) ((95 # 100) * Info.primal_inf i2)
    then (Result.set_lambda (Result.y r2) r2,
          Info.set_delta (std_max (Info.reg_limit i2) ((1 # 10) * Info.delta i2)) i2)
    else (r2, Info.set_delta (std_max (Info.reg_limit i2) ((1 # 2) * Info.delta i2))
                (Info.set_no_dual_update (Info.no_dual_update i2 + 1)%Z i2)) in
  Solver.set_work w2 (Solver.set_result (Result.set_info i3 r3) st).

(** Lines 525-543 and the step. *)
Definition pass_factor (st : Solver.t K) : Outcome K :=
  let '(k, ok) := kkt_factorize (Solver.data st) (Solver.kkt st) in
  let st1 := Solver.set_kkt k st in
  if ok then
    let st2 := Solver.upd_info (Info.set_factor_retires 0) st1 in
    Cont (if (0 <? n_ineq (Solver.data st2))%nat then ipm_step st2 else eq_step st2)
  else if (Info.factor_retires (Solver.info st1) <? Settings.max_factor_retires (Solver.settings st1))%Z
  then Cont (Solver.upd_info (retry_info true (Solver.settings st1)) st1)
  else Ret PIQP_NUMERICS (Solver.upd_info (Info.set_status PIQP_NUMERICS) st1).

Definition outer_pass (st : Solver.t K) : Outcome K :=
  match pass_head st with
  | Ret s st1 => Ret s st1
  | Cont st1 => pass_factor st1
  end.

(** [while (iter < max_iter) { ... } return MAX_ITER_REACHED;] *)
Fixpoint run_loop (fuel : nat) (st : Solver.t K) : option (Status * Solver.t K) :=
  match fuel with
  | O => None
  | S f =>
      if (Info.iter (Solver.info st) <? Settings.max_iter (Solver.settings st))%Z then
        match outer_pass st with
        | Ret s st1 => Some (s, st1)
        | Cont st1 => run_loop f st1
        end
      else Some (PIQP_MAX_ITER_REACHED, Solver.upd_info (Info.set_status PIQP_MAX_ITER_REACHED) st)
  end.

Definition solve_impl (fuel : nat) (st : Solver.t K) : option (Status * Solver.t K) :=
  match solve_init fuel st with
  | None => None
  | Some (Ret s st1) => Some (s, st1)
  | Some (Cont st1) => run_loop fuel st1
  end.

(** [SolverBase::solve] (lines 89-148). *)
Definition solve (fuel : nat) (st : Solver.t K) : option (Status * Solver.t K) :=
  match solve_impl fuel st with
  | None => None
  | Some (s, st1) =>
      let d := Solver.data st1 in
      Some (s, Solver.set_result (restore_box_dual t_infinity d (unscale_results d (Solver.result st1))) st1)
  end.

(** The passes of the outer loop: [loop_reach st st'] when the loop started
    in [st] reaches the top of a pass in [st'] (every earlier pass fell
    through with [iter < max_iter] at its top). *)
Inductive loop_reach (st : Solver.t K) : Solver.t K -> Prop :=
| reach_here : loop_reach st st
| reach_next st1 st2 :
    loop_reach st st1 ->
    (Info.iter (Solver.info st1) < Settings.max_iter (Solver.settings st1))%Z ->
    outer_pass st1 = Cont st2 ->
    loop_reach st st2.

End Driver.

(** ** Concrete collaborators, to run the driver on small problems *)

(** A preconditioner that does not scale (every [unscale_*] is the identity). *)
Definition precond_id : Preconditioner := {|
  scale_data := fun d => d;
  unscale_primal := fun v => v;
  unscale_dual_eq := fun v => v;
  unscale_dual_ineq := fun v => v;
  unscale_dual_lb := fun v => v;
  unscale_dual_ub := fun v => v;
  unscale_slack_ineq := fun v => v;
  unscale_slack_lb := fun v => v;
  unscale_slack_ub := fun v => v;
  unscale_primal_res_eq := fun v => v;
  unscale_primal_res_ineq := fun v => v;
  unscale_primal_res_lb := fun v => v;
  unscale_primal_res_ub := fun v => v;
  unscale_dual_res := fun v => v;
  unscale_cost := fun a => a |}.

(** A scripted KKT operator: its state counts the calls of [update_scalings];
    [fact_ok k] is the answer of [factorize] and [sol k rhs] the solution
    returned by [solve] after [k] such calls. *)
Definition kkt_script (fact_ok : nat -> bool) (sol : nat -> KKTVecs -> KKTVecs) : KKT nat := {|
  kkt_init := fun _ _ _ => 0%nat;
  kkt_update_scalings := fun _ _ _ _ _ _ _ _ k => S k;
  kkt_factorize := fun _ k => (k, fact_ok k);
  kkt_solve := fun _ k rhs => sol k rhs |}.

(** Modelled from the spec: [Settings::verify_settings()] (settings.hpp is
    not among the sources); the spec lists [tau] in (0,1), positive initial
    proximal parameters, tolerances and iteration caps. *)
Definition verify_settings_model (s : Settings.t) : bool :=
  Qltb 0 (Settings.rho_init s) && Qltb 0 (Settings.delta_init s)
  && Qltb 0 (Settings.feas_tol_abs s) && Qle_bool 0 (Settings.feas_tol_rel s)
  && Qltb 0 (Settings.dual_tol s) && Qltb 0 (Settings.reg_lower_limit s)
  && (0 <? Settings.max_iter s)%Z && (0 <=? Settings.max_factor_retires s)%Z
  && (0 <=? Settings.preconditioner_iter s)%Z
  && Qltb 0 (Settings.tau s) && Qltb (Settings.tau s) 1.

(** A stand-in for [std::numeric_limits<T>::infinity()]. *)
Definition T_INF : Q := inject_Z (10 ^ 40).

(** Dense matrices given by their rows. *)
Definition mat_of (r c : nat) (rows : list (list Q)) : Mat :=
  mkMat r c (fun i j => nth j (nth i rows []) 0).

(** The solver a run starts from: [SolverBase] default-constructs its
    result, data and workspace, so every vector is empty and nothing is set
    up; the user then sets the settings to [set]. The types [Result<T>],
    [Data<T>] and [Settings<T>] are declared outside src/, so the scalar
    fields it starts with are chosen here ([UNSOLVED] and zeros). *)
Definition info0 : Info.t := Info.mk PIQP_UNSOLVED 0 0 0 0 0 0 0 0 0 0 0 0 0.

Definition result0 : Result.t := Result.mk [] [] [] [] [] [] [] [] [] [] [] [] [] info0.

Definition work0 : Work.t :=
  Work.mk [] [] [] [] [] [] [] [] [] [] [] [] [] [] [] [] [] [] [] [] [] 0 0.

Definition data0 : Data.t :=
  Data.mk 0 0 0 (mat_of 0 0 []) (mat_of 0 0 []) (mat_of 0 0 []) [] [] [] 0 0 [] [] [] [].

Definition fresh {K : Type} (set : Settings.t) (k : K) : Solver.t K :=
  Solver.mk set data0 result0 work0 k false false.

Definition zero_sol (n : nat) : KKTVecs :=
  mkKKTVecs (repeat 0 n) [] [] (repeat 0 n) (repeat 0 n) [] (repeat 0 n) (repeat 0 n).

(** Settings of the runs below: [tau = 0.99], [max_iter = 100],
    [max_factor_retires = 2]. *)
Definition settings_run (rho0 reg_lo : Q) : Settings.t :=
  Settings.mk rho0 rho0 (1 # 100000000) (1 # 1000000) (1 # 100000000) reg_lo
    100 2 10 (99 # 100) false false.

(** Run A: [n = p = 1], [m = 0], [P = 0], [c = 0], one equality row
    [A = (1)], [b = 0], no bounds; the scripted solves move [(x, y)] from [(0, -5w)] by
    [(w/3, w/6)] per pass, [w = 10^11]. *)
Definition w_A : Q := inject_Z (10 ^ 11).

Definition sol_A (k : nat) (_ : KKTVecs) : KKTVecs :=
  match k with
  | O => mkKKTVecs [0] [- 5 * w_A] [] [0] [0] [] [0] [0]
  | S _ => mkKKTVecs [w_A / 3] [w_A / 6] [] [0] [0] [] [0] [0]
  end.

Definition kkt_A : KKT nat := kkt_script (fun _ => true) sol_A.

Definition setup_A : Solver.t nat :=
  @setup_impl nat kkt_A precond_id (fresh (settings_run 128 (1 # 100000000)) 0%nat)
    (mat_of 1 1 [[0]]) [0] (mat_of 1 1 [[1]]) [0] (mat_of 0 1 []) [] None None.

(** Run B: [n = 1], no constraints, [c = (1)], a KKT whose solves return
    zero; [rho_init = delta_init = 1e-12] below [reg_lower_limit = 1e-10]. *)
Definition kkt_B : KKT nat := kkt_script (fun _ => true) (fun _ _ => zero_sol 1).

Definition setup_B : Solver.t nat :=
  @setup_impl nat kkt_B precond_id (fresh (settings_run (1 # 1000000000000) (1 # 10000000000)) 0%nat)
    (mat_of 1 1 [[0]]) [1] (mat_of 0 1 []) [] (mat_of 0 1 []) [] None None.

(** Run C: the same problem with a KKT whose factorisations always fail. *)
Definition kkt_C : KKT nat := kkt_script (fun _ => false) (fun _ _ => zero_sol 1).

Definition setup_C : Solver.t nat :=
  @setup_impl nat kkt_C precond_id (fresh (settings_run 1 (1 # 10000000000)) 0%nat)
    (mat_of 1 1 [[0]]) [1] (mat_of 0 1 []) [] (mat_of 0 1 []) [] None None.

(** Run D: [n = 1], no constraints, [P = 0], [c = 0]: already optimal at the
    start. *)
Definition setup_D : Solver.t nat :=
  @setup_impl nat kkt_B precond_id (fresh (settings_run 1 (1 # 10000000000)) 0%nat)
    (mat_of 1 1 [[0]]) [0] (mat_of 0 1 []) [] (mat_of 0 1 []) [] None None.

(** Settings rejected by [verify_settings_model]: [tau = 2]. *)
Definition bad_tau (s : Settings.t) : Settings.t :=
  Settings.mk (Settings.rho_init s) (Settings.delta_init s) (Settings.feas_tol_abs s)
    (Settings.feas_tol_rel s) (Settings.dual_tol s) (Settings.reg_lower_limit s)
    (Settings.max_iter s) (Settings.max_factor_retires s) (Settings.preconditioner_iter s)
    2 (Settings.verbose s) (Settings.compute_timings s).

(** A state with [n = 2] and one finite lower bound, on variable [1],
    holding the compressed [z_lb = (1, 0)]. *)
Definition d_prev : Data.t :=
  Data.mk 2 0 0 (mat_of 2 2 []) (mat_of 2 0 []) (mat_of 2 0 []) [0; 0] [] []
    1 0 [0; 0] [0; 0] [1%nat; 0%nat] [0%nat; 0%nat].

Definition st_prev : Solver.t nat :=
  let set := settings_run 1 (1 # 10000000000) in
  let '(r, w) := init_workspace set d_prev result0 work0 in
  Solver.mk set d_prev (Result.set_z_lb [1; 0] r) w 0%nat false false.

(** A state with one inequality row and one finite lower bound: [s = (1)],
    the compressed [s_lb = (0)]. *)
Definition d_one : Data.t :=
  Data.mk 1 0 1 (mat_of 1 1 []) (mat_of 1 0 []) (mat_of 1 1 [[1]]) [0] [] [1]
    1 0 [0] [0] [0%nat] [0%nat].

Definition st_one : Solver.t nat :=
  let set := settings_run 1 (1 # 10000000000) in
  let '(r, w) := init_workspace set d_one result0 work0 in
  Solver.mk set d_one (Result.set_s_lb [0] (Result.set_s [1] r)) w 0%nat true true.

(** [n = 1], no constraints, one finite lower bound on variable [0] with
    dual [z_lb = (1)], everything else zero. *)
Definition d_lb1 : Data.t :=
  Data.mk 1 0 0 (mat_of 1 1 [[0]]) (mat_of 1 0 []) (mat_of 1 0 []) [0] [] []
    1 0 [0] [0] [0%nat] [0%nat].

Definition r_lb1 : Result.t :=
  Result.set_z_lb [1] (fst (init_workspace (settings_run 1 (1 # 10000000000)) d_lb1 result0 work0)).

Definition w_lb1 : Work.t := snd (init_workspace (settings_run 1 (1 # 10000000000)) d_lb1 result0 work0).

(** Run E: [n = 1], one inequality row [G = (1)], [h = (1)], [c = (1)]; the
    scripted initial solve returns [s = z = (1)], later solves move [s] and
    [z] by [-1]. *)
Definition sol_E (k : nat) (_ : KKTVecs) : KKTVecs :=
  match k with
  | O => mkKKTVecs [0] [] [1] [0] [0] [1] [0] [0]
  | S _ => mkKKTVecs [0] [] [-1] [0] [0] [-1] [0] [0]
  end.

Definition kkt_E : KKT nat := kkt_script (fun _ => true) sol_E.

Definition setup_E : Solver.t nat :=
  @setup_impl nat kkt_E precond_id (fresh (settings_run 1 (1 # 10000000000)) 0%nat)
    (mat_of 1 1 [[0]]) [1] (mat_of 0 1 []) [] (mat_of 1 1 [[1]]) [1] None None.

(** The states at the top of the first pass of runs E and D, and after it. *)
Definition start_E : Solver.t nat :=
  match solve_init (KK:=kkt_E) verify_settings_model 5 setup_E with
  | Some (Cont st) => st
  | _ => setup_E
  end.

Definition next_E : Solver.t nat :=
  match outer_pass (KK:=kkt_E) (PC:=precond_id) start_E with
  | Cont st => st
  | Ret _ st => st
  end.

Definition start_D : Solver.t nat :=
  match solve_init (KK:=kkt_B) verify_settings_model 5 setup_D with
  | Some (Cont st) => st
  | _ => setup_D
  end.

(** Bounds for the box witness: [x_lb = (1, -10^40)], [x_ub = (10^40, 5)]. *)
Definition d_box : Data.t :=
  Data.mk 2 0 0 (mat_of 2 2 []) (mat_of 2 0 []) (mat_of 2 0 []) [0; 0] [] []
    0 0 [0; 0] [0; 0] [0%nat; 0%nat] [0%nat; 0%nat].

(** Run M: run A with [max_iter = 2]. *)
Definition settings_M : Settings.t :=
  Settings.mk 128 128 (1 # 100000000) (1 # 1000000) (1 # 100000000) (1 # 100000000)
    2 2 10 (99 # 100) false false.

Definition setup_M : Solver.t nat :=
  @setup_impl nat kkt_A precond_id (fresh settings_M 0%nat)
    (mat_of 1 1 [[0]]) [0] (mat_of 1 1 [[1]]) [0] (mat_of 0 1 []) [] None None.

(** Run P: [n = 2], [P = 0], [c = 0], no constraints, the bounds
    [x_lb = (-10^40, 0)] (one finite lower bound, on variable [1]), a KKT
    whose solves return zero; [max_iter = 1]. *)
Definition kkt_P : KKT nat := kkt_script (fun _ => true) (fun _ _ => zero_sol 2).

Definition settings_P : Settings.t :=
  Settings.mk 1 1 (1 # 100000000) (1 # 1000000) (1 # 100000000) (1 # 10000000000)
    1 2 10 (99 # 100) false false.

Definition setup_P : Solver.t nat :=
  @setup_impl nat kkt_P precond_id (fresh settings_P 0%nat)
    (mat_of 2 2 []) [0; 0] (mat_of 0 2 []) [] (mat_of 0 2 []) [] (Some [- T_INF; 0]) None.

(** ** Definitions used in the statements *)

(** The indices of the finite bounds among the first [k] entries. *)
Definition finite_idx (fin : Q -> bool) (xb : vec) (k : nat) : list nat :=
  filter (fun i => fin (vget xb i)) (seq 0 k).

(** The dense layout a compressed bound vector [v] of [k] live entries is
    expanded to: length [n], the [i]-th live entry at [idx[i]], [fill]
    everywhere else. *)
Definition dense_layout (n k : nat) (idx : list nat) (fill : Q) (v v' : vec) : Prop :=
  length v' = n
  /\ (forall i, (i < k)%nat -> vget v' (nth i idx 0%nat) = vget v i)
  /\ (forall j, (j < n)%nat -> (forall i, (i < k)%nat -> nth i idx 0%nat <> j) -> vget v' j = fill).

(** The convergence test as the spec states it, at the top of a pass that
    starts in [st]: the unscaled non-regularised residual norms of the
    residuals current at the test (recomputed first when [iter = 0]). *)
Definition converged_spec {K : Type} {PC : Preconditioner} (st : Solver.t K) : bool :=
  let set := Solver.settings st in
  let d := Solver.data st in
  let w := Solver.work (pass_top st) in
  Qltb (primal_inf_of d w) (Settings.feas_tol_abs set + Settings.feas_tol_rel set * Work.primal_rel_inf w)
  && Qltb (dual_inf_of w) (Settings.feas_tol_abs set + Settings.feas_tol_rel set * Work.dual_rel_inf w)
  && Qltb (Info.mu (Solver.info st)) (Settings.dual_tol set).

(** The part of the workspace the convergence test reads. *)
Definition nr_view (d : Data.t) (w : Work.t) : vec * vec * vec * vec * vec * Q * Q :=
  (Work.rx_nr w, Work.ry_nr w, Work.rz_nr w, vhead (Data.n_lb d) (Work.rz_lb_nr w),
   vhead (Data.n_ub d) (Work.rz_ub_nr w), Work.primal_rel_inf w, Work.dual_rel_inf w).

(** Every live slack and dual is strictly positive. *)
Definition live_pos (d : Data.t) (r : Result.t) : Prop :=
  (forall i, (i < Data.m d)%nat -> 0 < vget (Result.s r) i /\ 0 < vget (Result.z r) i)
  /\ (forall i, (i < Data.n_lb d)%nat -> 0 < vget (Result.s_lb r) i /\ 0 < vget (Result.z_lb r) i)
  /\ (forall i, (i < Data.n_ub d)%nat -> 0 < vget (Result.s_ub r) i /\ 0 < vget (Result.z_ub r) i).

(** The regularisation floor sits between [1e-13] and both proximal
    parameters. *)
Definition reg_inv (i : Info.t) : Prop :=
  Q_1em13 <= Info.reg_limit i /\ Info.reg_limit i <= Info.rho i /\ Info.reg_limit i <= Info.delta i.

(** The selection matrix of a compressed bound: row [i < k] is the unit
    row of variable [idx[i]] among [n]. *)
Definition sel_mat (n k : nat) (idx : list nat) : Mat :=
  mkMat k n (fun i j => if (nth i idx 0%nat =? j)%nat then 1 else 0).

(** The formula of the dual residual as the spec writes it:
    [-P x - c - A^T y - G^T z - E_lb^T z_lb + E_ub^T z_ub]. *)
Definition rx_nr_spec (d : Data.t) (r : Result.t) : vec :=
  let n := Data.n d in let x := Result.x r in
  let E_lb := sel_mat n (Data.n_lb d) (Data.x_lb_idx d) in
  let E_ub := sel_mat n (Data.n_ub d) (Data.x_ub_idx d) in
  vinit n (fun j =>
    - vget (P_times d x) j - vget (Data.c d) j
    - vget (mat_vec (Data.AT d) (Result.y r)) j - vget (mat_vec (Data.GT d) (Result.z r)) j
    - vget (mat_vec (mtranspose E_lb) (Result.z_lb r)) j
    + vget (mat_vec (mtranspose E_ub) (Result.z_ub r)) j).

(** [idx] holds [k] distinct positions in its head. *)
Definition idx_inj (k : nat) (idx : list nat) : Prop :=
  forall i i', (i < k)%nat -> (i' < k)%nat -> nth i idx 0%nat = nth i' idx 0%nat -> i = i'.

(** ** Lemmas on the vector primitives *)

(** Reduces the record accessors and setters of the solver state. *)
Ltac proj_simpl :=
  try unfold Solver.info in *;
  cbn [Solver.settings Solver.data Solver.result Solver.work Solver.kkt Solver.kkt_init_state
       Solver.setup_done Solver.info Solver.set_settings Solver.set_data Solver.set_result
       Solver.set_work Solver.set_kkt Solver.set_kkt_init_state Solver.upd_result Solver.upd_info
       Solver.upd_work
       Result.x Result.y Result.z Result.z_lb Result.z_ub Result.s Result.s_lb Result.s_ub
       Result.zeta Result.lambda Result.nu Result.nu_lb Result.nu_ub Result.info
       Result.set_x Result.set_y Result.set_z Result.set_z_lb Result.set_z_ub Result.set_s
       Result.set_s_lb Result.set_s_ub Result.set_zeta Result.set_lambda Result.set_nu
       Result.set_nu_lb Result.set_nu_ub Result.set_info Result.upd_info
       Info.status Info.iter Info.rho Info.delta Info.mu Info.sigma Info.primal_step
       Info.dual_step Info.primal_inf Info.dual_inf Info.reg_limit Info.factor_retires
       Info.no_primal_update Info.no_dual_update
       Info.set_status Info.set_iter Info.set_rho Info.set_delta Info.set_mu Info.set_sigma
       Info.set_primal_step Info.set_dual_step Info.set_primal_inf Info.set_dual_inf
       Info.set_reg_limit Info.set_factor_retires Info.set_no_primal_update Info.set_no_dual_update
       Work.rx Work.ry Work.rz Work.rz_lb Work.rz_ub Work.rs Work.rs_lb Work.rs_ub
       Work.rx_nr Work.ry_nr Work.rz_nr Work.rz_lb_nr Work.rz_ub_nr Work.dx Work.dy Work.dz
       Work.dz_lb Work.dz_ub Work.ds Work.ds_lb Work.ds_ub Work.primal_rel_inf Work.dual_rel_inf
       Work.set_rx Work.set_reg Work.set_rs Work.set_dirs
       Data.n Data.p Data.m Data.P_utri Data.AT Data.GT Data.c Data.b Data.h Data.n_lb
       Data.n_ub Data.x_lb_n Data.x_ub Data.x_lb_idx Data.x_ub_idx] in *.


Lemma Qltb_iff (a b : Q) : Qltb a b = true <-> a < b.
Proof.
  unfold Qltb. rewrite Qlt_alt. destruct (a ?= b); split; intro H; congruence.
Qed.

Lemma Qltb_false (a b : Q) : Qltb a b = false <-> b <= a.
Proof.
  split; intro H.
  - apply Qnot_lt_le. intro Hlt. apply Qltb_iff in Hlt. congruence.
  - destruct (Qltb a b) eqn:E; [|reflexivity]. apply Qltb_iff in E. exfalso. apply (Qlt_not_le _ _ E H).
Qed.

Lemma std_max_spec (a b : Q) : (a <= std_max a b) /\ (b <= std_max a b)
  /\ (std_max a b = a \/ std_max a b = b).
Proof.
  unfold std_max. destruct (Qltb a b) eqn:E.
  - apply Qltb_iff in E. repeat split; [apply Qlt_le_weak; exact E | apply Qle_refl | right; reflexivity].
  - apply Qltb_false in E. repeat split; [apply Qle_refl | exact E | left; reflexivity].
Qed.

Lemma std_max_le (a b c : Q) : std_max a b <= c <-> a <= c /\ b <= c.
Proof.
  destruct (std_max_spec a b) as (H1 & H2 & [H3|H3]); rewrite H3 in *; split.
  - intro H. split; [exact H | apply Qle_trans with a; assumption].
  - intros [H _]. exact H.
  - intro H. split; [apply Qle_trans with b; assumption | exact H].
  - intros [_ H]. exact H.
Qed.

Lemma std_min_spec (a b : Q) : (std_min a b <= a) /\ (std_min a b <= b)
  /\ (std_min a b = a \/ std_min a b = b).
Proof.
  unfold std_min. destruct (Qltb b a) eqn:E.
  - apply Qltb_iff in E. repeat split; [apply Qlt_le_weak; exact E | apply Qle_refl | right; reflexivity].
  - apply Qltb_false in E. repeat split; [apply Qle_refl | exact E | left; reflexivity].
Qed.

Lemma vget_oob (v : vec) (i : nat) : (length v <= i)%nat -> vget v i = 0.
Proof. intro H. unfold vget. apply nth_overflow. exact H. Qed.

Lemma vget_pos_lt (v : vec) (i : nat) : 0 < vget v i -> (i < length v)%nat.
Proof.
  intro H. destruct (Nat.lt_ge_cases i (length v)) as [Hl|Hl]; [exact Hl|].
  rewrite (vget_oob v i Hl) in H. discriminate H.
Qed.

Lemma length_vinit (k : nat) (f : nat -> Q) : length (vinit k f) = k.
Proof. unfold vinit. rewrite length_map, length_seq. reflexivity. Qed.

Lemma vget_vinit (k : nat) (f : nat -> Q) (i : nat) : (i < k)%nat -> vget (vinit k f) i = f i.
Proof.
  intro H. unfold vget, vinit.
  rewrite nth_indep with (d' := f 0%nat) by (rewrite length_map, length_seq; exact H).
  rewrite map_nth, seq_nth by exact H. reflexivity.
Qed.

Lemma vget_vadd (a b : vec) (i : nat) : (i < length a)%nat -> vget (vadd a b) i = vget a i + vget b i.
Proof. intro H. unfold vadd. apply vget_vinit. exact H. Qed.

Lemma vget_vsub (a b : vec) (i : nat) : (i < length a)%nat -> vget (vsub a b) i = vget a i - vget b i.
Proof. intro H. unfold vsub. apply vget_vinit. exact H. Qed.

Lemma length_vadd (a b : vec) : length (vadd a b) = length a.
Proof. apply length_vinit. Qed.

Lemma length_vsub (a b : vec) : length (vsub a b) = length a.
Proof. apply length_vinit. Qed.

Lemma vget_vscale (t : Q) (a : vec) (i : nat) : vget (vscale t a) i == t * vget a i.
Proof.
  unfold vget, vscale. destruct (Nat.lt_ge_cases i (length a)) as [H|H].
  - rewrite nth_indep with (d' := t * 0) by (rewrite length_map; exact H).
    rewrite map_nth. reflexivity.
  - rewrite !nth_overflow by (try rewrite length_map; exact H). ring.
Qed.

Lemma vget_vopp (a : vec) (i : nat) : vget (vopp a) i == - vget a i.
Proof.
  unfold vget, vopp. destruct (Nat.lt_ge_cases i (length a)) as [H|H].
  - rewrite nth_indep with (d' := - 0) by (rewrite length_map; exact H).
    rewrite map_nth. reflexivity.
  - rewrite !nth_overflow by (try rewrite length_map; exact H). reflexivity.
Qed.

Lemma length_vopp (a : vec) : length (vopp a) = length a.
Proof. apply length_map. Qed.

Lemma length_vupd_head (k : nat) (v : vec) (f : nat -> Q) : length (vupd_head k v f) = length v.
Proof. apply length_vinit. Qed.

Lemma vget_vupd_head (k : nat) (v : vec) (f : nat -> Q) (i : nat) :
  (i < length v)%nat -> vget (vupd_head k v f) i = if (i <? k)%nat then f i else vget v i.
Proof. intro H. unfold vupd_head. apply vget_vinit. exact H. Qed.

Lemma length_vset {A} (v : list A) (i : nat) (a : A) : length (vset v i a) = length v.
Proof.
  revert i. induction v as [|u r IH]; intros [|i]; simpl; try reflexivity.
  rewrite IH. reflexivity.
Qed.

Lemma nth_vset {A} (v : list A) (i j : nat) (a d : A) :
  nth j (vset v i a) d = if ((i =? j) && (i <? length v))%nat then a else nth j v d.
Proof.
  revert i j. induction v as [|u r IH]; intros [|i] [|j]; cbn [vset nth length].
  all: rewrite ?andb_false_r; try reflexivity.
  all: try (destruct j; reflexivity).
  all: rewrite IH; reflexivity.
Qed.

Lemma fold_seq_S {A} (f : A -> nat -> A) (k : nat) (a : A) :
  fold_left f (seq 0 (S k)) a = f (fold_left f (seq 0 k) a) k.
Proof. rewrite seq_S, fold_left_app. reflexivity. Qed.

Lemma filter_seq_S (p : nat -> bool) (k : nat) :
  filter p (seq 0 (S k)) = filter p (seq 0 k) ++ (if p k then [k] else []).
Proof. rewrite seq_S, filter_app. simpl. destruct (p k); reflexivity. Qed.

(** ** The compressed box bounds built by [setup_lb_data] / [setup_ub_data] *)


Lemma finite_idx_length (fin : Q -> bool) (xb : vec) (k : nat) :
  (length (finite_idx fin xb k) <= k)%nat.
Proof.
  unfold finite_idx. induction k as [|k IH]; [simpl; lia|].
  rewrite filter_seq_S, length_app. destruct (fin (vget xb k)); simpl; lia.
Qed.

Lemma setup_box_loop_inv (fin : Q -> bool) (neg : bool) (xb : vec) (k : nat)
    (vals : vec) (idx : list nat) :
  (k <= length vals)%nat -> (k <= length idx)%nat ->
  match setup_box_loop fin neg xb k vals idx with
  | (cnt, i_b, vals', idx') =>
      cnt = length (finite_idx fin xb k) /\ i_b = cnt
      /\ length vals' = length vals /\ length idx' = length idx
      /\ forall i, (i < cnt)%nat ->
           nth i idx' 0%nat = nth i (finite_idx fin xb k) 0%nat
           /\ vget vals' i = (if neg then - vget xb (nth i (finite_idx fin xb k) 0%nat)
                              else vget xb (nth i (finite_idx fin xb k) 0%nat))
  end.
Proof.
  induction k as [|k IH]; intros Hv Hi.
  - simpl. repeat split; intros; lia.
  - unfold setup_box_loop in *. rewrite fold_seq_S.
    specialize (IH ltac:(lia) ltac:(lia)).
    destruct (fold_left _ (seq 0 k) _) as [[[cnt i_b] vals'] idx'].
    destruct IH as (Hc & Hib & Hlv & Hli & Hval).
    pose proof (finite_idx_length fin xb k) as Hk.
    unfold finite_idx in *. rewrite filter_seq_S.
    destruct (fin (vget xb k)) eqn:Ef.
    + rewrite length_app. simpl.
      split; [lia|]. split; [lia|].
      split; [rewrite length_vset; assumption|]. split; [rewrite length_vset; assumption|].
      intros i Hlt. subst i_b. split.
      * destruct (Nat.eq_dec i cnt) as [->|Hne].
        -- rewrite nth_vset. rewrite Nat.eqb_refl, (proj2 (Nat.ltb_lt cnt (length idx'))) by lia.
           rewrite app_nth2 by lia. rewrite Hc, Nat.sub_diag. reflexivity.
        -- rewrite nth_vset. rewrite (proj2 (Nat.eqb_neq cnt i)) by lia. simpl.
           rewrite app_nth1 by lia. apply Hval. lia.
      * destruct (Nat.eq_dec i cnt) as [->|Hne].
        -- unfold vget at 1. rewrite nth_vset. rewrite Nat.eqb_refl, (proj2 (Nat.ltb_lt cnt (length vals'))) by lia.
           rewrite app_nth2 by lia. rewrite Hc, Nat.sub_diag. reflexivity.
        -- unfold vget at 1. rewrite nth_vset. rewrite (proj2 (Nat.eqb_neq cnt i)) by lia. simpl.
           rewrite app_nth1 by lia. apply Hval. lia.
    + rewrite app_nil_r. exact (conj Hc (conj Hib (conj Hlv (conj Hli Hval)))).
Qed.

Lemma finite_idx_bound (fin : Q -> bool) (xb : vec) (k i : nat) :
  (i < length (finite_idx fin xb k))%nat -> (nth i (finite_idx fin xb k) 0 < k)%nat.
Proof.
  intro H. assert (Hin : In (nth i (finite_idx fin xb k) 0%nat) (finite_idx fin xb k))
    by (apply nth_In; exact H).
  unfold finite_idx in *. apply filter_In in Hin. destruct Hin as [Hin _].
  apply in_seq in Hin. lia.
Qed.

Lemma finite_idx_fin (fin : Q -> bool) (xb : vec) (k i : nat) :
  (i < length (finite_idx fin xb k))%nat -> fin (vget xb (nth i (finite_idx fin xb k) 0%nat)) = true.
Proof.
  intro H. assert (Hin : In (nth i (finite_idx fin xb k) 0%nat) (finite_idx fin xb k))
    by (apply nth_In; exact H).
  unfold finite_idx in Hin. apply filter_In in Hin. tauto.
Qed.

Lemma finite_idx_increasing (fin : Q -> bool) (xb : vec) (k i j : nat) :
  (i < j < length (finite_idx fin xb k))%nat ->
  (nth i (finite_idx fin xb k) 0 < nth j (finite_idx fin xb k) 0)%nat.
Proof.
  induction k as [|k IH]; [simpl; lia|]. intro H.
  pose proof (finite_idx_bound fin xb k) as Hb.
  unfold finite_idx in *. rewrite filter_seq_S in *.
  destruct (fin (vget xb k)).
  - rewrite length_app in H. simpl in H.
    destruct (Nat.eq_dec j (length (filter (fun i => fin (vget xb i)) (seq 0 k)))) as [->|Hne].
    + rewrite app_nth1 by lia. rewrite app_nth2 by lia. rewrite Nat.sub_diag. simpl.
      apply Hb. lia.
    + rewrite !app_nth1 by lia. apply IH. lia.
  - rewrite app_nil_r in *. apply IH. exact H.
Qed.

Lemma firstn_S_nth (xb : vec) (k : nat) :
  (k < length xb)%nat -> firstn (S k) xb = firstn k xb ++ [vget xb k].
Proof.
  revert k. induction xb as [|a r IH]; intros k H; simpl in H; [lia|].
  destruct k as [|k]; [reflexivity|].
  change (a :: firstn (S k) r = a :: (firstn k r ++ [vget r k])).
  rewrite (IH k) by lia. reflexivity.
Qed.

Lemma finite_idx_values (fin : Q -> bool) (xb : vec) (k : nat) :
  (k <= length xb)%nat ->
  map (vget xb) (finite_idx fin xb k) = filter fin (firstn k xb).
Proof.
  induction k as [|k IH]; intro H; [reflexivity|].
  unfold finite_idx in *. rewrite filter_seq_S, map_app, firstn_S_nth, filter_app by lia.
  rewrite IH by lia. simpl. destruct (fin (vget xb k)); reflexivity.
Qed.

Lemma finite_idx_nth_value (fin : Q -> bool) (xb : vec) (i : nat) :
  (i < length (finite_idx fin xb (length xb)))%nat ->
  nth i (filter fin xb) 0 = vget xb (nth i (finite_idx fin xb (length xb)) 0%nat).
Proof.
  intro H. rewrite <- (firstn_all xb) at 1.
  rewrite <- finite_idx_values by lia.
  rewrite nth_indep with (d' := vget xb 0%nat) by (rewrite length_map; exact H).
  apply map_nth.
Qed.

Lemma finite_idx_count (fin : Q -> bool) (xb : vec) :
  length (finite_idx fin xb (length xb)) = length (filter fin xb).
Proof.
  rewrite <- (firstn_all xb) at 3. rewrite <- finite_idx_values by lia.
  rewrite length_map. reflexivity.
Qed.

(** The compressed layout of one side: what [setup_box_loop] leaves. *)
Lemma setup_box_loop_layout (fin : Q -> bool) (neg : bool) (xb : vec) (n : nat)
    (vals : vec) (idx : list nat) :
  length xb = n -> length vals = n -> length idx = n ->
  match setup_box_loop fin neg xb n vals idx with
  | (cnt, _, vals', idx') =>
      cnt = length (filter fin xb)
      /\ (forall i, (i < cnt)%nat ->
            vget vals' i = (if neg then - nth i (filter fin xb) 0 else nth i (filter fin xb) 0)
            /\ (nth i idx' 0 < n)%nat
            /\ vget xb (nth i idx' 0%nat) = nth i (filter fin xb) 0)
      /\ (forall i j, (i < j < cnt)%nat -> (nth i idx' 0 < nth j idx' 0)%nat)
  end.
Proof.
  intros Hx Hv Hi.
  pose proof (setup_box_loop_inv fin neg xb n vals idx ltac:(lia) ltac:(lia)) as Hinv.
  destruct (setup_box_loop fin neg xb n vals idx) as [[[cnt i_b] vals'] idx'].
  destruct Hinv as (Hc & _ & _ & _ & Hval).
  subst n. pose proof (finite_idx_count fin xb) as Hcount.
  split; [congruence|]. split.
  - intros i Hlt. destruct (Hval i Hlt) as [Hidx Hv'].
    rewrite finite_idx_nth_value by lia. rewrite Hidx, Hv'.
    split; [reflexivity|]. split; [|reflexivity].
    apply finite_idx_bound. lia.
  - intros i j Hij. destruct (Hval i ltac:(lia)) as [Hi' _]. destruct (Hval j ltac:(lia)) as [Hj' _].
    rewrite Hi', Hj'. apply finite_idx_increasing. lia.
Qed.

(** C8. After the box setup of [setup_impl] (the bound vectors have length
    [n], as do the arrays [resize]d for them), [n_lb] is the number of
    entries of [x_lb] strictly above [-PIQP_INF], [x_lb_n[i]] is the negation
    of the [i]-th finite lower bound, [x_lb_idx[i]] is in [[0, n)] and points
    at that bound, and [x_lb_idx] is strictly increasing on [[0, n_lb)];
    symmetrically for [x_ub] (entries strictly below [PIQP_INF], stored
    as they are). *)
Theorem setup_box_bounds (d : Data.t) (xl xu : vec)
    (Hxl : length xl = Data.n d) (Hxu : length xu = Data.n d)
    (Hlv : length (Data.x_lb_n d) = Data.n d) (Hli : length (Data.x_lb_idx d) = Data.n d)
    (Huv : length (Data.x_ub d) = Data.n d) (Hui : length (Data.x_ub_idx d) = Data.n d) :
  let d1 := setup_ub_data (Some xu) (setup_lb_data (Some xl) d) in
  Data.n_lb d1 = length (filter lb_finite xl)
  /\ (forall i, (i < Data.n_lb d1)%nat ->
        vget (Data.x_lb_n d1) i = - nth i (filter lb_finite xl) 0
        /\ (nth i (Data.x_lb_idx d1) 0 < Data.n d)%nat
        /\ vget xl (nth i (Data.x_lb_idx d1) 0%nat) = nth i (filter lb_finite xl) 0)
  /\ (forall i j, (i < j < Data.n_lb d1)%nat ->
        (nth i (Data.x_lb_idx d1) 0 < nth j (Data.x_lb_idx d1) 0)%nat)
  /\ Data.n_ub d1 = length (filter ub_finite xu)
  /\ (forall i, (i < Data.n_ub d1)%nat ->
        vget (Data.x_ub d1) i = nth i (filter ub_finite xu) 0
        /\ (nth i (Data.x_ub_idx d1) 0 < Data.n d)%nat
        /\ vget xu (nth i (Data.x_ub_idx d1) 0%nat) = nth i (filter ub_finite xu) 0)
  /\ (forall i j, (i < j < Data.n_ub d1)%nat ->
        (nth i (Data.x_ub_idx d1) 0 < nth j (Data.x_ub_idx d1) 0)%nat).
Proof.
  intro d1. subst d1. unfold setup_lb_data.
  pose proof (setup_box_loop_layout lb_finite true xl (Data.n d) (Data.x_lb_n d) (Data.x_lb_idx d)
                Hxl Hlv Hli) as Hlb.
  destruct (setup_box_loop lb_finite true xl (Data.n d) (Data.x_lb_n d) (Data.x_lb_idx d))
    as [[[cl il] vl] xil].
  unfold setup_ub_data. cbn [Data.n Data.x_ub Data.x_ub_idx].
  pose proof (setup_box_loop_layout ub_finite false xu (Data.n d) (Data.x_ub d) (Data.x_ub_idx d)
                Hxu Huv Hui) as Hub.
  destruct (setup_box_loop ub_finite false xu (Data.n d) (Data.x_ub d) (Data.x_ub_idx d))
    as [[[cu iu] vu] xiu].
  cbn [Data.n_lb Data.n_ub Data.x_lb_n Data.x_ub Data.x_lb_idx Data.x_ub_idx Data.n].
  destruct Hlb as (Hl1 & Hl2 & Hl3). destruct Hub as (Hu1 & Hu2 & Hu3).
  split; [exact Hl1|]. split; [exact Hl2|]. split; [exact Hl3|].
  split; [exact Hu1|]. split; [exact Hu2|]. exact Hu3.
Qed.

(** ** The reverse swaps of [restore_box_dual] *)

Lemma nth_vswap {A} (dflt : A) (v : list A) (i j p : nat) :
  (i < length v)%nat -> (j < length v)%nat ->
  nth p (vswap dflt v i j) dflt =
  if (p =? j)%nat then nth i v dflt else if (p =? i)%nat then nth j v dflt else nth p v dflt.
Proof.
  intros Hi Hj. unfold vswap. rewrite !nth_vset, length_vset.
  rewrite (proj2 (Nat.ltb_lt i (length v)) Hi), (proj2 (Nat.ltb_lt j (length v)) Hj).
  rewrite !andb_true_r.
  destruct (Nat.eqb_spec j p) as [->|Hjp]; [rewrite Nat.eqb_refl; reflexivity|].
  rewrite (proj2 (Nat.eqb_neq p j)) by congruence.
  destruct (Nat.eqb_spec i p) as [->|Hip]; [rewrite Nat.eqb_refl; reflexivity|].
  rewrite (proj2 (Nat.eqb_neq p i)) by congruence. reflexivity.
Qed.

Lemma length_vswap {A} (dflt : A) (v : list A) (i j : nat) :
  length (vswap dflt v i j) = length v.
Proof. unfold vswap. rewrite !length_vset. reflexivity. Qed.

Lemma increasing_ge (idx : list nat) (k : nat) :
  (forall i j, (i < j < k)%nat -> (nth i idx 0 < nth j idx 0)%nat) ->
  forall i, (i < k)%nat -> (i <= nth i idx 0)%nat.
Proof.
  intros Hinc i. induction i as [|i IH]; intro H; [lia|].
  specialize (IH ltac:(lia)). specialize (Hinc i (S i) ltac:(lia)). lia.
Qed.

(** [swap_back] puts the [i]-th entry at [idx[i]] and the tail value
    everywhere else, for a strictly increasing in-range [idx]. *)
Lemma swap_back_layout {A} (dflt fill : A) (k n : nat) (idx : list nat) (v : list A) :
  length v = n -> (k <= n)%nat ->
  (forall i, (i < k)%nat -> (nth i idx 0 < n)%nat) ->
  (forall i j, (i < j < k)%nat -> (nth i idx 0 < nth j idx 0)%nat) ->
  (forall j, (k <= j < n)%nat -> nth j v dflt = fill) ->
  length (swap_back dflt k idx v) = n
  /\ (forall i, (i < k)%nat -> nth (nth i idx 0%nat) (swap_back dflt k idx v) dflt = nth i v dflt)
  /\ (forall j, (j < n)%nat -> (forall i, (i < k)%nat -> nth i idx 0%nat <> j) ->
        nth j (swap_back dflt k idx v) dflt = fill).
Proof.
  intros Hlen Hk Hrange Hinc Htail.
  pose proof (increasing_ge idx k Hinc) as Hge.
  set (step := fun acc i => vswap dflt acc i (nth i idx 0%nat)).
  assert (Hinv : forall m, (m <= k)%nat ->
    let w := fold_left step (rev (seq (k - m) m)) v in
    length w = n
    /\ (forall p, (p < k - m)%nat -> nth p w dflt = nth p v dflt)
    /\ (forall i, (k - m <= i < k)%nat -> nth (nth i idx 0%nat) w dflt = nth i v dflt)
    /\ (forall p, (k - m <= p < n)%nat ->
          (forall i, (k - m <= i < k)%nat -> nth i idx 0%nat <> p) -> nth p w dflt = fill)).
  { induction m as [|m IH]; intro Hm.
    - rewrite Nat.sub_0_r. cbn. split; [exact Hlen|]. split; [reflexivity|].
      split; [intros; lia|]. intros p Hp _. apply Htail. lia.
    - specialize (IH ltac:(lia)). cbv zeta in *.
      set (t := (k - S m)%nat).
      assert (Hseq : seq t (S m) = t :: seq (k - m) m)
        by (unfold t; simpl; f_equal; f_equal; lia).
      rewrite Hseq. cbn [rev]. rewrite fold_left_app. cbn [fold_left].
      destruct IH as (Hl & Hb & Hc & Hd).
      set (w := fold_left step (rev (seq (k - m) m)) v) in *.
      set (q := nth t idx 0%nat).
      assert (Hq : (t <= q < n)%nat) by (split; [apply Hge | apply Hrange]; unfold t; lia).
      assert (Hqi : forall i, (t < i < k)%nat -> (q < nth i idx 0)%nat)
        by (intros i Hi; apply Hinc; lia).
      change (step w t) with (vswap dflt w t q).
      split; [rewrite length_vswap; exact Hl|].
      split; [|split].
      + intros p Hp. rewrite nth_vswap by lia.
        rewrite (proj2 (Nat.eqb_neq p q)) by lia. rewrite (proj2 (Nat.eqb_neq p t)) by lia.
        apply Hb. lia.
      + intros i Hi. rewrite nth_vswap by lia.
        destruct (Nat.eq_dec i t) as [->|Hit].
        * fold q. rewrite Nat.eqb_refl. apply Hb. unfold t; lia.
        * pose proof (Hqi i ltac:(lia)). pose proof (Hge i ltac:(lia)).
          rewrite (proj2 (Nat.eqb_neq (nth i idx 0%nat) q)) by lia.
          rewrite (proj2 (Nat.eqb_neq (nth i idx 0%nat) t)) by lia.
          apply Hc. lia.
      + intros p Hp Hnot. rewrite nth_vswap by lia.
        assert (Hpq : p <> q) by (intro E; apply (Hnot t); [lia | exact (eq_sym E)]).
        rewrite (proj2 (Nat.eqb_neq p q)) by exact Hpq.
        destruct (Nat.eq_dec p t) as [->|Hpt].
        * rewrite Nat.eqb_refl. apply Hd.
          -- unfold t in *; lia.
          -- intros i Hi E. pose proof (Hqi i ltac:(lia)). lia.
        * rewrite (proj2 (Nat.eqb_neq p t)) by exact Hpt. apply Hd.
          -- lia.
          -- intros i Hi. apply Hnot. lia. }
  destruct (Hinv k (Nat.le_refl k)) as (Hl & _ & Hc & Hd).
  rewrite Nat.sub_diag in Hl, Hc, Hd. unfold swap_back. fold step.
  split; [exact Hl|]. split.
  - intros i Hi. apply Hc. lia.
  - intros j Hj Hnot. apply Hd; [lia|]. intros i Hi. apply Hnot. lia.
Qed.

Lemma length_vfill_tail {A} (k : nat) (a : A) (v : list A) : length (vfill_tail k a v) = length v.
Proof.
  unfold vfill_tail. rewrite length_app, length_map, length_firstn, length_skipn. lia.
Qed.

Lemma nth_vfill_tail {A} (k : nat) (a d : A) (v : list A) (j : nat) :
  (k <= length v)%nat ->
  nth j (vfill_tail k a v) d = if (j <? k)%nat then nth j v d else if (j <? length v)%nat then a else d.
Proof.
  intro Hk. unfold vfill_tail.
  destruct (Nat.ltb_spec j k) as [Hj|Hj].
  - rewrite app_nth1 by (rewrite length_firstn; lia). rewrite nth_firstn. rewrite (proj2 (Nat.ltb_lt j k) Hj). reflexivity.
  - rewrite app_nth2 by (rewrite length_firstn; lia). rewrite length_firstn.
    replace (Nat.min k (length v)) with k by lia.
    destruct (Nat.ltb_spec j (length v)) as [Hl|Hl].
    + assert (Hc : forall (l : list A) i, (i < length l)%nat -> nth i (map (fun _ => a) l) d = a).
      { induction l as [|x l IH]; intros [|i] Hi; cbn in *; try lia; auto with arith. }
      apply Hc. rewrite length_skipn. lia.
    + apply nth_overflow. rewrite length_map, length_skipn. lia.
Qed.

(** One vector of [restore_box_dual]: tail fill, then the reverse swaps. *)
Lemma restore_one_layout (n k : nat) (idx : list nat) (fill : Q) (v : vec) :
  length v = n -> (k <= n)%nat ->
  (forall i, (i < k)%nat -> (nth i idx 0 < n)%nat) ->
  (forall i j, (i < j < k)%nat -> (nth i idx 0 < nth j idx 0)%nat) ->
  dense_layout n k idx fill v (swap_back 0 k idx (vfill_tail k fill v)).
Proof.
  intros Hl Hk Hr Hinc.
  destruct (swap_back_layout 0 fill k n idx (vfill_tail k fill v)) as (H1 & H2 & H3).
  - rewrite length_vfill_tail. exact Hl.
  - exact Hk.
  - exact Hr.
  - exact Hinc.
  - intros j Hj. rewrite nth_vfill_tail by lia.
    rewrite (proj2 (Nat.ltb_ge j k)) by lia. rewrite (proj2 (Nat.ltb_lt j (length v))) by lia.
    reflexivity.
  - split; [exact H1|]. split.
    + intros i Hi. unfold vget. rewrite H2 by exact Hi.
      rewrite nth_vfill_tail by lia. rewrite (proj2 (Nat.ltb_lt i k)) by exact Hi. reflexivity.
    + intros j Hj Hnot. unfold vget. apply H3; assumption.
Qed.

(** C9. [restore_box_dual] (the last step of every [solve]) expands each of
    [z_lb], [nu_lb] (tail [0]) and [s_lb] (tail [+infinity]) to the dense
    layout: the [i]-th compressed entry lands at [x_lb_idx[i]] for
    [i < n_lb], every other position holds the tail value; likewise on the
    upper side with [x_ub_idx].  It holds for the compressed arrays setup
    builds (C8: indices in range and strictly increasing). *)
Theorem restore_box_dual_layout (t_infinity : Q) (d : Data.t) (r : Result.t)
    (Hklb : (Data.n_lb d <= Data.n d)%nat) (Hkub : (Data.n_ub d <= Data.n d)%nat)
    (Hrlb : forall i, (i < Data.n_lb d)%nat -> (nth i (Data.x_lb_idx d) 0 < Data.n d)%nat)
    (Hrub : forall i, (i < Data.n_ub d)%nat -> (nth i (Data.x_ub_idx d) 0 < Data.n d)%nat)
    (Hilb : forall i j, (i < j < Data.n_lb d)%nat ->
              (nth i (Data.x_lb_idx d) 0 < nth j (Data.x_lb_idx d) 0)%nat)
    (Hiub : forall i j, (i < j < Data.n_ub d)%nat ->
              (nth i (Data.x_ub_idx d) 0 < nth j (Data.x_ub_idx d) 0)%nat)
    (Hz_lb : length (Result.z_lb r) = Data.n d) (Hs_lb : length (Result.s_lb r) = Data.n d)
    (Hnu_lb : length (Result.nu_lb r) = Data.n d)
    (Hz_ub : length (Result.z_ub r) = Data.n d) (Hs_ub : length (Result.s_ub r) = Data.n d)
    (Hnu_ub : length (Result.nu_ub r) = Data.n d) :
  let r' := restore_box_dual t_infinity d r in
  dense_layout (Data.n d) (Data.n_lb d) (Data.x_lb_idx d) 0 (Result.z_lb r) (Result.z_lb r')
  /\ dense_layout (Data.n d) (Data.n_lb d) (Data.x_lb_idx d) t_infinity (Result.s_lb r) (Result.s_lb r')
  /\ dense_layout (Data.n d) (Data.n_lb d) (Data.x_lb_idx d) 0 (Result.nu_lb r) (Result.nu_lb r')
  /\ dense_layout (Data.n d) (Data.n_ub d) (Data.x_ub_idx d) 0 (Result.z_ub r) (Result.z_ub r')
  /\ dense_layout (Data.n d) (Data.n_ub d) (Data.x_ub_idx d) t_infinity (Result.s_ub r) (Result.s_ub r')
  /\ dense_layout (Data.n d) (Data.n_ub d) (Data.x_ub_idx d) 0 (Result.nu_ub r) (Result.nu_ub r').
Proof.
  cbn zeta. unfold restore_box_dual. cbn [Result.z_lb Result.s_lb Result.nu_lb Result.z_ub Result.s_ub Result.nu_ub].
  split; [|split; [|split; [|split; [|split]]]]; apply restore_one_layout; assumption.
Qed.

(** The two early returns of [solve_impl], seen through [solve]. *)
Lemma solve_not_setup {K : Type} {KK : KKT K} {PC : Preconditioner}
    (verify : Settings.t -> bool) (t_infinity : Q) (fuel : nat) (st : Solver.t K) :
  Solver.setup_done st = false ->
  let st1 := Solver.upd_info (Info.set_status PIQP_UNSOLVED) st in
  solve verify t_infinity fuel st =
    Some (PIQP_UNSOLVED, Solver.set_result (restore_box_dual t_infinity (Solver.data st1)
                           (unscale_results (Solver.data st1) (Solver.result st1))) st1).
Proof. intro Hs. unfold solve, solve_impl, solve_init. rewrite Hs. reflexivity. Qed.

Lemma solve_invalid_settings {K : Type} {KK : KKT K} {PC : Preconditioner}
    (verify : Settings.t -> bool) (t_infinity : Q) (fuel : nat) (st : Solver.t K) :
  Solver.setup_done st = true -> verify (Solver.settings st) = false ->
  let st1 := Solver.upd_info (Info.set_status PIQP_INVALID_SETTINGS) st in
  solve verify t_infinity fuel st =
    Some (PIQP_INVALID_SETTINGS, Solver.set_result (restore_box_dual t_infinity (Solver.data st1)
                                   (unscale_results (Solver.data st1) (Solver.result st1))) st1).
Proof. intros Hs Hv. unfold solve, solve_impl, solve_init. rewrite Hs, Hv. reflexivity. Qed.

(** C10. [solve] always post-processes the result of [solve_impl] with
    [unscale_results] and [restore_box_dual], whatever the status; in
    particular a solve that returns [UNSOLVED] (not set up) or
    [INVALID_SETTINGS] still transforms the stored result. So a solve with
    invalid settings after a finished solve applies both steps a second
    time to the result that solve left: in run P (one finite lower bound,
    on variable [1]) the first solve leaves [z_lb = (0, 0.15)] and
    [s_lb = (10^40, 0.15)] in natural order, and a second solve after the
    settings are changed to [tau = 2] returns [INVALID_SETTINGS] with
    [z_lb = (0, 0)] and [s_lb = (10^40, 10^40)]. *)
Theorem solve_always_postprocesses {K : Type} (KK : KKT K) (PC : Preconditioner)
    (verify : Settings.t -> bool) (t_infinity : Q) (fuel : nat) (st : Solver.t K) :
  let post := fun (st1 : Solver.t K) =>
    Solver.set_result (restore_box_dual t_infinity (Solver.data st1)
                         (unscale_results (Solver.data st1) (Solver.result st1))) st1 in
  solve verify t_infinity fuel st =
    match solve_impl verify fuel st with
    | None => None
    | Some (s, st1) => Some (s, post st1)
    end
  /\ (Solver.setup_done st = false ->
      solve verify t_infinity fuel st =
        Some (PIQP_UNSOLVED, post (Solver.upd_info (Info.set_status PIQP_UNSOLVED) st)))
  /\ (Solver.setup_done st = true -> verify (Solver.settings st) = false ->
      solve verify t_infinity fuel st =
        Some (PIQP_INVALID_SETTINGS, post (Solver.upd_info (Info.set_status PIQP_INVALID_SETTINGS) st)))
  /\ (forall (fuel' : nat) (s1 : Status) (st1 : Solver.t K) (set' : Settings.t),
        solve verify t_infinity fuel st = Some (s1, st1) ->
        Solver.setup_done st1 = true -> verify set' = false ->
        exists st_i, solve_impl verify fuel st = Some (s1, st_i) /\ st1 = post st_i
          /\ solve verify t_infinity fuel' (Solver.set_settings set' st1)
             = Some (PIQP_INVALID_SETTINGS,
                     post (Solver.upd_info (Info.set_status PIQP_INVALID_SETTINGS)
                             (Solver.set_settings set' (post st_i)))))
  /\ (exists s1 st1 st2,
        solve (KK := kkt_P) (PC := precond_id) verify_settings_model T_INF 5 setup_P = Some (s1, st1)
        /\ solve (KK := kkt_P) (PC := precond_id) verify_settings_model T_INF 5
             (Solver.set_settings (bad_tau (Solver.settings st1)) st1)
           = Some (PIQP_INVALID_SETTINGS, st2)
        /\ map Qred (Result.z_lb (Solver.result st1)) = [0; 3 # 20]
        /\ Result.z_lb (Solver.result st2) = [0; 0]
        /\ map Qred (Result.s_lb (Solver.result st1)) = [T_INF; 3 # 20]
        /\ Result.s_lb (Solver.result st2) = [T_INF; T_INF]).
Proof.
  cbn zeta. split; [|split; [|split; [|split]]].
  - reflexivity.
  - apply solve_not_setup.
  - apply solve_invalid_settings.
  - intros fuel' s1 st1 set' H Hs Hv.
    unfold solve in H at 1. destruct (solve_impl verify fuel st) as [[s st_i]|] eqn:E; [|discriminate].
    injection H as <- <-. exists st_i. split; [reflexivity|]. split; [reflexivity|].
    apply solve_invalid_settings; [exact Hs | exact Hv].
  - set (st1 := match solve (KK:=kkt_P) (PC:=precond_id) verify_settings_model T_INF 5 setup_P with
                 | Some (_, st') => st' | None => setup_P end).
    set (st2 := match solve (KK:=kkt_P) (PC:=precond_id) verify_settings_model T_INF 5
                        (Solver.set_settings (bad_tau (Solver.settings st1)) st1) with
                 | Some (_, st') => st' | None => st1 end).
    exists PIQP_MAX_ITER_REACHED, st1, st2. unfold st2, st1.
    repeat match goal with |- _ /\ _ => split end; vm_compute; reflexivity.
Qed.

(** ** The convergence test (C1) *)

Lemma converged_pass_top {K : Type} {PC : Preconditioner} (st : Solver.t K) :
  converged (pass_top st) = converged_spec st.
Proof.
  unfold converged_spec, converged, pass_top.
  set (st1 := if (Info.iter (Solver.info st) =? 0)%Z then _ else st).
  assert (Hd : Solver.data st1 = Solver.data st) by (unfold st1; destruct (_ =? 0)%Z; reflexivity).
  assert (Hs : Solver.settings st1 = Solver.settings st) by (unfold st1; destruct (_ =? 0)%Z; reflexivity).
  assert (Hm : Info.mu (Solver.info st1) = Info.mu (Solver.info st)) by (unfold st1; destruct (_ =? 0)%Z; reflexivity).
  clearbody st1.
  destruct (Settings.verbose _); proj_simpl; rewrite ?Hd, ?Hs, ?Hm; reflexivity.
Qed.

Lemma pass_factor_not_solved {K : Type} {KK : KKT K} {PC : Preconditioner} (st st' : Solver.t K) :
  pass_factor st <> Ret PIQP_SOLVED st'.
Proof.
  unfold pass_factor. destruct (kkt_factorize _ _) as [k ok].
  destruct ok; [discriminate|].
  destruct (_ <? _)%Z; discriminate.
Qed.

Lemma outer_pass_solved {K : Type} {KK : KKT K} {PC : Preconditioner} (st st' : Solver.t K) :
  outer_pass st = Ret PIQP_SOLVED st' <->
  converged_spec st = true /\ st' = Solver.upd_info (Info.set_status PIQP_SOLVED) (pass_top st).
Proof.
  rewrite <- converged_pass_top. unfold outer_pass, pass_head.
  destruct (converged (pass_top st)).
  - split; [intro H; inversion H; auto | intros [_ ->]; reflexivity].
  - split; [|intros [H _]; discriminate].
    destruct (primal_infeasible _); [discriminate|].
    destruct (dual_infeasible _); [discriminate|].
    intro H. exfalso. exact (pass_factor_not_solved _ _ H).
Qed.

Lemma loop_reach_trans {K : Type} {KK : KKT K} {PC : Preconditioner} (a b c : Solver.t K) :
  loop_reach a b -> loop_reach b c -> loop_reach a c.
Proof.
  intros Hab Hbc. induction Hbc as [|st1 st2 _ IH Hi Ho].
  - exact Hab.
  - exact (reach_next a st1 st2 IH Hi Ho).
Qed.

Lemma loop_reach_run {K : Type} {KK : KKT K} {PC : Preconditioner} (st0 st : Solver.t K) :
  loop_reach st0 st -> exists g, forall f, run_loop (g + f) st0 = run_loop f st.
Proof.
  induction 1 as [|st1 st2 _ [g IH] Hi Ho].
  - exists 0%nat. reflexivity.
  - exists (S g). intro f. replace (S g + f)%nat with (g + S f)%nat by lia. rewrite IH. cbn [run_loop].
    rewrite (proj2 (Z.ltb_lt _ _) Hi), Ho. reflexivity.
Qed.

(** C1. Once the outer loop is entered (in [st0], the state [solve_init]
    hands to it), [solve_impl] (hence [solve]) returns [SOLVED] exactly when,
    at the top of some pass the loop reaches with [iter < max_iter],
    [primal_inf < feas_tol_abs + feas_tol_rel * primal_rel_inf],
    [dual_inf < feas_tol_abs + feas_tol_rel * dual_rel_inf] and
    [mu < dual_tol], where [primal_inf] is the max of the unscaled infinity
    norms of [ry_nr], [rz_nr], [rz_lb_nr.head(n_lb)], [rz_ub_nr.head(n_ub)]
    and [dual_inf] the unscaled infinity norm of [rx_nr] ([converged_spec]);
    the returned state is the one of that test. *)
Theorem solved_iff_converged {K : Type} (KK : KKT K) (PC : Preconditioner)
    (verify : Settings.t -> bool) (fuel0 : nat) (st st0 : Solver.t K) :
  (solve_init verify fuel0 st = Some (Cont st0) -> solve_impl verify fuel0 st = run_loop fuel0 st0)
  /\ (forall fuel st', run_loop fuel st0 = Some (PIQP_SOLVED, st') ->
        exists st1, loop_reach st0 st1
          /\ (Info.iter (Solver.info st1) < Settings.max_iter (Solver.settings st1))%Z
          /\ converged_spec st1 = true
          /\ st' = Solver.upd_info (Info.set_status PIQP_SOLVED) (pass_top st1))
  /\ (forall st1, loop_reach st0 st1 ->
        (Info.iter (Solver.info st1) < Settings.max_iter (Solver.settings st1))%Z ->
        converged_spec st1 = true ->
        exists fuel, run_loop fuel st0
          = Some (PIQP_SOLVED, Solver.upd_info (Info.set_status PIQP_SOLVED) (pass_top st1))).
Proof.
  split; [|split].
  - intro H. unfold solve_impl. rewrite H. reflexivity.
  - intro fuel. revert st0. induction fuel as [|f IH]; intros st0 st' H; [discriminate|].
    cbn [run_loop] in H.
    destruct (Z.ltb_spec (Info.iter (Solver.info st0)) (Settings.max_iter (Solver.settings st0))) as [Hi|Hi];
      [|discriminate].
    destruct (outer_pass st0) as [s st2|st2] eqn:Ho.
    + injection H as -> ->. apply outer_pass_solved in Ho. destruct Ho as [Hc ->].
      exists st0. split; [constructor|]. split; [exact Hi|]. split; [exact Hc|reflexivity].
    + destruct (IH st2 st' H) as (st1 & Hr & Hi1 & Hc & Heq).
      exists st1. split; [|exact (conj Hi1 (conj Hc Heq))].
      apply (loop_reach_trans _ st2); [|exact Hr].
      exact (reach_next st0 st0 st2 (reach_here st0) Hi Ho).
  - intros st1 Hr Hi Hc. destruct (loop_reach_run st0 st1 Hr) as [g Hg].
    exists (g + 1)%nat. rewrite Hg. cbn [run_loop].
    rewrite (proj2 (Z.ltb_lt _ _) Hi).
    assert (Ho : outer_pass st1 = Ret PIQP_SOLVED (Solver.upd_info (Info.set_status PIQP_SOLVED) (pass_top st1)))
      by (apply outer_pass_solved; auto).
    rewrite Ho. reflexivity.
Qed.

(** ** Factorisation retries (C2) *)

Lemma length_fill_head (k : nat) (f : nat -> Q) (u : vec) : length (fill_head k f u) = length u.
Proof.
  unfold fill_head. induction k as [|k IH]; [reflexivity|].
  rewrite fold_seq_S, length_vset. exact IH.
Qed.

Lemma nth_fill_head (k : nat) (f : nat -> Q) (u : vec) (j : nat) :
  nth j (fill_head k f u) 0 = if ((j <? k) && (j <? length u))%nat then f j else nth j u 0.
Proof.
  induction k as [|k IH]; [reflexivity|].
  unfold fill_head at 1. rewrite fold_seq_S, nth_vset. fold (fill_head k f u).
  rewrite length_fill_head, IH.
  destruct (Nat.eqb_spec k j) as [->|Hne]; cbn [andb].
  - rewrite Nat.ltb_irrefl, (proj2 (Nat.ltb_lt j (S j))) by lia. cbn [andb].
    destruct (j <? length u)%nat; reflexivity.
  - destruct (Nat.ltb_spec j k); destruct (Nat.ltb_spec j (S k)); try lia; reflexivity.
Qed.

Lemma vhead_fill_head (k : nat) (f : nat -> Q) (u u' : vec) :
  length u = length u' -> vhead k (fill_head k f u) = vhead k (fill_head k f u').
Proof.
  intro Hl. unfold vhead. apply nth_ext with (d := 0) (d' := 0).
  - rewrite !length_firstn, !length_fill_head, Hl. reflexivity.
  - intros j Hj. rewrite length_firstn, length_fill_head in Hj.
    rewrite !nth_firstn, !nth_fill_head, <- Hl.
    rewrite (proj2 (Nat.ltb_lt j k)), (proj2 (Nat.ltb_lt j (length u))) by lia. reflexivity.
Qed.

Lemma primal_inf_of_view {PC : Preconditioner} (d : Data.t) (w w' : Work.t) :
  nr_view d w = nr_view d w' -> primal_inf_of d w = primal_inf_of d w'.
Proof. unfold nr_view, primal_inf_of. intro H. injection H. intros. congruence. Qed.

Lemma dual_inf_of_view {PC : Preconditioner} (d : Data.t) (w w' : Work.t) :
  nr_view d w = nr_view d w' -> dual_inf_of w = dual_inf_of w'.
Proof. unfold nr_view, dual_inf_of. intro H. injection H. intros. congruence. Qed.

Lemma nr_view_set_rx (d : Data.t) (v : vec) (w : Work.t) : nr_view d (Work.set_rx v w) = nr_view d w.
Proof. reflexivity. Qed.

Lemma nr_view_set_reg (d : Data.t) (a b c e f : vec) (w : Work.t) :
  nr_view d (Work.set_reg a b c e f w) = nr_view d w.
Proof. reflexivity. Qed.

Lemma update_nr_set_info {PC : Preconditioner} (d : Data.t) (i : Info.t) (r : Result.t) (w : Work.t) :
  update_nr_residuals d (Result.set_info i r) w = update_nr_residuals d r w.
Proof. reflexivity. Qed.

Lemma set_info_twice (a b : Info.t) (r : Result.t) :
  Result.set_info a (Result.set_info b r) = Result.set_info a r.
Proof. reflexivity. Qed.

Lemma nr_view_update_nr {PC : Preconditioner} (d : Data.t) (r : Result.t) (w w' : Work.t) :
  length (Work.rz_lb_nr w) = length (Work.rz_lb_nr w') ->
  length (Work.rz_ub_nr w) = length (Work.rz_ub_nr w') ->
  nr_view d (update_nr_residuals d r w) = nr_view d (update_nr_residuals d r w').
Proof.
  intros Hlb Hub. unfold nr_view, update_nr_residuals. cbn zeta.
  cbn [Work.rx_nr Work.ry_nr Work.rz_nr Work.rz_lb_nr Work.rz_ub_nr Work.primal_rel_inf Work.dual_rel_inf].
  rewrite (vhead_fill_head (Data.n_lb d) _ _ _ Hlb), (vhead_fill_head (Data.n_ub d) _ _ _ Hub).
  reflexivity.
Qed.

Lemma length_update_nr {PC : Preconditioner} (d : Data.t) (r : Result.t) (w : Work.t) :
  length (Work.rz_lb_nr (update_nr_residuals d r w)) = length (Work.rz_lb_nr w)
  /\ length (Work.rz_ub_nr (update_nr_residuals d r w)) = length (Work.rz_ub_nr w).
Proof. split; apply length_fill_head. Qed.

(** What [pass_top] leaves in the workspace for the test. *)
Lemma work_pass_top {K : Type} {PC : Preconditioner} (d : Data.t) (st : Solver.t K) :
  let W := if (Info.iter (Solver.info st) =? 0)%Z
           then update_nr_residuals (Solver.data st) (Solver.result st) (Solver.work st)
           else Solver.work st in
  nr_view d (Solver.work (pass_top st)) = nr_view d W
  /\ Work.rz_lb_nr (Solver.work (pass_top st)) = Work.rz_lb_nr W
  /\ Work.rz_ub_nr (Solver.work (pass_top st)) = Work.rz_ub_nr W.
Proof.
  cbv zeta. unfold pass_top.
  set (st1 := if (Info.iter (Solver.info st) =? 0)%Z then _ else st).
  set (W := if (Info.iter (Solver.info st) =? 0)%Z then _ else Solver.work st).
  assert (Hw : Solver.work st1 = W) by (unfold st1, W; destruct (_ =? 0)%Z; reflexivity).
  clearbody st1 W.
  destruct (Settings.verbose _); proj_simpl; rewrite Hw; (split; [reflexivity|]); split; reflexivity.
Qed.

Lemma converged_spec_view {K : Type} {PC : Preconditioner} (st st' : Solver.t K) :
  Solver.settings st' = Solver.settings st ->
  Solver.data st' = Solver.data st ->
  Info.mu (Solver.info st') = Info.mu (Solver.info st) ->
  nr_view (Solver.data st) (Solver.work (pass_top st')) = nr_view (Solver.data st) (Solver.work (pass_top st)) ->
  converged_spec st' = converged_spec st.
Proof.
  intros Hs Hd Hm Hv. unfold converged_spec. rewrite Hs, Hd, Hm.
  rewrite (primal_inf_of_view _ _ _ Hv), (dual_inf_of_view _ _ _ Hv).
  unfold nr_view in Hv. injection Hv. intros E1 E2 _ _ _ _ _. rewrite E1, E2. reflexivity.
Qed.

(** The state the factorisation of a pass starts from. *)
Lemma outer_pass_cont {K : Type} {KK : KKT K} {PC : Preconditioner} (st st' : Solver.t K) :
  outer_pass st = Cont st' ->
  converged_spec st = false
  /\ pass_factor (stage_scalings (Solver.upd_info bump_iter (regularize (pass_top st)))) = Cont st'.
Proof.
  rewrite <- converged_pass_top. unfold outer_pass, pass_head.
  destruct (converged (pass_top st)); [discriminate|].
  destruct (primal_infeasible _); [discriminate|].
  destruct (dual_infeasible _); [discriminate|].
  intro H. split; [reflexivity|exact H].
Qed.

Lemma outer_pass_ret_status {K : Type} {KK : KKT K} {PC : Preconditioner} (st st' : Solver.t K) (s : Status) :
  outer_pass st = Ret s st' ->
  s = PIQP_SOLVED \/ s = PIQP_PRIMAL_INFEASIBLE \/ s = PIQP_DUAL_INFEASIBLE \/ s = PIQP_NUMERICS.
Proof.
  unfold outer_pass, pass_head.
  destruct (converged _); [intro H; injection H; auto|].
  destruct (primal_infeasible _); [intro H; injection H; auto|].
  destruct (dual_infeasible _); [intro H; injection H; auto|].
  unfold pass_factor. destruct (kkt_factorize _ _) as [k ok]. destruct ok; [discriminate|].
  destruct (_ <? _)%Z; [discriminate|]. intro H; injection H; auto.
Qed.

Lemma pass_top_frame {K : Type} {PC : Preconditioner} (st : Solver.t K) :
  Solver.settings (pass_top st) = Solver.settings st
  /\ Solver.data (pass_top st) = Solver.data st
  /\ Solver.result (pass_top st) = Result.set_info (Solver.info (pass_top st)) (Solver.result st)
  /\ Info.factor_retires (Solver.info (pass_top st)) = Info.factor_retires (Solver.info st)
  /\ Info.iter (Solver.info (pass_top st)) = Info.iter (Solver.info st)
  /\ Info.mu (Solver.info (pass_top st)) = Info.mu (Solver.info st).
Proof.
  unfold pass_top. destruct (Info.iter (Solver.info st) =? 0)%Z; proj_simpl;
    destruct (Settings.verbose (Solver.settings st));
    (split; [reflexivity|]); (split; [reflexivity|]); (split; [reflexivity|]);
    (split; [reflexivity|]); split; reflexivity.
Qed.

(** Splits the [if]s and pair matches of a step. *)
Ltac split_step :=
  repeat match goal with
  | |- context [step_lengths ?a ?b ?c] => destruct (step_lengths a b c)
  | |- context [if Qltb ?a ?b then _ else _] => destruct (Qltb a b)
  end.

Lemma ipm_step_retires {K : Type} {KK : KKT K} {PC : Preconditioner} (st : Solver.t K) :
  Info.factor_retires (Solver.info (ipm_step st)) = Info.factor_retires (Solver.info st).
Proof. unfold ipm_step. split_step; reflexivity. Qed.

Lemma eq_step_retires {K : Type} {KK : KKT K} {PC : Preconditioner} (st : Solver.t K) :
  Info.factor_retires (Solver.info (eq_step st)) = Info.factor_retires (Solver.info st).
Proof. unfold eq_step. split_step; reflexivity. Qed.

Lemma retry_frame {K : Type} {KK : KKT K} {PC : Preconditioner} (st0 : Solver.t K) (k : K) :
  let st1 := stage_scalings (Solver.upd_info bump_iter (regularize st0)) in
  let st' := Solver.upd_info (retry_info true (Solver.settings st0)) (Solver.set_kkt k st1) in
  Solver.settings st' = Solver.settings st0
  /\ Solver.data st' = Solver.data st0
  /\ Solver.result st' = Result.set_info (Solver.info st') (Solver.result st0)
  /\ (exists a b c e f, Solver.work st' = Work.set_reg a b c e f (Solver.work st0))
  /\ Info.iter (Solver.info st') = Info.iter (Solver.info st0)
  /\ Info.mu (Solver.info st') = Info.mu (Solver.info st0).
Proof.
  cbn zeta. unfold stage_scalings, regularize, retry_info, bump_iter. proj_simpl.
  split; [reflexivity|]. split; [reflexivity|]. split; [reflexivity|].
  split; [eexists _, _, _, _, _; reflexivity|].
  destruct (_ || _); proj_simpl; split; try reflexivity; lia.
Qed.

(** A retry of the main loop restores [iter] and leaves everything the
    convergence test reads as it was at the top of the pass. *)
Lemma retry_state {K : Type} {KK : KKT K} {PC : Preconditioner} (st : Solver.t K) (k : K) :
  let st1 := stage_scalings (Solver.upd_info bump_iter (regularize (pass_top st))) in
  let st' := Solver.upd_info (retry_info true (Solver.settings (pass_top st))) (Solver.set_kkt k st1) in
  Solver.settings st' = Solver.settings st
  /\ Solver.data st' = Solver.data st
  /\ Info.iter (Solver.info st') = Info.iter (Solver.info st)
  /\ converged_spec st' = converged_spec st.
Proof.
  cbn zeta.
  destruct (pass_top_frame st) as (Hs & Hd & Hr & _ & Hit & Hmu).
  destruct (retry_frame (pass_top st) k) as (Hs' & Hd' & Hr' & (a & b & c & e & f & Hw') & Hit' & Hmu').
  cbn zeta in *.
  set (st' := Solver.upd_info _ _) in *.
  assert (Hs2 : Solver.settings st' = Solver.settings st) by congruence.
  assert (Hd2 : Solver.data st' = Solver.data st) by congruence.
  assert (Hi2 : Info.iter (Solver.info st') = Info.iter (Solver.info st)) by congruence.
  split; [exact Hs2|]. split; [exact Hd2|]. split; [exact Hi2|].
  apply converged_spec_view; [exact Hs2 | exact Hd2 | congruence |].
  destruct (work_pass_top (Solver.data st) st') as (V1 & _ & _).
  destruct (work_pass_top (Solver.data st) st) as (V2 & L2 & U2).
  cbn zeta in *. rewrite V1, V2, Hi2. rewrite Hi2 in V1.
  destruct (Info.iter (Solver.info st) =? 0)%Z.
  - rewrite Hd2, Hr', Hr, set_info_twice, !update_nr_set_info, Hw'.
    apply nr_view_update_nr.
    + cbn [Work.set_reg Work.rz_lb_nr]. rewrite L2. apply length_update_nr.
    + cbn [Work.set_reg Work.rz_ub_nr]. rewrite U2. apply length_update_nr.
  - rewrite Hw', nr_view_set_reg, <- V2. reflexivity.
Qed.

Lemma init_factorize_ret {K : Type} {KK : KKT K} (fuel : nat) (st st' : Solver.t K) (s : Status) :
  init_factorize fuel st = Some (Ret s st') -> s = PIQP_NUMERICS.
Proof.
  revert st. induction fuel as [|f IH]; intro st; [discriminate|]. cbn [init_factorize].
  destruct (kkt_factorize _ _) as [k ok]. destruct ok; [discriminate|].
  destruct (_ <? _)%Z; [apply IH|]. intro H; injection H; auto.
Qed.

Lemma solve_init_cont_retires {K : Type} {KK : KKT K} (verify : Settings.t -> bool)
    (fuel : nat) (st st0 : Solver.t K) :
  solve_init verify fuel st = Some (Cont st0) -> Info.factor_retires (Solver.info st0) = 0%Z.
Proof.
  unfold solve_init. destruct (negb (Solver.setup_done st)); [discriminate|].
  destruct (negb (verify (Solver.settings st))); [discriminate|].
  destruct (init_factorize fuel _) as [[s st2|st2]|]; try discriminate.
  intro H. injection H as <-.
  destruct (0 <? _)%nat; [unfold init_reset; destruct (Qle_bool _ _)|]; reflexivity.
Qed.

Lemma solve_init_ret {K : Type} {KK : KKT K} (verify : Settings.t -> bool)
    (fuel : nat) (st st' : Solver.t K) (s : Status) :
  solve_init verify fuel st = Some (Ret s st') ->
  ((s = PIQP_UNSOLVED \/ s = PIQP_INVALID_SETTINGS)
   /\ Info.factor_retires (Solver.info st') = Info.factor_retires (Solver.info st))
  \/ s = PIQP_NUMERICS.
Proof.
  unfold solve_init. destruct (negb (Solver.setup_done st)).
  { intro H. injection H as <- <-. left. split; [auto|reflexivity]. }
  destruct (negb (verify (Solver.settings st))).
  { intro H. injection H as <- <-. left. split; [auto|reflexivity]. }
  destruct (init_factorize fuel _) as [[s2 st2|st2]|] eqn:E; try discriminate.
  intro H. injection H as <- <-. right. exact (init_factorize_ret _ _ _ _ E).
Qed.

Lemma run_loop_status {K : Type} {KK : KKT K} {PC : Preconditioner} (fuel : nat) (st st' : Solver.t K) (s : Status) :
  run_loop fuel st = Some (s, st') ->
  s = PIQP_SOLVED \/ s = PIQP_PRIMAL_INFEASIBLE \/ s = PIQP_DUAL_INFEASIBLE \/ s = PIQP_NUMERICS
  \/ s = PIQP_MAX_ITER_REACHED.
Proof.
  revert st. induction fuel as [|f IH]; intro st; [discriminate|]. cbn [run_loop].
  destruct (_ <? _)%Z.
  - destruct (outer_pass st) as [s1 st1|st1] eqn:Ho; [|apply IH].
    intro H. injection H as <- <-. destruct (outer_pass_ret_status _ _ _ Ho) as [-> | [-> | [-> | ->]]]; auto.
  - intro H. injection H as <- <-. auto.
Qed.

(** The invariant of the outer loop: [factor_retires] is [0] unless the
    pass about to run repeats one that neither converged nor ran out of
    iterations. *)
Lemma outer_pass_retires_inv {K : Type} {KK : KKT K} {PC : Preconditioner} (st st' : Solver.t K) :
  (Info.iter (Solver.info st) < Settings.max_iter (Solver.settings st))%Z ->
  outer_pass st = Cont st' ->
  Info.factor_retires (Solver.info st') = 0%Z
  \/ ((Info.iter (Solver.info st') < Settings.max_iter (Solver.settings st'))%Z
      /\ converged_spec st' = false).
Proof.
  intros Hi Ho. destruct (outer_pass_cont _ _ Ho) as [Hc Hf].
  unfold pass_factor in Hf.
  destruct (kkt_factorize _ _) as [k ok]. destruct ok.
  - left. injection Hf as <-.
    destruct (0 <? _)%nat; [rewrite ipm_step_retires|rewrite eq_step_retires]; reflexivity.
  - destruct (_ <? _)%Z; [|discriminate]. right. injection Hf as <-.
    destruct (retry_state st k) as (Hs & _ & Hit & Hcv). cbn zeta in *.
    rewrite Hs, Hit, Hcv. split; assumption.
Qed.

Lemma run_loop_retires {K : Type} {KK : KKT K} {PC : Preconditioner} (fuel : nat) (st st' : Solver.t K) (s : Status) :
  (Info.factor_retires (Solver.info st) = 0%Z
   \/ ((Info.iter (Solver.info st) < Settings.max_iter (Solver.settings st))%Z
       /\ converged_spec st = false)) ->
  run_loop fuel st = Some (s, st') ->
  s = PIQP_SOLVED \/ s = PIQP_MAX_ITER_REACHED ->
  Info.factor_retires (Solver.info st') = 0%Z.
Proof.
  revert st. induction fuel as [|f IH]; intros st Hinv H Hs; [discriminate|].
  cbn [run_loop] in H.
  destruct (Z.ltb_spec (Info.iter (Solver.info st)) (Settings.max_iter (Solver.settings st))) as [Hi|Hi].
  - destruct (outer_pass st) as [s1 st1|st1] eqn:Ho.
    + injection H as <- <-. destruct Hs as [-> | ->].
      * apply outer_pass_solved in Ho. destruct Ho as [Hc ->].
        destruct (pass_top_frame st) as (_ & _ & _ & Hr & _).
        destruct Hinv as [H0|[_ Hc']]; [|congruence].
        unfold Solver.upd_info, Solver.upd_result, Result.upd_info. proj_simpl.
        unfold Solver.info in Hr. rewrite Hr. exact H0.
      * destruct (outer_pass_ret_status _ _ _ Ho) as [E|[E|[E|E]]]; discriminate.
    + exact (IH st1 (outer_pass_retires_inv st st1 Hi Ho) H Hs).
  - injection H as <- <-. destruct Hinv as [H0|[Hi' _]]; [exact H0|lia].
Qed.

(** C2 (as the code behaves).  A failed factorisation with retries left
    multiplies [rho] and [delta] by [100], increments [factor_retires], sets
    [reg_limit] to [min(10 reg_limit, feas_tol_abs)] and retries, rolling
    [iter] back by one in the main loop (not before it); with no retry left
    the solve returns [NUMERICS]; a successful factorisation resets
    [factor_retires] to [0].  A solve that returns [SOLVED] or
    [MAX_ITER_REACHED] reports [factor_retires = 0], while a solve that
    returns [UNSOLVED] or [INVALID_SETTINGS] leaves [factor_retires] as the
    solver held it (so it need not be [0]). *)
Theorem factor_retry_semantics {K : Type} (KK : KKT K) (PC : Preconditioner)
    (verify : Settings.t -> bool) (fuel : nat) (st : Solver.t K) :
  let i := Solver.info st in
  let set := Solver.settings st in
  (forall k, kkt_factorize (Solver.data st) (Solver.kkt st) = (k, false) ->
     (Info.factor_retires i < Settings.max_factor_retires set)%Z ->
     exists st', pass_factor st = Cont st'
       /\ Info.rho (Solver.info st') = Info.rho i * 100
       /\ Info.delta (Solver.info st') = Info.delta i * 100
       /\ Info.iter (Solver.info st') = (Info.iter i - 1)%Z
       /\ Info.factor_retires (Solver.info st') = (Info.factor_retires i + 1)%Z
       /\ Info.reg_limit (Solver.info st') = std_min (10 * Info.reg_limit i) (Settings.feas_tol_abs set))
  /\ (forall k, kkt_factorize (Solver.data st) (Solver.kkt st) = (k, false) ->
     (Settings.max_factor_retires set <= Info.factor_retires i)%Z ->
     exists st', pass_factor st = Ret PIQP_NUMERICS st')
  /\ (forall k, kkt_factorize (Solver.data st) (Solver.kkt st) = (k, true) ->
     exists st', pass_factor st = Cont st' /\ Info.factor_retires (Solver.info st') = 0%Z)
  /\ (forall k f, kkt_factorize (Solver.data st) (Solver.kkt st) = (k, false) ->
     (Info.factor_retires i < Settings.max_factor_retires set)%Z ->
     exists st', init_factorize (S f) st = init_factorize f st'
       /\ Info.rho (Solver.info st') = Info.rho i * 100
       /\ Info.delta (Solver.info st') = Info.delta i * 100
       /\ Info.iter (Solver.info st') = Info.iter i
       /\ Info.factor_retires (Solver.info st') = (Info.factor_retires i + 1)%Z
       /\ Info.reg_limit (Solver.info st') = std_min (10 * Info.reg_limit i) (Settings.feas_tol_abs set))
  /\ (forall k f, kkt_factorize (Solver.data st) (Solver.kkt st) = (k, false) ->
     (Settings.max_factor_retires set <= Info.factor_retires i)%Z ->
     exists st', init_factorize (S f) st = Some (Ret PIQP_NUMERICS st'))
  /\ (forall s st', solve_impl verify fuel st = Some (s, st') ->
     s = PIQP_SOLVED \/ s = PIQP_MAX_ITER_REACHED -> Info.factor_retires (Solver.info st') = 0%Z)
  /\ (forall s st', solve_impl verify fuel st = Some (s, st') ->
     s = PIQP_UNSOLVED \/ s = PIQP_INVALID_SETTINGS ->
     Info.factor_retires (Solver.info st') = Info.factor_retires i).
Proof.
  cbn zeta.
  split; [|split; [|split; [|split; [|split; [|split]]]]].
  - intros k Hk Hr. unfold pass_factor. rewrite Hk. proj_simpl.
    rewrite (proj2 (Z.ltb_lt _ _) Hr). eexists. split; [reflexivity|].
    unfold retry_info. proj_simpl. repeat split.
  - intros k Hk Hr. unfold pass_factor. rewrite Hk. proj_simpl.
    rewrite (proj2 (Z.ltb_ge _ _) Hr). eexists. reflexivity.
  - intros k Hk. unfold pass_factor. rewrite Hk. eexists. split; [reflexivity|].
    destruct (0 <? _)%nat; [rewrite ipm_step_retires|rewrite eq_step_retires]; reflexivity.
  - intros k f Hk Hr. cbn [init_factorize]. rewrite Hk. proj_simpl.
    rewrite (proj2 (Z.ltb_lt _ _) Hr). eexists. split; [reflexivity|].
    unfold retry_info. proj_simpl. repeat split.
  - intros k f Hk Hr. cbn [init_factorize]. rewrite Hk. proj_simpl.
    rewrite (proj2 (Z.ltb_ge _ _) Hr). eexists. reflexivity.
  - intros s st' H Hs. unfold solve_impl in H.
    destruct (solve_init verify fuel st) as [[s1 st1|st1]|] eqn:E; try discriminate.
    + injection H as <- <-. destruct (solve_init_ret _ _ _ _ _ E) as [[[-> | ->] _] | ->];
        destruct Hs as [Hs|Hs]; discriminate.
    + apply (run_loop_retires fuel st1 st' s); [left|exact H|exact Hs].
      exact (solve_init_cont_retires _ _ _ _ E).
  - intros s st' H Hs. unfold solve_impl in H.
    destruct (solve_init verify fuel st) as [[s1 st1|st1]|] eqn:E; try discriminate.
    + injection H as <- <-. destruct (solve_init_ret _ _ _ _ _ E) as [[_ Hr] | ->]; [exact Hr|].
      destruct Hs as [Hs|Hs]; discriminate.
    + destruct (run_loop_status _ _ _ _ H) as [-> | [-> | [-> | [-> | ->]]]];
        destruct Hs as [Hs|Hs]; discriminate.
Qed.

(** C2 counterexample: a solve of run C ends in [NUMERICS] after two
    retries; the next solve, with settings that fail verification, returns
    [INVALID_SETTINGS] and still reports [factor_retires = 2]. *)
Lemma factor_retires_counterexample :
  match solve (KK := kkt_C) (PC := precond_id) verify_settings_model T_INF 5 setup_C with
  | Some (PIQP_NUMERICS, st1) =>
      match solve (KK := kkt_C) (PC := precond_id) verify_settings_model T_INF 5
              (Solver.set_settings (bad_tau (Solver.settings st1)) st1) with
      | Some (PIQP_INVALID_SETTINGS, st2) => Info.factor_retires (Solver.info st2) = 2%Z
      | _ => False
      end
  | _ => False
  end.
Proof. vm_compute. reflexivity. Qed.

(** ** Fraction to the boundary (C3) *)

Lemma ratio_pos (a b : Q) : 0 < a -> b < 0 -> 0 < - a / b.
Proof.
  intros Ha Hb. unfold Qdiv. setoid_replace (- a * / b) with (a * / (- b)) by (field; lra).
  apply Qmult_lt_0_compat; [exact Ha|]. apply Qinv_lt_0_compat. lra.
Qed.

(** [v + b tau dv] stays positive when [b] is at most the ratio to the
    boundary and [tau < 1]. *)
Lemma step_pos (v dv b tau : Q) :
  0 < v -> 0 < b -> 0 < tau -> tau < 1 -> (dv < 0 -> b <= - v / dv) -> 0 < v + b * tau * dv.
Proof.
  intros Hv Hb Ht1 Ht2 Hr. destruct (Qlt_le_dec dv 0) as [Hd|Hd].
  - specialize (Hr Hd).
    assert (H1 : b * (- dv) <= (- v / dv) * (- dv)) by (apply Qmult_le_compat_r; lra).
    assert (H2 : (- v / dv) * (- dv) == v) by (field; lra).
    rewrite H2 in H1.
    assert (H3 : 0 < b * (- dv)) by (apply Qmult_lt_0_compat; lra).
    assert (H4 : tau * (b * (- dv)) < 1 * (b * (- dv))) by (apply Qmult_lt_compat_r; lra).
    setoid_replace (v + b * tau * dv) with (v - tau * (b * (- dv))) by ring. lra.
  - assert (H1 : 0 <= b * tau * dv).
    { apply Qmult_le_0_compat; [|exact Hd]. apply Qmult_le_0_compat; lra. }
    lra.
Qed.

Lemma alpha_loop_spec (k : nat) (s ds z dz : vec) (a0 : Q * Q) :
  0 < fst a0 -> 0 < snd a0 ->
  (forall i, (i < k)%nat -> 0 < vget s i /\ 0 < vget z i) ->
  let a := alpha_loop k s ds z dz a0 in
  0 < fst a /\ fst a <= fst a0 /\ 0 < snd a /\ snd a <= snd a0
  /\ (forall i, (i < k)%nat -> vget ds i < 0 -> fst a <= - vget s i / vget ds i)
  /\ (forall i, (i < k)%nat -> vget dz i < 0 -> snd a <= - vget z i / vget dz i).
Proof.
  intros H1 H2 Hp. cbn zeta. induction k as [|k IH].
  - cbn. split; [exact H1|]. split; [apply Qle_refl|]. split; [exact H2|]. split; [apply Qle_refl|].
    split; intros i Hi; lia.
  - unfold alpha_loop. rewrite fold_seq_S. fold (alpha_loop k s ds z dz a0).
    destruct IH as (P1 & L1 & P2 & L2 & R1 & R2); [intros i Hi; apply Hp; lia|].
    destruct (alpha_loop k s ds z dz a0) as [a_s a_z]. cbn [fst snd] in *.
    destruct (Hp k (Nat.lt_succ_diag_r k)) as [Hs Hz].
    split; [|split; [|split; [|split; [|split]]]].
    + destruct (Qltb (vget ds k) 0) eqn:E; [|exact P1].
      apply Qltb_iff in E. destruct (std_min_spec a_s (- vget s k / vget ds k)) as (_ & _ & [-> | ->]);
        [exact P1 | apply ratio_pos; assumption].
    + destruct (Qltb (vget ds k) 0); [|exact L1].
      apply Qle_trans with a_s; [apply std_min_spec|exact L1].
    + destruct (Qltb (vget dz k) 0) eqn:E; [|exact P2].
      apply Qltb_iff in E. destruct (std_min_spec a_z (- vget z k / vget dz k)) as (_ & _ & [-> | ->]);
        [exact P2 | apply ratio_pos; assumption].
    + destruct (Qltb (vget dz k) 0); [|exact L2].
      apply Qle_trans with a_z; [apply std_min_spec|exact L2].
    + intros i Hi Hd. destruct (Nat.eq_dec i k) as [->|Hne].
      * rewrite (proj2 (Qltb_iff _ _) Hd). apply std_min_spec.
      * destruct (Qltb (vget ds k) 0); [|apply R1; [lia|exact Hd]].
        apply Qle_trans with a_s; [apply std_min_spec|apply R1; [lia|exact Hd]].
    + intros i Hi Hd. destruct (Nat.eq_dec i k) as [->|Hne].
      * rewrite (proj2 (Qltb_iff _ _) Hd). apply std_min_spec.
      * destruct (Qltb (vget dz k) 0); [|apply R2; [lia|exact Hd]].
        apply Qle_trans with a_z; [apply std_min_spec|apply R2; [lia|exact Hd]].
Qed.

Lemma step_lengths_spec (d : Data.t) (r : Result.t) (o : KKTVecs) :
  live_pos d r ->
  let a := step_lengths d r o in
  0 < fst a /\ fst a <= 1 /\ 0 < snd a /\ snd a <= 1
  /\ (forall i, (i < Data.m d)%nat ->
        (vget (ks o) i < 0 -> fst a <= - vget (Result.s r) i / vget (ks o) i)
        /\ (vget (kz o) i < 0 -> snd a <= - vget (Result.z r) i / vget (kz o) i))
  /\ (forall i, (i < Data.n_lb d)%nat ->
        (vget (ks_lb o) i < 0 -> fst a <= - vget (Result.s_lb r) i / vget (ks_lb o) i)
        /\ (vget (kz_lb o) i < 0 -> snd a <= - vget (Result.z_lb r) i / vget (kz_lb o) i))
  /\ (forall i, (i < Data.n_ub d)%nat ->
        (vget (ks_ub o) i < 0 -> fst a <= - vget (Result.s_ub r) i / vget (ks_ub o) i)
        /\ (vget (kz_ub o) i < 0 -> snd a <= - vget (Result.z_ub r) i / vget (kz_ub o) i)).
Proof.
  intros (Pm & Plb & Pub). cbn zeta. unfold step_lengths.
  destruct (alpha_loop_spec (Data.m d) (Result.s r) (ks o) (Result.z r) (kz o) (1, 1))
    as (A1 & A2 & A3 & A4 & A5 & A6); [cbn; lra | cbn; lra | exact Pm |].
  set (a1 := alpha_loop (Data.m d) _ _ _ _ (1, 1)) in *.
  destruct (alpha_loop_spec (Data.n_lb d) (Result.s_lb r) (ks_lb o) (Result.z_lb r) (kz_lb o) a1)
    as (B1 & B2 & B3 & B4 & B5 & B6); [exact A1 | exact A3 | exact Plb |].
  set (a2 := alpha_loop (Data.n_lb d) _ _ _ _ a1) in *.
  destruct (alpha_loop_spec (Data.n_ub d) (Result.s_ub r) (ks_ub o) (Result.z_ub r) (kz_ub o) a2)
    as (C1 & C2 & C3 & C4 & C5 & C6); [exact B1 | exact B3 | exact Pub |].
  set (a3 := alpha_loop (Data.n_ub d) _ _ _ _ a2) in *.
  cbn [fst snd] in A2, A4.
  split; [exact C1|]. split; [lra|]. split; [exact C3|]. split; [lra|].
  split; [|split].
  - intros i Hi. split; intro Hd.
    + apply Qle_trans with (fst a2); [lra|]. apply Qle_trans with (fst a1); [lra|]. apply A5; assumption.
    + apply Qle_trans with (snd a2); [lra|]. apply Qle_trans with (snd a1); [lra|]. apply A6; assumption.
  - intros i Hi. split; intro Hd.
    + apply Qle_trans with (fst a2); [lra|]. apply B5; assumption.
    + apply Qle_trans with (snd a2); [lra|]. apply B6; assumption.
  - intros i Hi. split; intro Hd; [apply C5|apply C6]; assumption.
Qed.

Lemma vget_step (v dv : vec) (t : Q) (i : nat) :
  0 < vget v i -> 0 < vget v i + t * vget dv i -> 0 < vget (vadd v (vscale t dv)) i.
Proof.
  intros H1 H2. rewrite vget_vadd by (apply vget_pos_lt; exact H1).
  assert (E := vget_vscale t dv i). lra.
Qed.

Lemma vget_step_head (k : nat) (v dv : vec) (t : Q) (i : nat) :
  (i < k)%nat -> 0 < vget v i ->
  vget (vupd_head k v (fun j => vget v j + t * vget dv j)) i = vget v i + t * vget dv i.
Proof.
  intros Hk H. rewrite vget_vupd_head by (apply vget_pos_lt; exact H).
  rewrite (proj2 (Nat.ltb_lt i k) Hk). reflexivity.
Qed.

(** The iterate update with the fraction-to-boundary step lengths keeps
    every live slack and dual strictly positive. *)
Lemma update_iterate_pos (d : Data.t) (r : Result.t) (o : KKTVecs) (tau : Q) :
  0 < tau -> tau < 1 -> live_pos d r ->
  let a := step_lengths d r o in
  live_pos d (update_iterate d (fst a * tau) (snd a * tau) o r).
Proof.
  intros Ht1 Ht2 Hp. cbn zeta.
  destruct (step_lengths_spec d r o Hp) as (S1 & S2 & S3 & S4 & Sm & Slb & Sub). cbn zeta in *.
  destruct Hp as (Pm & Plb & Pub).
  unfold update_iterate, live_pos. cbv zeta. proj_simpl.
  split; [|split].
  - intros i Hi. destruct (Pm i Hi) as [Hs Hz]. destruct (Sm i Hi) as [Rs Rz].
    split; apply vget_step; try assumption; apply step_pos; assumption.
  - intros i Hi. destruct (Plb i Hi) as [Hs Hz]. destruct (Slb i Hi) as [Rs Rz].
    rewrite !vget_step_head by assumption. split; apply step_pos; assumption.
  - intros i Hi. destruct (Pub i Hi) as [Hs Hz]. destruct (Sub i Hi) as [Rs Rz].
    rewrite !vget_step_head by assumption. split; apply step_pos; assumption.
Qed.

(** The slacks and duals after the predictor-corrector step are those of
    [update_iterate] with the corrector direction and its fraction-to-boundary
    step lengths. *)
Lemma ipm_step_iterate {K : Type} {KK : KKT K} {PC : Preconditioner} (st : Solver.t K) :
  exists o : KKTVecs,
    let d := Solver.data st in let r := Solver.result st in
    let a := step_lengths d r o in
    let tau := Settings.tau (Solver.settings st) in
    let r' := update_iterate d (fst a * tau) (snd a * tau) o r in
    Solver.data (ipm_step st) = d
    /\ Result.s (Solver.result (ipm_step st)) = Result.s r'
    /\ Result.z (Solver.result (ipm_step st)) = Result.z r'
    /\ Result.s_lb (Solver.result (ipm_step st)) = Result.s_lb r'
    /\ Result.z_lb (Solver.result (ipm_step st)) = Result.z_lb r'
    /\ Result.s_ub (Solver.result (ipm_step st)) = Result.s_ub r'
    /\ Result.z_ub (Solver.result (ipm_step st)) = Result.z_ub r'.
Proof.
  unfold ipm_step. cbv zeta.
  destruct (step_lengths _ _ _) as [a_s0 a_z0].
  match goal with |- context [step_lengths _ _ ?o] => exists o end.
  destruct (step_lengths _ _ _) as [b_s b_z]. cbn [fst snd].
  unfold move_dual_centre.
  repeat match goal with |- context [if Qltb ?a ?b then _ else _] => destruct (Qltb a b) end;
    proj_simpl; repeat split.
Qed.

(** After the head of a pass and the factorisation, only [info], the
    workspace and the KKT state have changed. *)
Lemma pass_frame {K : Type} {KK : KKT K} {PC : Preconditioner} (st : Solver.t K) (k : K)
    (f : Info.t -> Info.t) :
  let st1 := Solver.upd_info f (Solver.set_kkt k
               (stage_scalings (Solver.upd_info bump_iter (regularize (pass_top st))))) in
  Solver.settings st1 = Solver.settings st
  /\ Solver.data st1 = Solver.data st
  /\ Solver.result st1 = Result.set_info (Solver.info st1) (Solver.result st).
Proof.
  cbn zeta. destruct (pass_top_frame st) as (Hs & Hd & Hr & _).
  unfold stage_scalings, regularize. proj_simpl.
  rewrite Hs, Hd. split; [reflexivity|]. split; [reflexivity|].
  unfold Solver.info in Hr. rewrite Hr. reflexivity.
Qed.

(** C3. Given [0 < tau < 1] and every live component of [s], [z],
    [s_lb], [z_lb], [s_ub], [z_ub] strictly positive at the top of a pass,
    every live component is still strictly positive when the pass falls
    through to the next one (after the step with
    [primal_step = tau * alpha_s], [dual_step = tau * alpha_z], [alpha] the
    fraction-to-boundary ratios capped at [1]; a retried factorisation or
    the equality-only step leave them untouched). *)
Theorem step_keeps_positive {K : Type} (KK : KKT K) (PC : Preconditioner) (st st' : Solver.t K) :
  0 < Settings.tau (Solver.settings st) -> Settings.tau (Solver.settings st) < 1 ->
  live_pos (Solver.data st) (Solver.result st) ->
  outer_pass st = Cont st' ->
  live_pos (Solver.data st') (Solver.result st').
Proof.
  intros Ht1 Ht2 Hp Ho. destruct (outer_pass_cont _ _ Ho) as [_ Hf].
  unfold pass_factor in Hf. destruct (kkt_factorize _ _) as [k ok] eqn:Ek. destruct ok.
  - injection Hf as <-.
    destruct (pass_frame st k (Info.set_factor_retires 0)) as (Hs2 & Hd2 & Hr2). cbn zeta in *.
    set (st2 := Solver.upd_info (Info.set_factor_retires 0) _) in *.
    destruct (pass_top_frame st) as (_ & Hdt & _).
    destruct (0 <? n_ineq (Solver.data (pass_top st)))%nat eqn:En.
    + destruct (ipm_step_iterate st2) as (o & Hd & Es & Ez & Eslb & Ezlb & Esub & Ezub).
      cbn zeta in *.
      assert (Hp2 : live_pos (Solver.data st2) (Solver.result st2)) by (rewrite Hd2, Hr2; exact Hp).
      rewrite Hs2 in *.
      pose proof (update_iterate_pos (Solver.data st2) (Solver.result st2) o _ Ht1 Ht2 Hp2) as Hu.
      cbn zeta in Hu. destruct Hu as (U1 & U2 & U3).
      rewrite Hd. split; [|split]; intros i Hi.
      * rewrite Es, Ez. apply U1; exact Hi.
      * rewrite Eslb, Ezlb. apply U2; exact Hi.
      * rewrite Esub, Ezub. apply U3; exact Hi.
    + apply Nat.ltb_ge in En. unfold n_ineq in En.
      assert (Hd : Solver.data (eq_step st2) = Solver.data st2) by (unfold eq_step; split_step; reflexivity).
      rewrite Hd, Hd2, <- Hdt. split; [|split]; intros i Hi; lia.
  - destruct (_ <? _)%Z; [|discriminate]. injection Hf as <-.
    destruct (retry_frame (pass_top st) k) as (_ & Hd' & Hr' & _).
    destruct (pass_top_frame st) as (_ & Hd & Hr & _). cbn zeta in *.
    rewrite Hd', Hd, Hr', Hr. exact Hp.
Qed.

(** ** Proximal parameters (C4) *)

Lemma std_max_shrink (lo r c : Q) :
  lo <= r -> 0 <= r -> c <= 1 -> lo <= std_max lo (c * r) /\ std_max lo (c * r) <= r.
Proof.
  intros H1 H2 H3. destruct (std_max_spec lo (c * r)) as (A & _ & _). split; [exact A|].
  apply std_max_le. split; [exact H1|]. nra.
Qed.

Lemma mu_rate_nonneg (a mu : Q) : 0 <= mu -> 0 <= Qabs a / mu.
Proof.
  intro H. unfold Qdiv. apply Qmult_le_0_compat; [apply Qabs_nonneg | apply Qinv_le_0_compat; exact H].
Qed.

Lemma pass_top_info {K : Type} {PC : Preconditioner} (st : Solver.t K) :
  Info.rho (Solver.info (pass_top st)) = Info.rho (Solver.info st)
  /\ Info.delta (Solver.info (pass_top st)) = Info.delta (Solver.info st)
  /\ Info.reg_limit (Solver.info (pass_top st)) = Info.reg_limit (Solver.info st).
Proof.
  unfold pass_top. destruct (Info.iter (Solver.info st) =? 0)%Z; proj_simpl;
    destruct (Settings.verbose (Solver.settings st)); proj_simpl; repeat split.
Qed.

Lemma bump_iter_info (i : Info.t) :
  Info.iter (bump_iter i) = (Info.iter i + 1)%Z
  /\ Info.rho (bump_iter i) = Info.rho i /\ Info.delta (bump_iter i) = Info.delta i
  /\ Info.mu (bump_iter i) = Info.mu i
  /\ (Info.reg_limit (bump_iter i) = Info.reg_limit i \/ Info.reg_limit (bump_iter i) = Q_1em13).
Proof.
  unfold bump_iter. destruct (_ || _); proj_simpl; repeat split; auto.
Qed.

(** The regularisation update of the predictor-corrector step. *)
Lemma ipm_step_reg {K : Type} {KK : KKT K} {PC : Preconditioner} (st : Solver.t K) :
  let i := Solver.info st in
  0 <= Info.mu i -> Info.reg_limit i <= Info.rho i -> Info.reg_limit i <= Info.delta i ->
  0 <= Info.rho i -> 0 <= Info.delta i ->
  let i' := Solver.info (ipm_step st) in
  Info.reg_limit i' = Info.reg_limit i /\ Info.iter i' = Info.iter i
  /\ Info.reg_limit i <= Info.rho i' /\ Info.rho i' <= Info.rho i
  /\ Info.reg_limit i <= Info.delta i' /\ Info.delta i' <= Info.delta i.
Proof.
  cbn zeta. intros Hmu H1 H2 H3 H4. unfold ipm_step. cbv zeta.
  destruct (step_lengths _ _ _) as [a_s0 a_z0].
  destruct (step_lengths _ _ _) as [b_s b_z].
  set (mr := Qabs _ / Info.mu _).
  assert (Hmr : 0 <= mr) by (apply mu_rate_nonneg; exact Hmu).
  clearbody mr.
  repeat match goal with |- context [if Qltb ?a ?b then _ else _] => destruct (Qltb a b) end;
    proj_simpl; unfold Solver.info in *;
    (split; [reflexivity|]); (split; [reflexivity|]);
    match goal with
    | |- _ <= std_max ?lo (?c * ?r) /\ _ =>
        destruct (std_max_shrink lo r c) as [E1 E2]; [assumption|assumption|lra|]
    end;
    (split; [exact E1|]); (split; [exact E2|]);
    match goal with
    | |- _ <= std_max ?lo (?c * ?r) /\ _ =>
        apply (std_max_shrink lo r c); [assumption|assumption|lra]
    end.
Qed.

Lemma eq_step_reg {K : Type} {KK : KKT K} {PC : Preconditioner} (st : Solver.t K) :
  let i := Solver.info st in
  Info.reg_limit i <= Info.rho i -> Info.reg_limit i <= Info.delta i ->
  0 <= Info.rho i -> 0 <= Info.delta i ->
  let i' := Solver.info (eq_step st) in
  Info.reg_limit i' = Info.reg_limit i /\ Info.iter i' = Info.iter i
  /\ Info.reg_limit i <= Info.rho i' /\ Info.rho i' <= Info.rho i
  /\ Info.reg_limit i <= Info.delta i' /\ Info.delta i' <= Info.delta i.
Proof.
  cbn zeta. intros H1 H2 H3 H4. unfold eq_step. cbv zeta.
  repeat match goal with |- context [if Qltb ?a ?b then _ else _] => destruct (Qltb a b) end;
    proj_simpl; unfold Solver.info in *;
    (split; [reflexivity|]); (split; [reflexivity|]);
    match goal with
    | |- _ <= std_max ?lo (?c * ?r) /\ _ =>
        destruct (std_max_shrink lo r c) as [E1 E2]; [assumption|assumption|lra|]
    end;
    (split; [exact E1|]); (split; [exact E2|]);
    match goal with
    | |- _ <= std_max ?lo (?c * ?r) /\ _ =>
        apply (std_max_shrink lo r c); [assumption|assumption|lra]
    end.
Qed.

Lemma info_after_head {K : Type} {KK : KKT K} (st : Solver.t K) (k : K) (f : Info.t -> Info.t) :
  Solver.info (Solver.upd_info f (Solver.set_kkt k (stage_scalings (Solver.upd_info bump_iter (regularize st)))))
  = f (bump_iter (Solver.info st)).
Proof. unfold stage_scalings, regularize. proj_simpl. reflexivity. Qed.

Lemma settings_after_head {K : Type} {KK : KKT K} (st : Solver.t K) (k : K) (f : Info.t -> Info.t) :
  Solver.settings (Solver.upd_info f (Solver.set_kkt k (stage_scalings (Solver.upd_info bump_iter (regularize st)))))
  = Solver.settings st.
Proof. unfold stage_scalings, regularize. proj_simpl. reflexivity. Qed.

Lemma Q_1em13_pos : 0 < Q_1em13.
Proof. unfold Q_1em13. reflexivity. Qed.

Lemma bump_iter_reg_inv (i : Info.t) :
  reg_inv i -> reg_inv (bump_iter i).
Proof.
  intros (H1 & H2 & H3). destruct (bump_iter_info i) as (_ & Er & Ed & _ & [E|E]);
    unfold reg_inv; rewrite Er, Ed, E; [split; [|split]; assumption|].
  pose proof Q_1em13_pos. split; [apply Qle_refl|]. split; lra.
Qed.

Lemma info_set_factor_retires (v : Z) (i : Info.t) :
  Info.rho (Info.set_factor_retires v i) = Info.rho i
  /\ Info.delta (Info.set_factor_retires v i) = Info.delta i
  /\ Info.reg_limit (Info.set_factor_retires v i) = Info.reg_limit i
  /\ Info.iter (Info.set_factor_retires v i) = Info.iter i
  /\ Info.mu (Info.set_factor_retires v i) = Info.mu i.
Proof. repeat split. Qed.

(** The bookkeeping of a main-loop retry on the proximal parameters. *)
Lemma retry_info_reg (set : Settings.t) (i : Info.t) :
  Info.rho (retry_info true set i) = Info.rho i * 100
  /\ Info.delta (retry_info true set i) = Info.delta i * 100
  /\ Info.iter (retry_info true set i) = (Info.iter i - 1)%Z
  /\ Info.reg_limit (retry_info true set i) = std_min (10 * Info.reg_limit i) (Settings.feas_tol_abs set).
Proof. unfold retry_info. proj_simpl. repeat split. Qed.

(** C4 (as the code has it). Over one pass of the main loop that falls
    through to the next one, starting from a state whose floor [reg_limit]
    lies in [[1e-13, min(rho, delta)]], with [mu >= 0] and
    [feas_tol_abs >= 1e-13]: the floor invariant holds again, [rho] and
    [delta] stay strictly positive, and either the factorisation succeeded
    ([iter] advanced by one) and neither [rho] nor [delta] grew, or it was
    retried ([iter] unchanged) and both were multiplied by [100]. The
    monotonicity needs the floor invariant: the step sets
    [rho = max(reg_limit, c * rho)], which raises [rho] whenever
    [reg_limit > rho]. *)
Theorem prox_params_per_pass {K : Type} (KK : KKT K) (PC : Preconditioner) (st st' : Solver.t K) :
  reg_inv (Solver.info st) ->
  0 <= Info.mu (Solver.info st) ->
  Q_1em13 <= Settings.feas_tol_abs (Solver.settings st) ->
  outer_pass st = Cont st' ->
  let i := Solver.info st in let i' := Solver.info st' in
  reg_inv i' /\ 0 < Info.rho i' /\ 0 < Info.delta i'
  /\ ((Info.rho i' <= Info.rho i /\ Info.delta i' <= Info.delta i /\ Info.iter i' = (Info.iter i + 1)%Z)
      \/ (Info.rho i' = Info.rho i * 100 /\ Info.delta i' = Info.delta i * 100
          /\ Info.iter i' = Info.iter i)).
Proof.
  intros Hr Hmu Hf Ho. cbv zeta.
  destruct (outer_pass_cont _ _ Ho) as [_ Hpf].
  destruct (pass_top_info st) as (Rt & Dt & Lt).
  destruct (pass_top_frame st) as (Hs & _ & _ & _ & It & Mt).
  assert (Hb : reg_inv (bump_iter (Solver.info (pass_top st)))).
  { apply bump_iter_reg_inv. unfold reg_inv. rewrite Rt, Dt, Lt. exact Hr. }
  destruct (bump_iter_info (Solver.info (pass_top st))) as (Ib & Rb & Db & Mb & _).
  rewrite Rt, Dt, It, Mt in *.
  destruct Hr as (Hr1 & Hr2 & Hr3). pose proof Q_1em13_pos as H13.
  unfold pass_factor in Hpf. destruct (kkt_factorize _ _) as [k ok]. destruct ok.
  - injection Hpf as <-.
    pose proof (info_after_head (pass_top st) k (Info.set_factor_retires 0)) as Hi2.
    set (st2 := Solver.upd_info (Info.set_factor_retires 0) (Solver.set_kkt k
                  (stage_scalings (Solver.upd_info bump_iter (regularize (pass_top st)))))) in *.
    set (ib := bump_iter _) in *. clearbody ib.
    destruct (info_set_factor_retires 0 ib) as (R2 & D2 & L2 & I2 & M2).
    rewrite <- Hi2 in R2, D2, L2, I2, M2.
    destruct Hb as (Hb1 & Hb2 & Hb3).
    assert (Hreg : exists i', Solver.info (if (0 <? n_ineq (Solver.data (pass_top st)))%nat then ipm_step st2 else eq_step st2) = i'
      /\ Info.reg_limit i' = Info.reg_limit (Solver.info st2)
      /\ Info.iter i' = Info.iter (Solver.info st2)
      /\ Info.reg_limit (Solver.info st2) <= Info.rho i' /\ Info.rho i' <= Info.rho (Solver.info st2)
      /\ Info.reg_limit (Solver.info st2) <= Info.delta i' /\ Info.delta i' <= Info.delta (Solver.info st2)).
    { eexists. split; [reflexivity|].
      destruct (0 <? n_ineq (Solver.data (pass_top st)))%nat.
      - apply ipm_step_reg; rewrite ?M2, ?L2, ?R2, ?D2; [rewrite Mb; exact Hmu | exact Hb2 | exact Hb3 | lra | lra].
      - apply eq_step_reg; rewrite ?L2, ?R2, ?D2; [exact Hb2 | exact Hb3 | lra | lra]. }
    destruct Hreg as (i' & Ei & E1 & E2 & E3 & E4 & E5 & E6). rewrite Ei.
    rewrite L2, R2, D2, I2 in *.
    unfold reg_inv. rewrite E1. rewrite Rb, Db, Ib in *.
    split; [split; [exact Hb1|]; split; assumption|].
    split; [lra|]. split; [lra|]. left. split; [exact E4|]. split; [exact E6|exact E2].
  - destruct (_ <? _)%Z; [|discriminate]. injection Hpf as <-.
    rewrite info_after_head.
    set (ib := bump_iter _) in *. clearbody ib.
    destruct (retry_info_reg (Solver.settings (pass_top st)) ib) as (R3 & D3 & I3 & L3).
    destruct (pass_top_frame st) as (Hs' & _).
    unfold reg_inv. rewrite R3, D3, I3, L3, Rb, Db, Ib, Hs'. destruct Hb as (Hb1 & Hb2 & Hb3).
    rewrite Rb in Hb2. rewrite Db in Hb3.
    destruct (std_min_spec (10 * Info.reg_limit ib) (Settings.feas_tol_abs (Solver.settings st)))
      as (S1 & S2 & [S3|S3]); rewrite S3 in *;
      (split; [split; [lra|]; split; lra|]);
      (split; [lra|]); (split; [lra|]); right; (split; [reflexivity|]); (split; [reflexivity|lia]).
Qed.

(** Run B: [rho_init = 1e-12] lies below [reg_lower_limit = 1e-10]; the
    first pass factorises successfully ([iter] goes from [0] to [1]) and
    the regularisation update raises [rho] to the floor [1e-10]. *)
Lemma rho_grows_counterexample :
  match solve_init (KK:=kkt_B) verify_settings_model 5 setup_B with
  | Some (Cont st0) =>
      match outer_pass (KK:=kkt_B) (PC:=precond_id) st0 with
      | Cont st1 =>
          Info.iter (Solver.info st0) = 0%Z /\ Info.iter (Solver.info st1) = 1%Z
          /\ Info.rho (Solver.info st0) == 1 # 1000000000000
          /\ Info.rho (Solver.info st1) == 1 # 10000000000
      | Ret _ _ => False
      end
  | _ => False
  end.
Proof. vm_compute. repeat split; reflexivity. Qed.

(** ** Infeasibility detection (C5) *)

Lemma pass_factor_status {K : Type} {KK : KKT K} {PC : Preconditioner} (st st' : Solver.t K) (s : Status) :
  pass_factor st = Ret s st' -> s = PIQP_NUMERICS.
Proof.
  unfold pass_factor. destruct (kkt_factorize _ _) as [k ok].
  destruct ok; [discriminate|].
  destruct (_ <? _)%Z; [discriminate|]. intro H. injection H as <- _. reflexivity.
Qed.

(** C5 (as the code has it). A pass returns [PRIMAL_INFEASIBLE] exactly
    when the convergence test failed and the primal infeasibility test
    ([no_dual_update > 5], dual proximal gap above [1e10], regularised
    primal residual below [feas_tol_abs]) holds on the regularised state;
    it returns [DUAL_INFEASIBLE] exactly when the convergence test and the
    primal infeasibility test failed and the dual infeasibility test
    ([no_primal_update > 5], [|x - zeta|] above [1e10], [|r_x|] below
    [feas_tol_abs]) holds. The primal test takes precedence. *)
Theorem infeasibility_tests_ordered {K : Type} (KK : KKT K) (PC : Preconditioner) (st st' : Solver.t K) :
  (outer_pass st = Ret PIQP_PRIMAL_INFEASIBLE st' <->
     converged_spec st = false /\ primal_infeasible (regularize (pass_top st)) = true
     /\ st' = Solver.upd_info (Info.set_status PIQP_PRIMAL_INFEASIBLE) (regularize (pass_top st)))
  /\ (outer_pass st = Ret PIQP_DUAL_INFEASIBLE st' <->
     converged_spec st = false /\ primal_infeasible (regularize (pass_top st)) = false
     /\ dual_infeasible (regularize (pass_top st)) = true
     /\ st' = Solver.upd_info (Info.set_status PIQP_DUAL_INFEASIBLE) (regularize (pass_top st))).
Proof.
  rewrite <- converged_pass_top. unfold outer_pass, pass_head.
  destruct (converged (pass_top st));
    [split; split; [discriminate | intros (H & _); discriminate | discriminate | intros (H & _); discriminate]|].
  destruct (primal_infeasible _).
  - split; split.
    + intro H. injection H as <-. auto.
    + intros (_ & _ & ->). reflexivity.
    + discriminate.
    + intros (_ & H & _). discriminate.
  - destruct (dual_infeasible _).
    + split; split.
      * discriminate.
      * intros (_ & H & _). discriminate.
      * intro H. injection H as <-. auto.
      * intros (_ & _ & _ & ->). reflexivity.
    + split; split.
      * intro H. apply pass_factor_status in H. discriminate.
      * intros (_ & H & _). discriminate.
      * intro H. apply pass_factor_status in H. discriminate.
      * intros (_ & _ & H & _). discriminate.
Qed.

(** Run A ends in [PRIMAL_INFEASIBLE] at a pass where the dual
    infeasibility test holds as well. *)
Lemma both_infeasible_counterexample :
  match solve_impl (KK:=kkt_A) (PC:=precond_id) verify_settings_model 20 setup_A with
  | Some (s, st') =>
      s = PIQP_PRIMAL_INFEASIBLE /\ primal_infeasible (PC:=precond_id) st' = true
      /\ dual_infeasible (PC:=precond_id) st' = true
  | None => False
  end.
Proof. vm_compute. repeat split. Qed.

(** ** The start of [solve_impl] (C6) *)

Lemma slack_norm_le (d : Data.t) (r : Result.t) :
  Qle_bool (slack_norm d r) Q_1em4 = true <->
  inf_norm (Result.s r) <= Q_1em4
  /\ inf_norm (vhead (Data.n_lb d) (Result.s_lb r)) <= Q_1em4
  /\ inf_norm (vhead (Data.n_ub d) (Result.s_ub r)) <= Q_1em4.
Proof.
  rewrite Qle_bool_iff. unfold slack_norm. rewrite !std_max_le.
  assert (0 <= Q_1em4) by (unfold Q_1em4; discriminate). tauto.
Qed.

(** C6 (as the code has it). [setup] leaves [m_kkt_init_state] set, so the
    block that sets the active parts of [s], [z] and their bound heads to
    [1] and calls [update_scalings] is skipped on the first solve after
    setup; it runs only when the state is cleared (by a pass of an
    earlier solve), and then sets those parts to [1], [rho], [delta] to
    their initial values and passes them to [update_scalings]. The
    initial Newton solve overwrites the iterate with the solution for the
    right-hand side [(-c, b, h, x_lb_n, x_ub, 0, 0, 0)]. The reset to
    [0.1] happens when the largest of the three slack norms is at most
    [1e-4], i.e. when all three are, and otherwise nothing changes. *)
Theorem init_block_semantics {K : Type} (KK : KKT K) (PC : Preconditioner) :
  (forall (st0 : Solver.t K) P c A b G h xl xu,
     Solver.kkt_init_state (@setup_impl K KK PC st0 P c A b G h xl xu) = true)
  /\ (forall st : Solver.t K, Solver.kkt_init_state st = true -> init_scalings st = st)
  /\ (forall st : Solver.t K, Solver.kkt_init_state st = false ->
       let set := Solver.settings st in let d := Solver.data st in
       let r := Solver.result st in let r' := Solver.result (init_scalings st) in
       Result.s r' = vconst (Result.s r) 1 /\ Result.z r' = vconst (Result.z r) 1
       /\ Result.s_lb r' = vconst_head (Data.n_lb d) (Result.s_lb r) 1
       /\ Result.z_lb r' = vconst_head (Data.n_lb d) (Result.z_lb r) 1
       /\ Result.s_ub r' = vconst_head (Data.n_ub d) (Result.s_ub r) 1
       /\ Result.z_ub r' = vconst_head (Data.n_ub d) (Result.z_ub r) 1
       /\ Info.rho (Result.info r') = Settings.rho_init set
       /\ Info.delta (Result.info r') = Settings.delta_init set
       /\ Solver.kkt (init_scalings st)
          = kkt_update_scalings (Settings.rho_init set) (Settings.delta_init set)
              (Result.s r') (Result.s_lb r') (Result.s_ub r')
              (Result.z r') (Result.z_lb r') (Result.z_ub r') (Solver.kkt st))
  /\ (forall st : Solver.t K,
       let d := Solver.data st in let w := Solver.work st in
       let o := kkt_solve d (Solver.kkt st)
                  (mkKKTVecs (vopp (Data.c d)) (Data.b d) (Data.h d) (Data.x_lb_n d) (Data.x_ub d)
                     (vconst (Work.rs w) 0) (vconst (Work.rs_lb w) 0) (vconst (Work.rs_ub w) 0)) in
       let r' := Solver.result (init_newton st) in
       Result.x r' = kx o /\ Result.y r' = ky o /\ Result.z r' = kz o /\ Result.z_lb r' = kz_lb o
       /\ Result.z_ub r' = kz_ub o /\ Result.s r' = ks o /\ Result.s_lb r' = ks_lb o
       /\ Result.s_ub r' = ks_ub o)
  /\ (forall st : Solver.t K,
       let d := Solver.data st in let r := Solver.result st in
       let r' := Solver.result (init_reset st) in
       (inf_norm (Result.s r) <= Q_1em4
        /\ inf_norm (vhead (Data.n_lb d) (Result.s_lb r)) <= Q_1em4
        /\ inf_norm (vhead (Data.n_ub d) (Result.s_ub r)) <= Q_1em4 ->
        Result.s r' = vconst (Result.s r) (1 # 10) /\ Result.z r' = vconst (Result.z r) (1 # 10)
        /\ Result.s_lb r' = vconst_head (Data.n_lb d) (Result.s_lb r) (1 # 10)
        /\ Result.z_lb r' = vconst_head (Data.n_lb d) (Result.z_lb r) (1 # 10)
        /\ Result.s_ub r' = vconst_head (Data.n_ub d) (Result.s_ub r) (1 # 10)
        /\ Result.z_ub r' = vconst_head (Data.n_ub d) (Result.z_ub r) (1 # 10))
       /\ (Q_1em4 < inf_norm (Result.s r)
           \/ Q_1em4 < inf_norm (vhead (Data.n_lb d) (Result.s_lb r))
           \/ Q_1em4 < inf_norm (vhead (Data.n_ub d) (Result.s_ub r)) ->
           init_reset st = st)).
Proof.
  split; [intros; unfold setup_impl; destruct (init_workspace _ _ _ _); reflexivity|].
  split; [intros st H; unfold init_scalings; rewrite H; reflexivity|].
  split; [intros st H; cbv zeta; unfold init_scalings; rewrite H; proj_simpl; repeat split|].
  split; [intros st; cbv zeta; unfold init_newton; proj_simpl; repeat split|].
  intros st. cbv zeta. split.
  - intro H. apply slack_norm_le in H. unfold init_reset. rewrite H. proj_simpl. repeat split.
  - intro H. unfold init_reset.
    destruct (Qle_bool (slack_norm _ _) Q_1em4) eqn:E; [|reflexivity].
    apply slack_norm_le in E. exfalso.
    destruct E as (E1 & E2 & E3); destruct H as [H|[H|H]]; apply Qlt_not_le in H; contradiction.
Qed.

(** Run D: after [setup] the scaling state is set and the first solve never
    calls [update_scalings] (the scripted KKT counts its calls, and the
    count stays [0]); and on [st_one] the [s_lb] slack norm is [0], below
    [1e-4], yet the reset leaves [s] at [1]. *)
Lemma init_block_counterexample :
  Solver.kkt_init_state setup_D = true
  /\ match solve_init (KK:=kkt_B) verify_settings_model 5 setup_D with
     | Some (Cont st) => Solver.kkt st = 0%nat
     | _ => False
     end
  /\ inf_norm (vhead (Data.n_lb d_one) (Result.s_lb (Solver.result st_one))) <= Q_1em4
  /\ Result.s (Solver.result (init_reset st_one)) = [1].
Proof. vm_compute. repeat split; discriminate. Qed.

(** ** The non-regularised residuals (C7) *)

Lemma vsum_app1 (l : vec) (a : Q) : vsum (l ++ [a]) == vsum l + a.
Proof.
  induction l as [|u l IH]; cbn [app vsum fold_right] in *; [lra|].
  unfold vsum in IH. lra.
Qed.

Lemma vsum_map_zero {A} (g : A -> Q) (l : list A) :
  (forall a, In a l -> g a == 0) -> vsum (map g l) == 0.
Proof.
  induction l as [|u l IH]; intro H; cbn [map vsum fold_right]; [lra|].
  assert (g u == 0) by (apply H; left; reflexivity).
  assert (fold_right Qplus 0 (map g l) == 0) by (apply IH; intros a Ha; apply H; right; exact Ha).
  lra.
Qed.

Lemma length_vconst (v : vec) (a : Q) : length (vconst v a) = length v.
Proof. apply length_map. Qed.

Lemma vget_vconst (v : vec) (a : Q) (j : nat) : (j < length v)%nat -> vget (vconst v a) j = a.
Proof.
  unfold vget, vconst. revert j. induction v as [|u v IH]; intros [|j] Hj; cbn in *; try lia.
  - reflexivity.
  - apply IH. lia.
Qed.

Lemma length_scatter (k : nat) (idx : list nat) (f : nat -> Q) (v : vec) :
  length (scatter k idx f v) = length v.
Proof.
  unfold scatter. induction k as [|k IH]; [apply length_vconst|].
  rewrite fold_seq_S, length_vset. exact IH.
Qed.

(** [dx.setZero(); for (i < k) dx(idx(i)) = f(i);] with distinct positions
    puts at [j] the sum of the [f i] with [idx(i) = j]. *)
Lemma vget_scatter (k : nat) (idx : list nat) (f : nat -> Q) (v : vec) (j : nat) :
  idx_inj k idx -> (j < length v)%nat ->
  vget (scatter k idx f v) j
  == vsum (map (fun i => if (nth i idx 0%nat =? j)%nat then f i else 0) (seq 0 k)).
Proof.
  intros Hinj Hj. induction k as [|k IH].
  - unfold scatter. cbn [seq map vsum fold_right fold_left].
    rewrite vget_vconst by exact Hj. reflexivity.
  - assert (Hinj' : idx_inj k idx) by (intros i i' Hi Hi' E; apply Hinj; [lia|lia|exact E]).
    specialize (IH Hinj').
    unfold scatter at 1. rewrite fold_seq_S. fold (scatter k idx f v).
    unfold vget at 1. rewrite nth_vset, length_scatter. fold (vget (scatter k idx f v) j).
    rewrite seq_S, map_app. cbn [map]. rewrite vsum_app1. rewrite Nat.add_0_l.
    destruct (Nat.eqb_spec (nth k idx 0%nat) j) as [E|E].
    + rewrite E, (proj2 (Nat.ltb_lt j (length v)) Hj). cbn [andb].
      assert (Z0 : vsum (map (fun i => if (nth i idx 0%nat =? j)%nat then f i else 0) (seq 0 k)) == 0).
      { apply vsum_map_zero. intros i Hi. apply in_seq in Hi.
        destruct (Nat.eqb_spec (nth i idx 0%nat) j) as [E'|E']; [|reflexivity].
        exfalso. assert (i = k) by (apply Hinj; [lia|lia|congruence]). lia. }
      lra.
    + cbn [andb]. lra.
Qed.

Lemma vsum_sel (k : nat) (idx : list nat) (j : nat) (c : Q) (f : nat -> Q) (z : vec) :
  (forall i, f i == c * vget z i) ->
  vsum (map (fun i => if (nth i idx 0%nat =? j)%nat then f i else 0) (seq 0 k))
  == c * vsum (map (fun i => (if (nth i idx 0%nat =? j)%nat then 1 else 0) * vget z i) (seq 0 k)).
Proof.
  intro Hf. generalize (seq 0 k). intro l.
  induction l as [|u l IH]; cbn [map vsum fold_right] in *; [lra|].
  unfold vsum in IH. specialize (Hf u).
  destruct (nth u idx 0%nat =? j)%nat; nra.
Qed.

Lemma vget_sel_t (n k : nat) (idx : list nat) (z : vec) (j : nat) :
  (j < n)%nat ->
  vget (mat_vec (mtranspose (sel_mat n k idx)) z) j
  = vsum (map (fun i => (if (nth i idx 0%nat =? j)%nat then 1 else 0) * vget z i) (seq 0 k)).
Proof. intro Hj. unfold mat_vec. rewrite vget_vinit by exact Hj. reflexivity. Qed.

(** C7 (as the code has it). With [P_utri] and [G^T] of [n] rows, [h] of
    [m] entries and distinct positions in the heads of [x_lb_idx] and
    [x_ub_idx], [update_nr_residuals] computes
    [r_x_nr = -P x - c - A^T y - G^T z + E_lb^T z_lb - E_ub^T z_ub]
    ([E_lb], [E_ub] the selection matrices of the compressed bounds),
    [r_y_nr = b - A x], [r_z_nr = h - G x - s],
    [r_z_lb_nr[i] = x[x_lb_idx[i]] + x_lb_n[i] - s_lb[i]] and
    [r_z_ub_nr[i] = -x[x_ub_idx[i]] + x_ub[i] - s_ub[i]]. The signs agree
    with the rows: the lower-bound row is [-E_lb x <= x_lb_n] and the
    upper-bound row is [E_ub x <= x_ub], so their duals enter [r_x] as
    [-(-E_lb)^T z_lb] and [-E_ub^T z_ub]. *)
Theorem nr_residuals_formula {PC : Preconditioner} (d : Data.t) (r : Result.t) (w : Work.t) :
  mrows (Data.P_utri d) = Data.n d -> mrows (Data.GT d) = Data.n d ->
  length (Data.h d) = mcols (Data.GT d) ->
  idx_inj (Data.n_lb d) (Data.x_lb_idx d) -> idx_inj (Data.n_ub d) (Data.x_ub_idx d) ->
  (Data.n_lb d <= length (Work.rz_lb_nr w))%nat -> (Data.n_ub d <= length (Work.rz_ub_nr w))%nat ->
  let n := Data.n d in let x := Result.x r in let w' := update_nr_residuals d r w in
  let E_lb := sel_mat n (Data.n_lb d) (Data.x_lb_idx d) in
  let E_ub := sel_mat n (Data.n_ub d) (Data.x_ub_idx d) in
  length (Work.rx_nr w') = n
  /\ (forall j, (j < n)%nat -> vget (Work.rx_nr w') j ==
        - vget (P_times d x) j - vget (Data.c d) j
        - vget (mat_vec (Data.AT d) (Result.y r)) j - vget (mat_vec (Data.GT d) (Result.z r)) j
        + vget (mat_vec (mtranspose E_lb) (Result.z_lb r)) j
        - vget (mat_vec (mtranspose E_ub) (Result.z_ub r)) j)
  /\ (forall j, (j < mcols (Data.AT d))%nat ->
        vget (Work.ry_nr w') j == vget (Data.b d) j - vget (mat_vec (mtranspose (Data.AT d)) x) j)
  /\ (forall j, (j < mcols (Data.GT d))%nat ->
        vget (Work.rz_nr w') j
        == vget (Data.h d) j - vget (mat_vec (mtranspose (Data.GT d)) x) j - vget (Result.s r) j)
  /\ (forall i, (i < Data.n_lb d)%nat ->
        vget (Work.rz_lb_nr w') i
        = vget x (nth i (Data.x_lb_idx d) 0%nat) + vget (Data.x_lb_n d) i - vget (Result.s_lb r) i)
  /\ (forall i, (i < Data.n_ub d)%nat ->
        vget (Work.rz_ub_nr w') i
        = - vget x (nth i (Data.x_ub_idx d) 0%nat) + vget (Data.x_ub d) i - vget (Result.s_ub r) i).
Proof.
  intros HU HG Hh Hlb Hub Llb Lub. cbv zeta. unfold update_nr_residuals. cbv zeta.
  cbn [Work.rx_nr Work.ry_nr Work.rz_nr Work.rz_lb_nr Work.rz_ub_nr].
  set (x := Result.x r).
  set (Ux := mat_vec (Data.P_utri d) x).
  set (Lx := mat_vec (mstrict_lower (mtranspose (Data.P_utri d))) x).
  set (Ay := mat_vec (Data.AT d) (Result.y r)).
  set (Gz := mat_vec (Data.GT d) (Result.z r)).
  assert (LU : length Ux = Data.n d) by (unfold Ux, mat_vec; rewrite length_vinit; exact HU).
  assert (LG : length Gz = Data.n d) by (unfold Gz, mat_vec; rewrite length_vinit; exact HG).
  split; [rewrite !length_vsub, length_vopp; exact LU|].
  split.
  - intros j Hj.
    set (dx3 := scatter (Data.n_lb d) (Data.x_lb_idx d) (fun i => - vget (Result.z_lb r) i) Gz).
    set (dx4 := scatter (Data.n_ub d) (Data.x_ub_idx d) (fun i => vget (Result.z_ub r) i) dx3).
    assert (Hj1 : (j < length (vopp Ux))%nat) by (rewrite length_vopp; lia).
    rewrite !vget_vsub by (rewrite ?length_vsub; exact Hj1).
    pose proof (vget_vopp Ux j) as E1.
    assert (E2 : vget (P_times d x) j == vget Ux j + vget Lx j)
      by (unfold P_times; fold Ux Lx; rewrite vget_vadd by lia; reflexivity).
    assert (Hj3 : (j < length Gz)%nat) by lia.
    pose proof (vget_scatter _ _ (fun i => - vget (Result.z_lb r) i) Gz j Hlb Hj3) as S3.
    assert (Hj4 : (j < length dx3)%nat) by (unfold dx3; rewrite length_scatter; exact Hj3).
    pose proof (vget_scatter _ _ (fun i => vget (Result.z_ub r) i) dx3 j Hub Hj4) as S4.
    fold dx3 in S3. fold dx4 in S4.
    pose proof (vsum_sel (Data.n_lb d) (Data.x_lb_idx d) j (-1) (fun i => - vget (Result.z_lb r) i)
                  (Result.z_lb r) (fun i => ltac:(cbv beta; ring))) as T3.
    pose proof (vsum_sel (Data.n_ub d) (Data.x_ub_idx d) j 1 (fun i => vget (Result.z_ub r) i)
                  (Result.z_ub r) (fun i => ltac:(cbv beta; ring))) as T4.
    rewrite <- (vget_sel_t (Data.n d)) in T3, T4 by exact Hj.
    cbv beta in S3, S4. clearbody x Ux Lx Ay Gz dx3 dx4. lra.
  - split; [|split; [|split]].
    + intros j Hj.
      assert (Hj1 : (j < length (vopp (mat_vec (mtranspose (Data.AT d)) x)))%nat)
        by (rewrite length_vopp; unfold mat_vec; rewrite length_vinit; exact Hj).
      rewrite vget_vadd by exact Hj1.
      pose proof (vget_vopp (mat_vec (mtranspose (Data.AT d)) x) j). lra.
    + intros j Hj.
      assert (Hj1 : (j < length (vopp (mat_vec (mtranspose (Data.GT d)) x)))%nat)
        by (rewrite length_vopp; unfold mat_vec; rewrite length_vinit; exact Hj).
      rewrite vget_vadd by exact Hj1. rewrite vget_vsub by lia.
      pose proof (vget_vopp (mat_vec (mtranspose (Data.GT d)) x) j). lra.
    + intros i Hi. unfold vget at 1. rewrite nth_fill_head.
      rewrite (proj2 (Nat.ltb_lt i _) Hi), (proj2 (Nat.ltb_lt i (length (Work.rz_lb_nr w)))) by lia.
      reflexivity.
    + intros i Hi. unfold vget at 1. rewrite nth_fill_head.
      rewrite (proj2 (Nat.ltb_lt i _) Hi), (proj2 (Nat.ltb_lt i (length (Work.rz_ub_nr w)))) by lia.
      reflexivity.
Qed.

(** With [z_lb = (1)] on variable [0] the code's [r_x_nr(0)] is [1], the
    formula [-E_lb^T z_lb] gives [-1]. *)
Lemma rx_nr_sign_counterexample :
  vget (Work.rx_nr (update_nr_residuals (PC:=precond_id) d_lb1 r_lb1 w_lb1)) 0 == 1
  /\ vget (rx_nr_spec d_lb1 r_lb1) 0 == -1.
Proof. vm_compute. split; reflexivity. Qed.

(** ** Frames of the driver *)

Lemma ipm_step_shape {K : Type} {KK : KKT K} {PC : Preconditioner} (st : Solver.t K) :
  exists r w, ipm_step st = Solver.set_work w (Solver.set_result r st)
    /\ Info.iter (Result.info r) = Info.iter (Solver.info st).
Proof. unfold ipm_step. split_step; do 2 eexists; split; reflexivity. Qed.

Lemma eq_step_shape {K : Type} {KK : KKT K} {PC : Preconditioner} (st : Solver.t K) :
  exists r w, eq_step st = Solver.set_work w (Solver.set_result r st)
    /\ Info.iter (Result.info r) = Info.iter (Solver.info st).
Proof. unfold eq_step. split_step; do 2 eexists; split; reflexivity. Qed.

(** What a pass of the main loop keeps, and how it moves [iter]. *)
Lemma outer_pass_frame {K : Type} {KK : KKT K} {PC : Preconditioner} (st : Solver.t K) :
  match outer_pass st with
  | Cont st' =>
      Solver.settings st' = Solver.settings st /\ Solver.data st' = Solver.data st
      /\ Solver.setup_done st' = Solver.setup_done st
      /\ Solver.kkt_init_state st' = false
      /\ (Info.iter (Solver.info st') = (Info.iter (Solver.info st) + 1)%Z
          \/ Info.iter (Solver.info st') = Info.iter (Solver.info st))
  | Ret s st' =>
      Solver.settings st' = Solver.settings st
      /\ (Info.iter (Solver.info st') = (Info.iter (Solver.info st) + 1)%Z
          \/ Info.iter (Solver.info st') = Info.iter (Solver.info st))
      /\ (s = PIQP_NUMERICS -> Solver.kkt_init_state st' = false)
  end.
Proof.
  destruct (pass_top_frame st) as (S1 & D1 & _ & _ & I1 & _).
  assert (Hsd : Solver.setup_done (pass_top st) = Solver.setup_done st).
  { unfold pass_top. destruct (_ =? 0)%Z; destruct (Settings.verbose _); reflexivity. }
  unfold outer_pass, pass_head.
  destruct (converged (pass_top st)).
  { proj_simpl. split; [exact S1|]. split; [right; exact I1|]. discriminate. }
  destruct (primal_infeasible (regularize (pass_top st))).
  { proj_simpl. split; [exact S1|]. split; [right; exact I1|]. discriminate. }
  destruct (dual_infeasible (regularize (pass_top st))).
  { proj_simpl. split; [exact S1|]. split; [right; exact I1|]. discriminate. }
  set (st0 := pass_top st) in *. clearbody st0.
  unfold pass_factor.
  destruct (kkt_factorize _ _) as [k ok].
  destruct ok.
  - set (st2 := Solver.upd_info (Info.set_factor_retires 0) _).
    assert (F : Solver.settings st2 = Solver.settings st /\ Solver.data st2 = Solver.data st
                /\ Solver.setup_done st2 = Solver.setup_done st
                /\ Solver.kkt_init_state st2 = false
                /\ Info.iter (Solver.info st2) = (Info.iter (Solver.info st) + 1)%Z).
    { unfold st2, stage_scalings, regularize. proj_simpl.
      destruct (bump_iter_info (Result.info (Solver.result st0))) as (B & _).
      unfold Solver.info in I1. rewrite <- I1, <- B. repeat split; assumption. }
    destruct F as (F1 & F2 & F3 & F4 & F5).
    destruct (0 <? n_ineq (Solver.data st2))%nat.
    + destruct (ipm_step_shape st2) as (r & w & -> & Hi). proj_simpl.
      repeat split; try assumption. left. unfold Solver.info in *. rewrite Hi. exact F5.
    + destruct (eq_step_shape st2) as (r & w & -> & Hi). proj_simpl.
      repeat split; try assumption. left. unfold Solver.info in *. rewrite Hi. exact F5.
  - destruct (_ <? _)%Z.
    + unfold stage_scalings, regularize. proj_simpl. repeat split; try assumption.
      right. unfold retry_info. proj_simpl.
      destruct (bump_iter_info (Result.info (Solver.result st0))) as (B & _).
      unfold Solver.info in I1. rewrite B, I1. ring.
    + unfold stage_scalings, regularize. proj_simpl. split; [assumption|]. split; [|reflexivity].
      left. destruct (bump_iter_info (Result.info (Solver.result st0))) as (B & _).
      unfold Solver.info in I1. rewrite B, I1. reflexivity.
Qed.

Lemma init_factorize_frame {K : Type} {KK : KKT K} (fuel : nat) (st : Solver.t K) :
  match init_factorize fuel st with
  | Some (Cont st') =>
      Solver.settings st' = Solver.settings st /\ Solver.data st' = Solver.data st
      /\ Info.iter (Solver.info st') = Info.iter (Solver.info st)
  | Some (Ret _ st') =>
      Solver.settings st' = Solver.settings st
      /\ Info.iter (Solver.info st') = Info.iter (Solver.info st)
      /\ (Settings.max_factor_retires (Solver.settings st') <= Info.factor_retires (Solver.info st'))%Z
  | None => True
  end.
Proof.
  revert st. induction fuel as [|f IH]; intro st; [exact I|].
  cbn [init_factorize]. destruct (kkt_factorize _ _) as [k ok].
  destruct ok; [proj_simpl; repeat split|].
  destruct (_ <? _)%Z eqn:Hr.
  - specialize (IH (Solver.upd_info (retry_info false (Solver.settings (Solver.set_kkt k st)))
                                    (Solver.set_kkt k st))).
    destruct (init_factorize f _) as [[s st'|st']|]; [| |exact I];
      unfold retry_info in IH; proj_simpl; exact IH.
  - proj_simpl. apply Z.ltb_ge in Hr. repeat split. exact Hr.
Qed.

Lemma init_scalings_frame {K : Type} {KK : KKT K} (st : Solver.t K) :
  Solver.settings (init_scalings st) = Solver.settings st
  /\ Solver.data (init_scalings st) = Solver.data st
  /\ Info.iter (Solver.info (init_scalings st)) = Info.iter (Solver.info st)
  /\ Info.factor_retires (Solver.info (init_scalings st)) = Info.factor_retires (Solver.info st).
Proof. unfold init_scalings. destruct (Solver.kkt_init_state st); proj_simpl; repeat split. Qed.

Lemma init_tail_frame {K : Type} {KK : KKT K} {PC : Preconditioner} (st : Solver.t K) :
  let st3 := init_newton st in
  let st4 := if (0 <? n_ineq (Solver.data st3))%nat then init_bias (init_reset st3) else st3 in
  Solver.settings (init_prox st4) = Solver.settings st
  /\ Solver.data (init_prox st4) = Solver.data st
  /\ Info.iter (Solver.info (init_prox st4)) = Info.iter (Solver.info st).
Proof.
  cbv zeta. set (st3 := init_newton st).
  assert (H3 : Solver.settings st3 = Solver.settings st /\ Solver.data st3 = Solver.data st
               /\ Info.iter (Solver.info st3) = Info.iter (Solver.info st))
    by (unfold st3, init_newton; proj_simpl; repeat split).
  clearbody st3. destruct H3 as (H1 & H2 & H4).
  destruct (0 <? n_ineq (Solver.data st3))%nat.
  - assert (R : Solver.settings (init_reset st3) = Solver.settings st3
                /\ Solver.data (init_reset st3) = Solver.data st3
                /\ Info.iter (Solver.info (init_reset st3)) = Info.iter (Solver.info st3))
      by (unfold init_reset; destruct (Qle_bool _ _); proj_simpl; repeat split).
    set (st5 := init_reset st3) in *. clearbody st5. destruct R as (R1 & R2 & R3).
    unfold init_prox, init_bias. proj_simpl. rewrite R1, R2, H1, H2.
    split; [reflexivity|]. split; [reflexivity|]. rewrite <- H4, <- R3. reflexivity.
  - unfold init_prox. proj_simpl. rewrite H1, H2. split; [reflexivity|]. split; [reflexivity|].
    exact H4.
Qed.

Lemma solve_init_cont_frame {K : Type} {KK : KKT K} {PC : Preconditioner}
    (verify : Settings.t -> bool) (fuel : nat) (st st' : Solver.t K) :
  solve_init verify fuel st = Some (Cont st') ->
  Solver.settings st' = Solver.settings st /\ Info.iter (Solver.info st') = 0%Z.
Proof.
  unfold solve_init. destruct (negb (Solver.setup_done st)); [discriminate|].
  destruct (negb (verify _)); [discriminate|].
  set (st1 := init_scalings _).
  assert (H1 : Solver.settings st1 = Solver.settings st /\ Info.iter (Solver.info st1) = 0%Z).
  { unfold st1. destruct (init_scalings_frame (Solver.upd_info (reset_info (Solver.settings st)) st))
      as (A & _ & B & _). rewrite A, B. proj_simpl. split; reflexivity. }
  clearbody st1. pose proof (init_factorize_frame fuel st1) as F.
  destruct (init_factorize fuel st1) as [[s st2|st2]|]; try discriminate.
  intro E. injection E as <-. destruct F as (F1 & _ & F3). cbv zeta.
  destruct (init_tail_frame (Solver.upd_info (Info.set_factor_retires 0) st2)) as (T1 & _ & T3).
  cbv zeta in T1, T3.
  replace (n_ineq (Solver.data st2)) with (n_ineq (Solver.data (init_newton (Solver.upd_info (Info.set_factor_retires 0) st2)))) by reflexivity.
  rewrite T1, T3. proj_simpl. unfold Solver.info in *. rewrite F1, F3. exact H1.
Qed.

Lemma solve_init_ret_frame {K : Type} {KK : KKT K} {PC : Preconditioner}
    (verify : Settings.t -> bool) (fuel : nat) (st st' : Solver.t K) :
  solve_init verify fuel st = Some (Ret PIQP_NUMERICS st') ->
  Solver.settings st' = Solver.settings st /\ Info.iter (Solver.info st') = 0%Z
  /\ (Settings.max_factor_retires (Solver.settings st') <= Info.factor_retires (Solver.info st'))%Z.
Proof.
  unfold solve_init. destruct (negb (Solver.setup_done st)); [discriminate|].
  destruct (negb (verify _)); [discriminate|].
  set (st1 := init_scalings _).
  assert (H1 : Solver.settings st1 = Solver.settings st /\ Info.iter (Solver.info st1) = 0%Z).
  { unfold st1. destruct (init_scalings_frame (Solver.upd_info (reset_info (Solver.settings st)) st))
      as (A & _ & B & _). rewrite A, B. proj_simpl. split; reflexivity. }
  clearbody st1. pose proof (init_factorize_frame fuel st1) as F.
  destruct (init_factorize fuel st1) as [[s st2|st2]|]; try discriminate.
  intro E. injection E as -> <-. destruct F as (F1 & F3 & F4).
  rewrite F1, F3. split; [apply H1|]. split; [apply H1|]. rewrite <- F1. exact F4.
Qed.

Lemma outer_pass_numerics_retires {K : Type} {KK : KKT K} {PC : Preconditioner} (st st' : Solver.t K) :
  outer_pass st = Ret PIQP_NUMERICS st' ->
  (Settings.max_factor_retires (Solver.settings st') <= Info.factor_retires (Solver.info st'))%Z.
Proof.
  unfold outer_pass, pass_head.
  destruct (converged _); [intro H; injection H as E _; discriminate E|].
  destruct (primal_infeasible _); [intro H; injection H as E _; discriminate E|].
  destruct (dual_infeasible _); [intro H; injection H as E _; discriminate E|].
  unfold pass_factor. destruct (kkt_factorize _ _) as [k ok]. destruct ok; [discriminate|].
  destruct (_ <? _)%Z eqn:Hr; [discriminate|]. intro H. injection H as <-.
  proj_simpl. apply Z.ltb_ge in Hr. exact Hr.
Qed.

(** The invariant [0 <= iter <= max(0, max_iter)] of the main loop. *)
Lemma run_loop_iter_inv {K : Type} {KK : KKT K} {PC : Preconditioner}
    (fuel : nat) (st st' : Solver.t K) (s : Status) :
  (0 <= Info.iter (Solver.info st) <= Z.max 0 (Settings.max_iter (Solver.settings st)))%Z ->
  run_loop fuel st = Some (s, st') ->
  Solver.settings st' = Solver.settings st
  /\ (0 <= Info.iter (Solver.info st') <= Z.max 0 (Settings.max_iter (Solver.settings st')))%Z
  /\ (s = PIQP_MAX_ITER_REACHED ->
      Info.iter (Solver.info st') = Z.max 0 (Settings.max_iter (Solver.settings st')))
  /\ (s = PIQP_NUMERICS ->
      (Settings.max_factor_retires (Solver.settings st') <= Info.factor_retires (Solver.info st'))%Z).
Proof.
  revert st. induction fuel as [|f IH]; intros st Hi H; [discriminate|].
  cbn [run_loop] in H.
  destruct (Info.iter (Solver.info st) <? Settings.max_iter (Solver.settings st))%Z eqn:Hlt.
  - apply Z.ltb_lt in Hlt. pose proof (outer_pass_frame st) as F.
    destruct (outer_pass st) as [s1 st1|st1] eqn:Ep.
    + injection H as -> <-. destruct F as (F1 & F2 & F3). rewrite F1.
      split; [reflexivity|]. split; [lia|]. split.
      * intros ->. apply outer_pass_ret_status in Ep. intuition discriminate.
      * intros ->. apply outer_pass_numerics_retires in Ep. rewrite F1 in Ep. exact Ep.
    + destruct F as (F1 & _ & _ & _ & F5).
      destruct (IH st1) as (G1 & G2 & G3 & G4); [rewrite F1; lia|exact H|].
      rewrite G1, F1. split; [reflexivity|]. rewrite G1, F1 in *. split; [exact G2|].
      split; assumption.
  - apply Z.ltb_ge in Hlt. injection H as <- <-. proj_simpl.
    split; [reflexivity|]. split; [exact Hi|]. split; [intros _; lia|]. discriminate.
Qed.

Lemma solve_impl_frame {K : Type} {KK : KKT K} {PC : Preconditioner}
    (verify : Settings.t -> bool) (fuel : nat) (st st' : Solver.t K) (s : Status) :
  solve_impl verify fuel st = Some (s, st') ->
  Solver.setup_done st = true -> verify (Solver.settings st) = true ->
  Solver.settings st' = Solver.settings st
  /\ (0 <= Info.iter (Solver.info st') <= Z.max 0 (Settings.max_iter (Solver.settings st)))%Z
  /\ (s = PIQP_MAX_ITER_REACHED ->
      Info.iter (Solver.info st') = Z.max 0 (Settings.max_iter (Solver.settings st)))
  /\ (s = PIQP_NUMERICS ->
      (Settings.max_factor_retires (Solver.settings st) <= Info.factor_retires (Solver.info st'))%Z).
Proof.
  intros H Hs Hv. unfold solve_impl in H.
  destruct (solve_init verify fuel st) as [[s1 st1|st1]|] eqn:Ei; try discriminate.
  - injection H as -> <-.
    assert (s = PIQP_NUMERICS) as ->.
    { revert Ei. unfold solve_init. rewrite Hs, Hv. cbn [negb].
      destruct (init_factorize _ _) as [[s2 st2|st2]|] eqn:Ef; try discriminate.
      intro E; injection E as -> _. exact (init_factorize_ret _ _ _ _ Ef). }
    destruct (solve_init_ret_frame _ _ _ _ Ei) as (F1 & F2 & F3).
    rewrite F1 in *. split; [reflexivity|]. split; [lia|]. split; [discriminate|]. intros _; exact F3.
  - destruct (solve_init_cont_frame _ _ _ _ Ei) as (F1 & F2).
    destruct (run_loop_iter_inv fuel st1 st' s) as (G1 & G2 & G3 & G4); [lia|exact H|].
    rewrite G1, F1 in *. split; [reflexivity|]. split; [exact G2|]. split; assumption.
Qed.

(** Always-failing factorisations exhaust the retries in the init block. *)
Lemma init_factorize_fail {K : Type} {KK : KKT K}
    (Hfail : forall d k, snd (kkt_factorize d k) = false) :
  forall (j fuel : nat) (st : Solver.t K),
  (0 <= Info.factor_retires (Solver.info st))%Z ->
  Z.of_nat j = (Settings.max_factor_retires (Solver.settings st) - Info.factor_retires (Solver.info st))%Z ->
  (j < fuel)%nat ->
  exists st', init_factorize fuel st = Some (Ret PIQP_NUMERICS st')
    /\ Solver.settings st' = Solver.settings st
    /\ Info.factor_retires (Solver.info st') = Settings.max_factor_retires (Solver.settings st)
    /\ Info.iter (Solver.info st') = Info.iter (Solver.info st).
Proof.
  induction j as [|j IH]; intros fuel st H0 Hj Hf;
    (destruct fuel as [|f]; [lia|]); cbn [init_factorize];
    pose proof (Hfail (Solver.data st) (Solver.kkt st)) as Hk;
    destruct (kkt_factorize _ _) as [k ok]; cbn in Hk; subst ok.
  - destruct (_ <? _)%Z eqn:Hr; proj_simpl; [apply Z.ltb_lt in Hr; lia|].
    eexists; split; [reflexivity|]. proj_simpl. split; [reflexivity|]. split; [lia|reflexivity].
  - destruct (_ <? _)%Z eqn:Hr; proj_simpl; [|apply Z.ltb_ge in Hr; lia].
    destruct (IH f (Solver.upd_info (retry_info false (Solver.settings st)) (Solver.set_kkt k st)))
      as (st' & E & S1 & R1 & I1).
    + unfold retry_info. proj_simpl. lia.
    + unfold retry_info. proj_simpl. lia.
    + lia.
    + exists st'. rewrite E. split; [reflexivity|]. unfold retry_info in *. proj_simpl.
      rewrite S1, R1, I1. split; [reflexivity|]. split; reflexivity.
Qed.

Lemma init_factorize_ret_status {K : Type} {KK : KKT K} (fuel : nat) (st st' : Solver.t K) (s : Status) :
  init_factorize fuel st = Some (Ret s st') -> Info.status (Solver.info st') = s.
Proof.
  revert st. induction fuel as [|f IH]; intro st; [discriminate|]. cbn [init_factorize].
  destruct (kkt_factorize _ _) as [k ok]. destruct ok; [discriminate|].
  destruct (_ <? _)%Z; [apply IH|]. intro H; injection H as <- <-. reflexivity.
Qed.

Lemma outer_pass_ret_status_set {K : Type} {KK : KKT K} {PC : Preconditioner} (st st' : Solver.t K) (s : Status) :
  outer_pass st = Ret s st' -> Info.status (Solver.info st') = s.
Proof.
  unfold outer_pass, pass_head.
  destruct (converged _); [intro H; injection H as <- <-; reflexivity|].
  destruct (primal_infeasible _); [intro H; injection H as <- <-; reflexivity|].
  destruct (dual_infeasible _); [intro H; injection H as <- <-; reflexivity|].
  unfold pass_factor. destruct (kkt_factorize _ _) as [k ok]. destruct ok; [discriminate|].
  destruct (_ <? _)%Z; [discriminate|]. intro H. injection H as <- <-. reflexivity.
Qed.

Lemma run_loop_status_set {K : Type} {KK : KKT K} {PC : Preconditioner} (fuel : nat) (st st' : Solver.t K) (s : Status) :
  run_loop fuel st = Some (s, st') -> Info.status (Solver.info st') = s.
Proof.
  revert st. induction fuel as [|f IH]; intro st; [discriminate|]. cbn [run_loop].
  destruct (_ <? _)%Z.
  - destruct (outer_pass st) as [s1 st1|st1] eqn:Ho; [|apply IH].
    intro H. injection H as <- <-. exact (outer_pass_ret_status_set _ _ _ Ho).
  - intro H. injection H as <- <-. reflexivity.
Qed.

Lemma solve_impl_status_set {K : Type} {KK : KKT K} {PC : Preconditioner}
    (verify : Settings.t -> bool) (fuel : nat) (st st' : Solver.t K) (s : Status) :
  solve_impl verify fuel st = Some (s, st') -> Info.status (Solver.info st') = s.
Proof.
  unfold solve_impl, solve_init.
  destruct (negb (Solver.setup_done st)); [intro H; injection H as <- <-; reflexivity|].
  destruct (negb (verify _)); [intro H; injection H as <- <-; reflexivity|].
  destruct (init_factorize _ _) as [[s1 st1|st1]|] eqn:Ef; try discriminate.
  - intro H; injection H as <- <-. exact (init_factorize_ret_status _ _ _ _ Ef).
  - apply run_loop_status_set.
Qed.

Lemma pass_top_kkt_state {K : Type} {PC : Preconditioner} (st : Solver.t K) :
  Solver.kkt_init_state (pass_top st) = Solver.kkt_init_state st.
Proof.
  unfold pass_top. destruct (Info.iter (Solver.info st) =? 0)%Z; proj_simpl;
    destruct (Settings.verbose (Solver.settings st)); reflexivity.
Qed.

(** A pass either stages new scalings or returns from its head, where
    neither the flag nor the counter has moved. *)
Lemma outer_pass_kkt_state {K : Type} {KK : KKT K} {PC : Preconditioner} (st : Solver.t K) :
  match outer_pass st with
  | Cont st' => Solver.kkt_init_state st' = false
  | Ret s st' => Solver.kkt_init_state st' = true ->
      Solver.kkt_init_state st = true /\ Info.iter (Solver.info st') = Info.iter (Solver.info st)
  end.
Proof.
  pose proof (outer_pass_frame st) as F.
  destruct (outer_pass st) as [s st'|st'] eqn:E; [|apply F].
  intro Hk. destruct F as (_ & _ & F3).
  destruct (pass_top_frame st) as (_ & _ & _ & _ & I1 & _).
  pose proof (pass_top_kkt_state st) as K1.
  revert E. unfold outer_pass, pass_head.
  destruct (converged _); [intro H; injection H as <- <-; proj_simpl; rewrite <- K1; split; assumption|].
  destruct (primal_infeasible _); [intro H; injection H as <- <-; proj_simpl; rewrite <- K1; split; assumption|].
  destruct (dual_infeasible _); [intro H; injection H as <- <-; proj_simpl; rewrite <- K1; split; assumption|].
  intro H. assert (s = PIQP_NUMERICS) by exact (pass_factor_status _ _ _ H). subst s.
  rewrite (F3 eq_refl) in Hk. discriminate.
Qed.

Lemma run_loop_kkt_state {K : Type} {KK : KKT K} {PC : Preconditioner} (fuel : nat) (st st' : Solver.t K) (s : Status) :
  run_loop fuel st = Some (s, st') -> Solver.kkt_init_state st' = true ->
  Solver.kkt_init_state st = true /\ Info.iter (Solver.info st') = Info.iter (Solver.info st).
Proof.
  revert st. induction fuel as [|f IH]; intro st; [discriminate|]. cbn [run_loop].
  destruct (_ <? _)%Z.
  - pose proof (outer_pass_kkt_state st) as F.
    destruct (outer_pass st) as [s1 st1|st1] eqn:Ho.
    + intro H. injection H as <- <-. exact F.
    + intros H Hk. destruct (IH st1 H Hk) as [Hk1 _]. rewrite F in Hk1. discriminate.
  - intro H. injection H as <- <-. proj_simpl. intro Hk. split; [exact Hk|reflexivity].
Qed.

Lemma init_factorize_kkt_state {K : Type} {KK : KKT K} (fuel : nat) (st : Solver.t K) :
  match init_factorize fuel st with
  | Some (Cont st') | Some (Ret _ st') => Solver.kkt_init_state st' = Solver.kkt_init_state st
  | None => True
  end.
Proof.
  revert st. induction fuel as [|f IH]; intro st; [exact I|]. cbn [init_factorize].
  destruct (kkt_factorize _ _) as [k ok]. destruct ok; [reflexivity|].
  destruct (_ <? _)%Z; [|reflexivity].
  specialize (IH (Solver.upd_info (retry_info false (Solver.settings (Solver.set_kkt k st))) (Solver.set_kkt k st))).
  destruct (init_factorize f _) as [[? ?|?]|]; exact IH.
Qed.

Lemma init_tail_kkt_state {K : Type} {KK : KKT K} {PC : Preconditioner} (st : Solver.t K) :
  Solver.kkt_init_state (init_prox (if (0 <? n_ineq (Solver.data (init_newton st)))%nat
    then init_bias (init_reset (init_newton st)) else init_newton st)) = Solver.kkt_init_state st.
Proof.
  destruct (0 <? n_ineq (Solver.data (init_newton st)))%nat; [|reflexivity].
  change (Solver.kkt_init_state (init_reset (init_newton st)) = Solver.kkt_init_state st).
  unfold init_reset. destruct (Qle_bool _ _); reflexivity.
Qed.

Lemma init_scalings_kkt_state {K : Type} {KK : KKT K} (st : Solver.t K) :
  Solver.kkt_init_state (init_scalings st) = Solver.kkt_init_state st.
Proof.
  unfold init_scalings. destruct (Solver.kkt_init_state st) eqn:E; exact E.
Qed.

Lemma ipm_step_steps {K : Type} {KK : KKT K} {PC : Preconditioner} (st : Solver.t K) :
  exists o : KKTVecs,
    let a := step_lengths (Solver.data st) (Solver.result st) o in
    Info.primal_step (Solver.info (ipm_step st)) = fst a * Settings.tau (Solver.settings st)
    /\ Info.dual_step (Solver.info (ipm_step st)) = snd a * Settings.tau (Solver.settings st).
Proof.
  unfold ipm_step. cbv zeta.
  destruct (step_lengths _ _ _) as [a_s0 a_z0].
  match goal with |- context [step_lengths _ _ ?o] => exists o end.
  destruct (step_lengths _ _ _) as [b_s b_z]. cbn [fst snd].
  repeat match goal with |- context [if Qltb ?a ?b then _ else _] => destruct (Qltb a b) end;
    split; reflexivity.
Qed.

(** ** Further properties of the driver *)

(** X1. On a set-up solver with valid settings, whatever status [solve_impl]
    returns, the settings are unchanged and [0 <= iter <= max(0, max_iter)]. *)
Theorem solve_impl_iter_bound {K : Type} (KK : KKT K) (PC : Preconditioner)
    (verify : Settings.t -> bool) (fuel : nat) (st st' : Solver.t K) (s : Status) :
  Solver.setup_done st = true -> verify (Solver.settings st) = true ->
  solve_impl verify fuel st = Some (s, st') ->
  Solver.settings st' = Solver.settings st
  /\ (0 <= Info.iter (Solver.info st') <= Z.max 0 (Settings.max_iter (Solver.settings st)))%Z.
Proof.
  intros Hs Hv H. destruct (solve_impl_frame verify fuel st st' s H Hs Hv) as (A & B & _).
  split; assumption.
Qed.

(** X2. [PIQP_MAX_ITER_REACHED] is returned with [iter = max(0, max_iter)]:
    the loop ran out of passes and a retried factorisation never left
    [iter] behind. *)
Theorem solve_impl_max_iter {K : Type} (KK : KKT K) (PC : Preconditioner)
    (verify : Settings.t -> bool) (fuel : nat) (st st' : Solver.t K) :
  Solver.setup_done st = true -> verify (Solver.settings st) = true ->
  solve_impl verify fuel st = Some (PIQP_MAX_ITER_REACHED, st') ->
  Info.iter (Solver.info st') = Z.max 0 (Settings.max_iter (Solver.settings st)).
Proof.
  intros Hs Hv H. destruct (solve_impl_frame verify fuel st st' _ H Hs Hv) as (_ & _ & C & _).
  apply C. reflexivity.
Qed.

(** X3. [PIQP_NUMERICS] is only returned once [factor_retires] has reached
    [max_factor_retires]. *)
Theorem solve_impl_numerics_retires {K : Type} (KK : KKT K) (PC : Preconditioner)
    (verify : Settings.t -> bool) (fuel : nat) (st st' : Solver.t K) :
  Solver.setup_done st = true -> verify (Solver.settings st) = true ->
  solve_impl verify fuel st = Some (PIQP_NUMERICS, st') ->
  (Settings.max_factor_retires (Solver.settings st) <= Info.factor_retires (Solver.info st'))%Z.
Proof.
  intros Hs Hv H. destruct (solve_impl_frame verify fuel st st' _ H Hs Hv) as (_ & _ & _ & D).
  apply D. reflexivity.
Qed.

(** X4. When every factorisation fails, [solve_impl] returns [PIQP_NUMERICS]
    from the init block after exactly [max_factor_retires] retries, with
    [iter = 0] and the settings unchanged. *)
Theorem solve_impl_factorize_fails {K : Type} (KK : KKT K) (PC : Preconditioner)
    (verify : Settings.t -> bool) (fuel : nat) (st : Solver.t K) :
  (forall d k, snd (kkt_factorize d k) = false) ->
  Solver.setup_done st = true -> verify (Solver.settings st) = true ->
  (0 <= Settings.max_factor_retires (Solver.settings st))%Z ->
  (Z.to_nat (Settings.max_factor_retires (Solver.settings st)) < fuel)%nat ->
  exists st', solve_impl verify fuel st = Some (PIQP_NUMERICS, st')
    /\ Solver.settings st' = Solver.settings st
    /\ Info.factor_retires (Solver.info st') = Settings.max_factor_retires (Solver.settings st)
    /\ Info.iter (Solver.info st') = 0%Z.
Proof.
  intros Hfail Hs Hv H0 Hf. unfold solve_impl, solve_init. rewrite Hs, Hv. cbn [negb].
  set (st1 := init_scalings _).
  destruct (init_scalings_frame (Solver.upd_info (reset_info (Solver.settings st)) st))
    as (A & _ & B & C). fold st1 in A, B, C.
  destruct (init_factorize_fail Hfail (Z.to_nat (Settings.max_factor_retires (Solver.settings st))) fuel st1)
    as (st' & E & S1 & R1 & I1).
  - rewrite C. cbn. lia.
  - rewrite A, C. cbn. lia.
  - exact Hf.
  - rewrite E. exists st'. split; [reflexivity|]. rewrite S1, A, R1, I1, A, B. cbn.
    split; [reflexivity|]. split; reflexivity.
Qed.

(** X5. The status [solve] returns is the one recorded in [result.info.status]. *)
Theorem solve_status_recorded {K : Type} (KK : KKT K) (PC : Preconditioner)
    (verify : Settings.t -> bool) (t_inf : Q) (fuel : nat) (st st' : Solver.t K) (s : Status) :
  solve verify t_inf fuel st = Some (s, st') ->
  Info.status (Result.info (Solver.result st')) = s.
Proof.
  unfold solve. destruct (solve_impl verify fuel st) as [[s1 st1]|] eqn:E; [|discriminate].
  intro H. injection H as <- <-. proj_simpl. cbn [restore_box_dual unscale_results Result.info].
  exact (solve_impl_status_set _ _ _ _ _ E).
Qed.

(** X6. If [kkt_init_state] is still set after [solve_impl], it was set
    before and no pass advanced [iter]: every pass that reaches the
    factorisation clears it, so the next solve re-initialises the scalings. *)
Theorem solve_impl_kkt_state {K : Type} (KK : KKT K) (PC : Preconditioner)
    (verify : Settings.t -> bool) (fuel : nat) (st st' : Solver.t K) (s : Status) :
  Solver.setup_done st = true -> verify (Solver.settings st) = true ->
  solve_impl verify fuel st = Some (s, st') ->
  Solver.kkt_init_state st' = true ->
  Solver.kkt_init_state st = true /\ Info.iter (Solver.info st') = 0%Z.
Proof.
  intros Hs Hv H Hk. unfold solve_impl in H.
  pose proof (solve_init_cont_frame verify fuel st) as C.
  revert H C. unfold solve_init. rewrite Hs, Hv. cbn [negb].
  set (st0 := init_scalings _).
  assert (K0 : Solver.kkt_init_state st0 = Solver.kkt_init_state st)
    by exact (init_scalings_kkt_state _).
  destruct (init_scalings_frame (Solver.upd_info (reset_info (Solver.settings st)) st))
    as (_ & _ & I0 & _). fold st0 in I0.
  pose proof (init_factorize_frame fuel st0) as F. pose proof (init_factorize_kkt_state fuel st0) as G.
  destruct (init_factorize fuel st0) as [[s2 st2|st2]|]; try discriminate.
  - intros E _; injection E as -> <-. destruct F as (_ & F2 & _).
    rewrite G, K0 in Hk. split; [exact Hk|]. rewrite F2, I0. reflexivity.
  - intros H C. destruct (C _ eq_refl) as (_ & F2).
    destruct (run_loop_kkt_state fuel _ st' s H Hk) as (Hk1 & Hi).
    rewrite Hi, F2. split; [|reflexivity].
    rewrite <- K0, <- G. rewrite <- Hk1.
    exact (eq_sym (init_tail_kkt_state (Solver.upd_info (Info.set_factor_retires 0) st2))).
Qed.
(** X7. With [0 < tau] and positive slacks and duals, the step of the
    predictor-corrector branch records [0 < primal_step <= tau] and
    [0 < dual_step <= tau]. *)
Theorem ipm_step_step_bounds {K : Type} (KK : KKT K) (PC : Preconditioner) (st : Solver.t K) :
  0 < Settings.tau (Solver.settings st) ->
  live_pos (Solver.data st) (Solver.result st) ->
  let i := Solver.info (ipm_step st) in
  0 < Info.primal_step i <= Settings.tau (Solver.settings st)
  /\ 0 < Info.dual_step i <= Settings.tau (Solver.settings st).
Proof.
  intros Ht Hp. cbv zeta. destruct (ipm_step_steps st) as (o & E1 & E2).
  rewrite E1, E2.
  destruct (step_lengths_spec (Solver.data st) (Solver.result st) o Hp) as (A1 & A2 & A3 & A4 & _).
  set (a := step_lengths _ _ _) in *. set (t := Settings.tau _) in *. clearbody a t.
  split; split; nra.
Qed.

(** ** Instances of the theorems at concrete inputs *)

Lemma setup_box_bounds_witness :
  let d1 := setup_ub_data (Some [T_INF; 5]) (setup_lb_data (Some [1; - T_INF]) d_box) in
  Data.n_lb d1 = length (filter lb_finite [1; - T_INF])
  /\ Data.n_ub d1 = length (filter ub_finite [T_INF; 5]).
Proof.
  pose proof (setup_box_bounds d_box [1; - T_INF] [T_INF; 5] eq_refl eq_refl eq_refl eq_refl eq_refl eq_refl)
    as (H1 & _ & _ & H4 & _).
  split; [exact H1 | exact H4].
Defined.

Lemma restore_box_dual_layout_witness :
  dense_layout (Data.n d_prev) (Data.n_lb d_prev) (Data.x_lb_idx d_prev) 0
    (Result.z_lb (Solver.result st_prev))
    (Result.z_lb (restore_box_dual T_INF d_prev (Solver.result st_prev))).
Proof.
  refine (proj1 (restore_box_dual_layout T_INF d_prev (Solver.result st_prev) _ _ _ _ _ _ _ _ _ _ _ _));
    cbn -[T_INF];
    try (intros i Hi; destruct i as [|i]; cbn; lia);
    try (intros i j Hij; lia);
    try lia; reflexivity.
Defined.

Lemma solve_always_postprocesses_witness :
  exists s1 st1 st_i,
    solve (KK:=kkt_P) (PC:=precond_id) verify_settings_model T_INF 5 setup_P = Some (s1, st1)
    /\ solve_impl (KK:=kkt_P) (PC:=precond_id) verify_settings_model 5 setup_P = Some (s1, st_i)
    /\ Solver.setup_done st1 = true
    /\ solve (KK:=kkt_P) (PC:=precond_id) verify_settings_model T_INF 5
         (Solver.set_settings (bad_tau settings_P) st1)
       = Some (PIQP_INVALID_SETTINGS,
               Solver.set_result (restore_box_dual T_INF (Solver.data st1)
                  (unscale_results (PC:=precond_id) (Solver.data st1)
                     (Solver.result (Solver.upd_info (Info.set_status PIQP_INVALID_SETTINGS)
                        (Solver.set_settings (bad_tau settings_P) st1)))))
                 (Solver.upd_info (Info.set_status PIQP_INVALID_SETTINGS)
                    (Solver.set_settings (bad_tau settings_P) st1))).
Proof.
  destruct (solve (KK:=kkt_P) (PC:=precond_id) verify_settings_model T_INF 5 setup_P)
    as [[s1 st1]|] eqn:E; [|vm_compute in E; discriminate].
  assert (Hs : Solver.setup_done st1 = true)
    by (revert E; vm_compute; intro E; injection E as _ <-; reflexivity).
  assert (Hv : verify_settings_model (bad_tau settings_P) = false) by reflexivity.
  destruct (proj1 (proj2 (proj2 (proj2 (solve_always_postprocesses kkt_P precond_id
              verify_settings_model T_INF 5 setup_P))))
              5%nat s1 st1 (bad_tau settings_P) E Hs Hv)
    as (st_i & H1 & H2 & H3).
  exists s1, st1, st_i. split; [reflexivity|]. split; [exact H1|]. split; [exact Hs|].
  rewrite <- H2 in H3. exact H3.
Defined.

Lemma solved_iff_converged_witness :
  solve_impl (KK:=kkt_B) (PC:=precond_id) verify_settings_model 5 setup_D
    = run_loop (KK:=kkt_B) (PC:=precond_id) 5 start_D
  /\ exists fuel, run_loop (KK:=kkt_B) (PC:=precond_id) fuel start_D
       = Some (PIQP_SOLVED, Solver.upd_info (Info.set_status PIQP_SOLVED) (pass_top (PC:=precond_id) start_D)).
Proof.
  destruct (solved_iff_converged kkt_B precond_id verify_settings_model 5 setup_D start_D)
    as (H1 & _ & H3).
  split.
  - apply H1. vm_compute. reflexivity.
  - apply H3; [apply reach_here | vm_compute; reflexivity | vm_compute; reflexivity].
Defined.

Lemma factor_retry_semantics_witness :
  match solve_impl (KK:=kkt_B) (PC:=precond_id) verify_settings_model 5 setup_D with
  | Some (_, st') => Info.factor_retires (Solver.info st') = 0%Z
  | None => False
  end.
Proof.
  destruct (factor_retry_semantics kkt_B precond_id verify_settings_model 5 setup_D)
    as (_ & _ & _ & _ & _ & H6 & _).
  destruct (solve_impl (KK:=kkt_B) (PC:=precond_id) verify_settings_model 5 setup_D)
    as [[s st']|] eqn:E.
  - apply (H6 s st' eq_refl). left. vm_compute in E. injection E as <- _. reflexivity.
  - vm_compute in E. discriminate.
Defined.

Lemma step_keeps_positive_witness :
  live_pos (Solver.data next_E) (Solver.result next_E).
Proof.
  apply (step_keeps_positive kkt_E precond_id start_E next_E).
  - apply Qltb_iff. vm_compute. reflexivity.
  - apply Qltb_iff. vm_compute. reflexivity.
  - split; [|split]; intros i Hi; vm_compute in Hi;
      (destruct i as [|i]; [|exfalso; lia]);
      (try (exfalso; lia)); split; apply Qltb_iff; vm_compute; reflexivity.
  - vm_compute. reflexivity.
Defined.

Lemma prox_params_per_pass_witness :
  reg_inv (Solver.info next_E) /\ 0 < Info.rho (Solver.info next_E).
Proof.
  destruct (prox_params_per_pass kkt_E precond_id start_E next_E) as (H1 & H2 & _).
  - split; [|split]; apply Qle_bool_iff; vm_compute; reflexivity.
  - apply Qle_bool_iff. vm_compute. reflexivity.
  - apply Qle_bool_iff. vm_compute. reflexivity.
  - vm_compute. reflexivity.
  - split; [exact H1 | exact H2].
Defined.

Lemma init_block_semantics_witness :
  init_scalings (KK:=kkt_B) setup_D = setup_D
  /\ Result.s (Solver.result (init_scalings (KK:=kkt_B) st_prev)) = vconst (Result.s (Solver.result st_prev)) 1.
Proof.
  destruct (init_block_semantics kkt_B precond_id) as (_ & H2 & H3 & _).
  split.
  - apply H2. reflexivity.
  - apply H3. reflexivity.
Defined.

Lemma nr_residuals_formula_witness :
  length (Work.rx_nr (update_nr_residuals (PC:=precond_id) d_lb1 r_lb1 w_lb1)) = Data.n d_lb1.
Proof.
  refine (proj1 (nr_residuals_formula (PC:=precond_id) d_lb1 r_lb1 w_lb1 eq_refl eq_refl eq_refl _ _ _ _)).
  - intros i i' Hi Hi' _. vm_compute in Hi, Hi'. lia.
  - intros i i' Hi Hi' _. vm_compute in Hi. lia.
  - vm_compute. lia.
  - vm_compute. lia.
Defined.

Lemma solve_impl_iter_bound_witness :
  match solve_impl (KK:=kkt_B) (PC:=precond_id) verify_settings_model 5 setup_D with
  | Some (_, st') => (0 <= Info.iter (Solver.info st') <= 100)%Z
  | None => False
  end.
Proof.
  destruct (solve_impl (KK:=kkt_B) (PC:=precond_id) verify_settings_model 5 setup_D)
    as [[s st']|] eqn:E.
  - destruct (solve_impl_iter_bound kkt_B precond_id verify_settings_model 5 setup_D st' s)
      as (_ & H); [vm_compute; reflexivity | vm_compute; reflexivity | exact E |].
    exact H.
  - vm_compute in E. discriminate.
Defined.

Lemma solve_impl_max_iter_witness :
  match solve_impl (KK:=kkt_A) (PC:=precond_id) verify_settings_model 5 setup_M with
  | Some (PIQP_MAX_ITER_REACHED, st') => Info.iter (Solver.info st') = 2%Z
  | _ => False
  end.
Proof.
  destruct (solve_impl (KK:=kkt_A) (PC:=precond_id) verify_settings_model 5 setup_M)
    as [[s st']|] eqn:E.
  - assert (Hs : s = PIQP_MAX_ITER_REACHED) by (vm_compute in E; injection E as <- _; reflexivity).
    subst s. apply (solve_impl_max_iter kkt_A precond_id verify_settings_model 5 setup_M st');
      [vm_compute; reflexivity | vm_compute; reflexivity | exact E].
  - vm_compute in E. discriminate.
Defined.

Lemma solve_impl_numerics_retires_witness :
  match solve_impl (KK:=kkt_C) (PC:=precond_id) verify_settings_model 5 setup_C with
  | Some (PIQP_NUMERICS, st') => (2 <= Info.factor_retires (Solver.info st'))%Z
  | _ => False
  end.
Proof.
  destruct (solve_impl (KK:=kkt_C) (PC:=precond_id) verify_settings_model 5 setup_C)
    as [[s st']|] eqn:E.
  - assert (Hs : s = PIQP_NUMERICS) by (vm_compute in E; injection E as <- _; reflexivity).
    subst s. apply (solve_impl_numerics_retires kkt_C precond_id verify_settings_model 5 setup_C st');
      [vm_compute; reflexivity | vm_compute; reflexivity | exact E].
  - vm_compute in E. discriminate.
Defined.

Lemma solve_impl_factorize_fails_witness :
  exists st', solve_impl (KK:=kkt_C) (PC:=precond_id) verify_settings_model 3 setup_C = Some (PIQP_NUMERICS, st')
    /\ Solver.settings st' = Solver.settings setup_C
    /\ Info.factor_retires (Solver.info st') = 2%Z
    /\ Info.iter (Solver.info st') = 0%Z.
Proof.
  apply (solve_impl_factorize_fails kkt_C precond_id verify_settings_model 3 setup_C).
  - intros d k. reflexivity.
  - vm_compute. reflexivity.
  - vm_compute. reflexivity.
  - vm_compute. discriminate.
  - vm_compute. lia.
Defined.

Lemma solve_status_recorded_witness :
  match solve (KK:=kkt_C) (PC:=precond_id) verify_settings_model 0 5 setup_C with
  | Some (s, st') => Info.status (Result.info (Solver.result st')) = s
  | None => False
  end.
Proof.
  destruct (solve (KK:=kkt_C) (PC:=precond_id) verify_settings_model 0 5 setup_C) as [[s st']|] eqn:E.
  - exact (solve_status_recorded kkt_C precond_id verify_settings_model 0 5 setup_C st' s E).
  - vm_compute in E. discriminate.
Defined.

Lemma solve_impl_kkt_state_witness :
  match solve_impl (KK:=kkt_B) (PC:=precond_id) verify_settings_model 5 setup_D with
  | Some (_, st') => Info.iter (Solver.info st') = 0%Z
  | None => False
  end.
Proof.
  destruct (solve_impl (KK:=kkt_B) (PC:=precond_id) verify_settings_model 5 setup_D) as [[s st']|] eqn:E.
  - refine (proj2 (solve_impl_kkt_state kkt_B precond_id verify_settings_model 5 setup_D st' s _ _ E _)).
    + vm_compute. reflexivity.
    + vm_compute. reflexivity.
    + vm_compute in E. injection E as _ <-. vm_compute. reflexivity.
  - vm_compute in E. discriminate.
Defined.

Lemma ipm_step_step_bounds_witness :
  0 < Info.primal_step (Solver.info (ipm_step (KK:=kkt_E) (PC:=precond_id) start_E)).
Proof.
  refine (proj1 (proj1 (ipm_step_step_bounds kkt_E precond_id start_E _ _))).
  - apply Qltb_iff. vm_compute. reflexivity.
  - split; [|split]; intros i Hi; vm_compute in Hi;
      (destruct i as [|i]; [|exfalso; lia]);
      (try (exfalso; lia)); split; apply Qltb_iff; vm_compute; reflexivity.
Defined.
